(** * Cross-exchange arbitrage scanner: detection and execution validation

    Shallow embedding of [src/services/arbitrageService.ts] (with the parts
    of [arbitrageConfig.ts], [exchangeConfigs.ts] and [types/exchange.ts] it
    relies on), and the properties of the specification settled against it.

    Modelling conventions.
    - A JavaScript [number] is a value of [JsNum.num]: NaN, the two
      infinities, or a finite value.  Finite values are exact rationals:
      IEEE-754 rounding, overflow, underflow and the sign of zero are not
      modelled; every special-value rule ([NaN] propagation, comparisons
      with [NaN], division by zero, [Infinity - Infinity]) is.
    - A JavaScript object used as a record ([Record<string, T>]) and a [Map]
      are association lists in insertion order, which is the order
      [Object.entries] and [Map.prototype.keys] enumerate (symbols and venue
      names are not array indices).
    - A promise is modelled by its settled outcome: fulfilled with a value
      or rejected.  The callbacks handed to [Promise.all] are run in array
      order; the order in which the venues answer is not modelled.
    - Strings are ASCII: [toUpperCase] maps the letters a-z. *)

From Stdlib Require Import QArith Qround Qabs Lqa Lia List String Ascii Bool ZArith.
Import ListNotations.

Set Implicit Arguments.

(* ================================================================== *)
(** ** JavaScript numbers *)
(* ================================================================== *)

Module JsNum.

Local Open Scope Q_scope.

Inductive num : Type :=
| NaN
| PInf
| NInf
| Fin (q : Q).

Definition Qltb (a b : Q) : bool := negb (Qle_bool b a).

(** [Number.isFinite], [Number.isNaN]. *)
Definition isFinite (x : num) : bool :=
  match x with Fin _ => true | _ => false end.

Definition isNaN (x : num) : bool :=
  match x with NaN => true | _ => false end.

Definition neg (x : num) : num :=
  match x with
  | NaN => NaN
  | PInf => NInf
  | NInf => PInf
  | Fin q => Fin (- q)
  end.

Definition add (x y : num) : num :=
  match x, y with
  | NaN, _ | _, NaN => NaN
  | PInf, NInf | NInf, PInf => NaN
  | PInf, _ | _, PInf => PInf
  | NInf, _ | _, NInf => NInf
  | Fin a, Fin b => Fin (a + b)
  end.

Definition sub (x y : num) : num := add x (neg y).

(** An infinity scaled by a finite factor: the sign follows the factor and
    [Infinity * 0] is NaN. *)
Definition scale_inf (b : Q) : num :=
  match b ?= 0 with
  | Gt => PInf
  | Lt => NInf
  | Eq => NaN
  end.

Definition mul (x y : num) : num :=
  match x, y with
  | NaN, _ | _, NaN => NaN
  | Fin a, Fin b => Fin (a * b)
  | PInf, PInf | NInf, NInf => PInf
  | PInf, NInf | NInf, PInf => NInf
  | PInf, Fin b | Fin b, PInf => scale_inf b
  | NInf, Fin b | Fin b, NInf => neg (scale_inf b)
  end.

Definition div (x y : num) : num :=
  match x, y with
  | NaN, _ | _, NaN => NaN
  | Fin a, Fin b =>
      if Qeq_bool b 0 then scale_inf a else Fin (a / b)
  | Fin _, PInf | Fin _, NInf => Fin 0
  | PInf, PInf | PInf, NInf | NInf, PInf | NInf, NInf => NaN
  | PInf, Fin b => if Qltb b 0 then NInf else PInf
  | NInf, Fin b => if Qltb b 0 then PInf else NInf
  end.

(** The relational operators: every comparison with NaN is false. *)
Definition lt (x y : num) : bool :=
  match x, y with
  | NaN, _ | _, NaN => false
  | Fin a, Fin b => Qltb a b
  | _, NInf => false
  | NInf, _ => true
  | PInf, _ => false
  | Fin _, PInf => true
  end.

Definition le (x y : num) : bool :=
  match x, y with
  | NaN, _ | _, NaN => false
  | Fin a, Fin b => Qle_bool a b
  | NInf, _ => true
  | _, NInf => false
  | _, PInf => true
  | PInf, Fin _ => false
  end.

Definition gt (x y : num) : bool := lt y x.
Definition ge (x y : num) : bool := le y x.

(** [Math.min] and [Math.max] of two arguments, and of a spread array. *)
Definition min2 (x y : num) : num :=
  match x, y with
  | NaN, _ | _, NaN => NaN
  | _, _ => if lt y x then y else x
  end.

Definition max2 (x y : num) : num :=
  match x, y with
  | NaN, _ | _, NaN => NaN
  | _, _ => if lt x y then y else x
  end.

Definition min_list (l : list num) : num := fold_left min2 l PInf.
Definition max_list (l : list num) : num := fold_left max2 l NInf.

(** [Number(x.toFixed(2))]: the closest multiple of 1/100, the larger
    magnitude on a tie; magnitudes of 1e21 and above keep their value. *)
Definition round2_nonneg (q : Q) : Q :=
  inject_Z (Qfloor (q * 100 + (1 # 2))) / 100.

Definition round2 (q : Q) : Q :=
  if Qle_bool (inject_Z (10 ^ 21)) (Qabs q) then q
  else if Qltb q 0 then - round2_nonneg (- q)
  else round2_nonneg q.

Definition toFixed2 (x : num) : num :=
  match x with
  | Fin q => Fin (round2 q)
  | _ => x
  end.

(** Order and equality of numbers as propositions. *)
Definition num_le (x y : num) : Prop := le x y = true.
Definition num_lt (x y : num) : Prop := lt x y = true.

Definition num_eq (x y : num) : Prop :=
  match x, y with
  | Fin a, Fin b => a == b
  | NaN, NaN | PInf, PInf | NInf, NInf => True
  | _, _ => False
  end.

Definition positive_finite (x : num) : Prop :=
  match x with Fin q => 0 < q | _ => False end.

End JsNum.

Import JsNum.

Local Open Scope string_scope.

(* ================================================================== *)
(** ** Strings, records and maps of the JavaScript runtime *)
(* ================================================================== *)

(** [String.prototype.toUpperCase] on the ASCII range. *)
Definition upper_ascii (c : ascii) : ascii :=
  let n := nat_of_ascii c in
  if ((97 <=? n) && (n <=? 122))%nat then ascii_of_nat (n - 32) else c.

Fixpoint toUpperCase (s : string) : string :=
  match s with
  | EmptyString => EmptyString
  | String c r => String (upper_ascii c) (toUpperCase r)
  end.

(** [s.endsWith(suffix)] and [s.slice(0, -k)]. *)
Definition endsWith (s suffix : string) : bool :=
  let n := String.length s in
  let k := String.length suffix in
  ((k <=? n)%nat && String.eqb (substring (n - k) k s) suffix)%bool.

Definition slice_drop_last (k : nat) (s : string) : string :=
  substring 0 (String.length s - k) s.

(** [Array.prototype.includes] on strings. *)
Definition includes (l : list string) (x : string) : bool :=
  existsb (String.eqb x) l.

(** Objects and [Map]s keyed by strings: [lookup] is property access or
    [Map.get], [map_set] is assignment or [Map.set] (an existing key keeps
    its position), [Map_from] is [new Map(entries)] and
    [Object.fromEntries]. *)
Section KeyedStore.
Variable V : Type.

Fixpoint lookup (m : list (string * V)) (k : string) : option V :=
  match m with
  | [] => None
  | (k', v) :: r => if String.eqb k k' then Some v else lookup r k
  end.

Fixpoint map_set (m : list (string * V)) (k : string) (v : V)
  : list (string * V) :=
  match m with
  | [] => [(k, v)]
  | (k', v') :: r =>
      if String.eqb k k' then (k', v) :: r else (k', v') :: map_set r k v
  end.

Definition Map_from (entries : list (string * V)) : list (string * V) :=
  fold_left (fun m kv => map_set m (fst kv) (snd kv)) entries [].

Definition has (m : list (string * V)) (k : string) : bool :=
  match lookup m k with Some _ => true | None => false end.

Definition keys (m : list (string * V)) : list string := map fst m.
End KeyedStore.

(** [Set.prototype.add] on an insertion-ordered set of strings. *)
Definition set_add (s : list string) (x : string) : list string :=
  if includes s x then s else s ++ [x].

(** [array.filter(Boolean)] on an array of objects and nulls. *)
Fixpoint filter_some (A : Type) (l : list (option A)) : list A :=
  match l with
  | [] => []
  | Some a :: r => a :: filter_some r
  | None :: r => filter_some r
  end.

(** [array.reduce(f)] without an initial value; [None] stands for the
    TypeError raised on an empty array. *)
Definition reduce1 (A : Type) (f : A -> A -> A) (l : list A) : option A :=
  match l with
  | [] => None
  | x :: r => Some (fold_left f r x)
  end.

(** The settled state of a promise. *)
Inductive outcome (A : Type) : Type :=
| Fulfilled (a : A)
| Failed.
Arguments Failed {A}.

(** [Promise.all]: fulfilled with every value, or rejected when one of the
    promises rejects. *)
Fixpoint Promise_all (A : Type) (l : list (outcome A)) : outcome (list A) :=
  match l with
  | [] => Fulfilled []
  | Failed :: _ => Failed
  | Fulfilled a :: r =>
      match Promise_all r with
      | Fulfilled l' => Fulfilled (a :: l')
      | Failed => Failed
      end
  end.

(* ================================================================== *)
(** ** Data model ([types/exchange.ts]) *)
(* ================================================================== *)

Record Pair : Type := {
  pair_base : string;
  pair_quote : string;
  pair_symbol : string
}.

Record ExchangeFees : Type := {
  takerFeePercent : num;
  transferFeePercent : option num
}.

Record OpportunityLeg : Type := {
  leg_exchange : string;
  leg_price : num;
  effectivePrice : num;
  feePercentApplied : num
}.

Abbreviation PriceByExchange := (list (string * num)) (only parsing).
Abbreviation PricesBySymbol :=
  (list (string * list (string * num))) (only parsing).

Record Ticker24h : Type := {
  ticker_last : option num;
  quoteVolume24h : option num
}.

(** [readonly [price, amount]]. *)
Abbreviation OrderBookLevel := (num * num)%type (only parsing).

Record OrderBook : Type := {
  bids : list OrderBookLevel;
  asks : list OrderBookLevel
}.

Record CurrencyNetworkInfo : Type := {
  network : string;
  depositEnabled : option bool;
  withdrawEnabled : option bool
}.

Record CurrencyInfo : Type := {
  code : string;
  networks : option (list CurrencyNetworkInfo)
}.

Abbreviation Currencies := (list (string * CurrencyInfo)) (only parsing).

Inductive TransferStatus : Type :=
| ok
| unknown
| blocked
| unavailable.

Record TransferValidation : Type := {
  transfer_status : TransferStatus;
  transfer_network : option string;
  transfer_reason : option string
}.

Record OpportunityLegValidation : Type := {
  bestPrice : option num;
  executablePrice : option num;
  slippagePercent : option num;
  volume24hQuote : option num
}.

Inductive ValidationStatus : Type :=
| validated
| rejected.

(** The rejection reasons.  The source builds each as a template literal;
    a constructor stands for one template and carries the interpolated
    values (the number-to-text conversion is not modelled). *)
Inductive Reason : Type :=
| BuyVolumeUnknown (exchange : string)
    (* `buy volume_24h unknown on ${buyEx.name}` *)
| SellVolumeUnknown (exchange : string)
    (* `sell volume_24h unknown on ${sellEx.name}` *)
| BuyVolumeBelowMin (buyVol : num)
    (* `buy volume_24h < MIN_24H_VOLUME (${buyVol})` *)
| SellVolumeBelowMin (sellVol : num)
    (* `sell volume_24h < MIN_24H_VOLUME (${sellVol})` *)
| OrderBookUnsupported (exchange : string)
    (* `order book unsupported on ${ex.name}` *)
| BuyOrderBookUnavailable (exchange : string)
    (* `buy order book unavailable on ${buyEx.name}` *)
| SellOrderBookUnavailable (exchange : string)
    (* `sell order book unavailable on ${sellEx.name}` *)
| BestAskMissing (exchange : string)
    (* `best ask missing on ${buyEx.name}` *)
| BestBidMissing (exchange : string)
    (* `best bid missing on ${sellEx.name}` *)
| InsufficientBuyDepth (tradeAmount : Q) (exchange : string)
    (* `insufficient buy-side depth for ${DEFAULT_TRADE_AMOUNT} quote on ${buyEx.name}` *)
| InsufficientSellDepth (exchange : string)
    (* `insufficient sell-side depth for base amount on ${sellEx.name}` *)
| BuySlippageAboveMax (buySlippage : num)
    (* `buy slippage > MAX_SLIPPAGE_PERCENT (${buySlippage.toFixed(3)}%)` *)
| SellSlippageAboveMax (sellSlippage : num)
    (* `sell slippage > MAX_SLIPPAGE_PERCENT (${sellSlippage.toFixed(3)}%)` *)
| TransferCheckFailed (status : TransferStatus) (reason : option string)
    (* `transfer check ${transfer.status}: ${transfer.reason}` *)
| RealProfitBelowMin (realProfitUsd : num)
    (* `realProfitUsd < MIN_REAL_PROFIT_USD (${realProfitUsd.toFixed(2)})` *).

Record OpportunityValidation : Type := {
  validation_status : ValidationStatus;
  validation_reasons : option (list Reason);
  validation_buy : option OpportunityLegValidation;
  validation_sell : option OpportunityLegValidation;
  validation_transfer : option TransferValidation
}.

Record ArbitrageOpportunity : Type := {
  opp_symbol : string;
  opp_min : num;
  opp_max : num;
  opp_diff : num;
  opp_netDiff : num;
  opp_buy : OpportunityLeg;
  opp_sell : OpportunityLeg;
  opp_exchanges : PriceByExchange;
  tradeAmountUsd : option num;
  realProfitUsd : option num;
  opp_validation : option OpportunityValidation
}.

(** A venue adapter.  Each operation is given by the settled outcome of the
    promise it returns; the optional capabilities are [None] when the
    adapter does not define the method. *)
Record ExchangeConfig : Type := {
  name : string;
  fees : ExchangeFees;
  getPairs : outcome (list Pair);
  getPrices : list string -> outcome (list (string * num));
  getTickers24h : option (list string -> outcome (list (string * Ticker24h)));
  getOrderBook : option (string -> outcome (option OrderBook));
  getCurrencies : option (outcome (option Currencies))
}.

(* ================================================================== *)
(** ** Configuration ([arbitrageConfig.ts]) *)
(* ================================================================== *)

(** The environment variables the core reads, each already converted by
    [Number(raw)]; [None] when the variable is not set. *)
Record Env : Type := {
  env_MIN_24H_VOLUME : option num;
  env_MAX_SLIPPAGE_PERCENT : option num;
  env_MIN_REAL_PROFIT_USD : option num;
  env_DEFAULT_TRADE_AMOUNT : option num;
  env_MIN_DIFF_PERCENT : option num
}.

(** [readNumberEnv]: the parsed value when it is finite, the fallback
    otherwise; the result is finite in every case. *)
Definition readNumberEnv (raw : option num) (fallback : Q) : Q :=
  match raw with
  | Some (Fin parsed) => parsed
  | _ => fallback
  end.

Definition MIN_24H_VOLUME (env : Env) : Q :=
  readNumberEnv (env_MIN_24H_VOLUME env) 50000.

Definition MAX_SLIPPAGE_PERCENT (env : Env) : Q :=
  readNumberEnv (env_MAX_SLIPPAGE_PERCENT env) (8 # 10).

Definition MIN_REAL_PROFIT_USD (env : Env) : Q :=
  readNumberEnv (env_MIN_REAL_PROFIT_USD env) 5.

Definition DEFAULT_TRADE_AMOUNT (env : Env) : Q :=
  readNumberEnv (env_DEFAULT_TRADE_AMOUNT env) 100.

Definition DEFAULT_MIN_DIFF_PERCENT (env : Env) : num :=
  let envMinDiff :=
    match env_MIN_DIFF_PERCENT env with
    | Some x => x
    | None => Fin (5 # 10)
    end in
  if isNaN envMinDiff then Fin (5 # 10) else envMinDiff.

(** The environment with no variable set: every constant at its default. *)
Definition default_env : Env :=
  {| env_MIN_24H_VOLUME := None;
     env_MAX_SLIPPAGE_PERCENT := None;
     env_MIN_REAL_PROFIT_USD := None;
     env_DEFAULT_TRADE_AMOUNT := None;
     env_MIN_DIFF_PERCENT := None |}.

(* ================================================================== *)
(** ** Fill simulation *)
(* ================================================================== *)

Record Fill : Type := {
  fill_executablePrice : num;
  fill_baseAmount : num
}.

(** The guard at the head of both loops: the level is skipped. *)
Definition skip_level (price amountBase : num) : bool :=
  negb (isFinite price) || negb (isFinite amountBase)
  || le price (Fin 0) || le amountBase (Fin 0).

(** The loop of [vwapBuyForQuoteAmount] over [book.asks]; the state is
    [(remainingQuote, baseBought, quoteSpent)]. *)
Fixpoint buy_loop (levels : list OrderBookLevel)
    (remainingQuote baseBought quoteSpent : num) : num * num * num :=
  match levels with
  | [] => (remainingQuote, baseBought, quoteSpent)
  | (price, amountBase) :: rest =>
      if skip_level price amountBase
      then buy_loop rest remainingQuote baseBought quoteSpent
      else
        let levelQuote := mul price amountBase in
        let takeQuote := min2 remainingQuote levelQuote in
        let takeBase := div takeQuote price in
        let baseBought' := add baseBought takeBase in
        let quoteSpent' := add quoteSpent takeQuote in
        let remainingQuote' := sub remainingQuote takeQuote in
        if le remainingQuote' (Fin (1 # 1000000000))
        then (remainingQuote', baseBought', quoteSpent')
        else buy_loop rest remainingQuote' baseBought' quoteSpent'
  end.

Definition vwapBuyForQuoteAmount (book : OrderBook) (quoteAmount : num)
  : option Fill :=
  let '(remainingQuote, baseBought, quoteSpent) :=
    buy_loop (asks book) quoteAmount (Fin 0) (Fin 0) in
  if le baseBought (Fin 0) || gt remainingQuote (Fin (1 # 1000000))
  then None
  else Some {| fill_executablePrice := div quoteSpent baseBought;
               fill_baseAmount := baseBought |}.

(** The loop of [vwapSellForBaseAmount] over [book.bids]; the state is
    [(remainingBase, baseSold, quoteReceived)]. *)
Fixpoint sell_loop (levels : list OrderBookLevel)
    (remainingBase baseSold quoteReceived : num) : num * num * num :=
  match levels with
  | [] => (remainingBase, baseSold, quoteReceived)
  | (price, amountBase) :: rest =>
      if skip_level price amountBase
      then sell_loop rest remainingBase baseSold quoteReceived
      else
        let takeBase := min2 remainingBase amountBase in
        let baseSold' := add baseSold takeBase in
        let quoteReceived' := add quoteReceived (mul takeBase price) in
        let remainingBase' := sub remainingBase takeBase in
        if le remainingBase' (Fin (1 # 1000000000000))
        then (remainingBase', baseSold', quoteReceived')
        else sell_loop rest remainingBase' baseSold' quoteReceived'
  end.

Definition vwapSellForBaseAmount (book : OrderBook) (baseAmount : num)
  : option Fill :=
  let '(remainingBase, baseSold, quoteReceived) :=
    sell_loop (bids book) baseAmount (Fin 0) (Fin 0) in
  if le baseSold (Fin 0) || gt remainingBase (Fin (1 # 1000000000))
  then None
  else Some {| fill_executablePrice := div quoteReceived baseSold;
               fill_baseAmount := baseSold |}.

(** The slippage expressions of [validateOpportunities]. *)
Definition buySlippageOf (executable bestAskPrice : num) : num :=
  mul (div (sub executable bestAskPrice) bestAskPrice) (Fin 100).

Definition sellSlippageOf (bestBidPrice executable : num) : num :=
  mul (div (sub bestBidPrice executable) bestBidPrice) (Fin 100).

(* ================================================================== *)
(** ** Transferability *)
(* ================================================================== *)

Definition baseFromSymbolUsdt (symbol : string) : string :=
  if endsWith symbol "USDT" then slice_drop_last (String.length "USDT") symbol
  else symbol.

(** [(n.withdrawEnabled ?? false) === true]. *)
Definition enabled (flag : option bool) : bool :=
  match flag with Some b => b | None => false end.

(** [new Map(networks.filter(pick).map((n) => [n.network.toUpperCase(), n]))]. *)
Definition network_map (pick : CurrencyNetworkInfo -> option bool)
    (nets : list CurrencyNetworkInfo) : list (string * CurrencyNetworkInfo) :=
  Map_from
    (map (fun n => (toUpperCase (network n), n))
         (filter (fun n => enabled (pick n)) nets)).

(** The [for (const net of buyWithdraw.keys())] loop. *)
Fixpoint first_common (buyKeys : list string)
    (sellDeposit : list (string * CurrencyNetworkInfo)) : option string :=
  match buyKeys with
  | [] => None
  | net :: rest =>
      if has sellDeposit net then Some net else first_common rest sellDeposit
  end.

(** [!info?.networks?.length]. *)
Definition networks_missing (info : option CurrencyInfo) : bool :=
  match info with
  | Some i =>
      match networks i with
      | Some (_ :: _) => false
      | _ => true
      end
  | None => true
  end.

Definition networks_of (info : option CurrencyInfo) : list CurrencyNetworkInfo :=
  match info with
  | Some i => match networks i with Some l => l | None => [] end
  | None => []
  end.

(** The cache arguments are [None] for [null] and [undefined]. *)
Definition validateTransferabilityFromCache
    (buyCurrencies sellCurrencies : option Currencies)
    (buyEx sellEx : ExchangeConfig) (currency : string) : TransferValidation :=
  match buyCurrencies, sellCurrencies with
  | Some buyC, Some sellC =>
      let buyInfo := lookup buyC (toUpperCase currency) in
      let sellInfo := lookup sellC (toUpperCase currency) in
      if networks_missing buyInfo || networks_missing sellInfo
      then {| transfer_status := unknown;
              transfer_network := None;
              transfer_reason := Some "currency networks missing" |}
      else
        let buyWithdraw := network_map withdrawEnabled (networks_of buyInfo) in
        let sellDeposit := network_map depositEnabled (networks_of sellInfo) in
        match first_common (keys buyWithdraw) sellDeposit with
        | Some net =>
            {| transfer_status := ok;
               transfer_network := Some net;
               transfer_reason := None |}
        | None =>
            {| transfer_status := blocked;
               transfer_network := None;
               transfer_reason :=
                 Some "no common network with withdraw+deposit enabled" |}
        end
  | _, _ =>
      {| transfer_status := unavailable;
         transfer_network := None;
         transfer_reason :=
           Some ("fetchCurrencies not available (public API) on "
                 ++ match buyCurrencies with
                    | None => name buyEx
                    | Some _ => name sellEx
                    end) |}
  end.

(* ================================================================== *)
(** ** The scan ([arbitrageService.ts]) *)
(* ================================================================== *)

Inductive Side : Type :=
| Buy
| Sell.

Definition buildLeg (fees : option ExchangeFees) (exchange : string)
    (price : num) (side : Side) : OpportunityLeg :=
  let taker :=
    match fees with Some f => takerFeePercent f | None => Fin 0 end in
  let transfer :=
    match fees with
    | Some f =>
        match transferFeePercent f with Some t => t | None => Fin 0 end
    | None => Fin 0
    end in
  let totalFeePercent := add taker transfer in
  let multiplier :=
    match side with
    | Buy => add (Fin 1) (div totalFeePercent (Fin 100))
    | Sell => sub (Fin 1) (div totalFeePercent (Fin 100))
    end in
  let effectivePrice := mul price multiplier in
  {| leg_exchange := exchange;
     leg_price := price;
     effectivePrice := effectivePrice;
     feePercentApplied := totalFeePercent |}.

(** The two [reduce] callbacks of [findArbitrage]. *)
Definition pickBuy (best next : OpportunityLeg) : OpportunityLeg :=
  if lt (effectivePrice next) (effectivePrice best) then next else best.

Definition pickSell (best next : OpportunityLeg) : OpportunityLeg :=
  if gt (effectivePrice next) (effectivePrice best) then next else best.

(** The net spread of a leg pair, as [findArbitrage] computes it. *)
Definition netDiffOf (bestBuy bestSell : OpportunityLeg) : num :=
  mul (div (sub (effectivePrice bestSell) (effectivePrice bestBuy))
           (effectivePrice bestBuy))
      (Fin 100).

Section Scan.
(** The module-level [exchanges] array. *)
Variable exchanges : list ExchangeConfig.

(** [new Map(exchanges.map((exchange) => [exchange.name, exchange]))]. *)
Definition exchangeLookup : list (string * ExchangeConfig) :=
  Map_from (map (fun exchange => (name exchange, exchange)) exchanges).

Definition collectPairs : outcome (list (string * list string)) :=
  match Promise_all
          (map (fun exchange =>
                  match getPairs exchange with
                  | Fulfilled pairs => Fulfilled (name exchange, pairs)
                  | Failed => Failed
                  end) exchanges) with
  | Failed => Failed
  | Fulfilled pairsByExchange =>
      Fulfilled
        (fold_left
           (fun map0 '(exchange, pairs) =>
              fold_left
                (fun map1 pair =>
                   let map2 :=
                     if has map1 (pair_symbol pair) then map1
                     else map_set map1 (pair_symbol pair) [] in
                   match lookup map2 (pair_symbol pair) with
                   | Some l =>
                       map_set map2 (pair_symbol pair) (l ++ [exchange])%list
                   | None => map2
                   end)
                pairs map0)
           pairsByExchange [])
  end.

Definition symbolsForExchange (pairMap : list (string * list string))
    (exchange : ExchangeConfig) : list string :=
  map fst
    (filter (fun entry => includes (snd entry) (name exchange)) pairMap).

(** [prices[symbol] ??= {}; prices[symbol][exchange] = price]. *)
Definition set_price (prices : PricesBySymbol) (symbol exchange : string)
    (price : num) : PricesBySymbol :=
  let inner :=
    match lookup prices symbol with Some m => m | None => [] end in
  map_set prices symbol (map_set inner exchange price).

Fixpoint collectPrices_from (exs : list ExchangeConfig)
    (pairMap : list (string * list string)) (prices : PricesBySymbol)
  : outcome PricesBySymbol :=
  match exs with
  | [] => Fulfilled prices
  | exchange :: rest =>
      let symbols := symbolsForExchange pairMap exchange in
      match symbols with
      | [] => collectPrices_from rest pairMap prices
      | _ :: _ =>
          match getPrices exchange symbols with
          | Failed => Failed
          | Fulfilled exchangePrices =>
              collectPrices_from rest pairMap
                (fold_left
                   (fun acc '(symbol, price) =>
                      set_price acc symbol (name exchange) price)
                   exchangePrices prices)
          end
      end
  end.

Definition collectPrices (pairMap : list (string * list string))
  : outcome PricesBySymbol :=
  collectPrices_from exchanges pairMap [].

(** The callback [findArbitrage] maps over [Object.entries(prices)]. *)
Definition findArbitrageEntry (minDiffPercent : num)
    (entry : string * PriceByExchange) : option ArbitrageOpportunity :=
  let '(symbol, exchangePrices) := entry in
  let entries := exchangePrices in
  if (List.length entries <? 2)%nat then None
  else
    let rawPrices := map snd entries in
    let min := min_list rawPrices in
    let max := max_list rawPrices in
    let grossDiff := mul (div (sub max min) min) (Fin 100) in
    let legs side :=
      map (fun '(exchange, price) =>
             buildLeg (option_map fees (lookup exchangeLookup exchange))
                      exchange price side)
          entries in
    match reduce1 pickBuy (legs Buy), reduce1 pickSell (legs Sell) with
    | Some bestBuy, Some bestSell =>
        let netDiff := netDiffOf bestBuy bestSell in
        if lt netDiff minDiffPercent then None
        else
          Some {| opp_symbol := symbol;
                  opp_min := min;
                  opp_max := max;
                  opp_diff := toFixed2 grossDiff;
                  opp_netDiff := toFixed2 netDiff;
                  opp_buy := bestBuy;
                  opp_sell := bestSell;
                  opp_exchanges := exchangePrices;
                  tradeAmountUsd := None;
                  realProfitUsd := None;
                  opp_validation := None |}
    | _, _ => None
    end.

Definition findArbitrage (prices : PricesBySymbol) (minDiffPercent : num)
  : list ArbitrageOpportunity :=
  filter_some (map (findArbitrageEntry minDiffPercent) prices).
End Scan.

(* ================================================================== *)
(** ** Execution validator *)
(* ================================================================== *)

(** [buildLegValidation]: the defined fields, or [undefined] when there is
    none. *)
Definition buildLegValidation (input : OpportunityLegValidation)
  : option OpportunityLegValidation :=
  match bestPrice input, executablePrice input,
        slippagePercent input, volume24hQuote input with
  | None, None, None, None => None
  | _, _, _, _ => Some input
  end.

Definition buildLegValidationOptional
    (partial : option OpportunityLegValidation) (volume24hQuote : option num)
  : option OpportunityLegValidation :=
  buildLegValidation
    {| bestPrice := match partial with Some p => bestPrice p | None => None end;
       executablePrice :=
         match partial with Some p => executablePrice p | None => None end;
       slippagePercent :=
         match partial with Some p => slippagePercent p | None => None end;
       volume24hQuote := volume24hQuote |}.

Definition buildLegValidationRequired (bestPrice executablePrice
    slippagePercent : num) (volume24hQuote : option num)
  : OpportunityLegValidation :=
  {| bestPrice := Some bestPrice;
     executablePrice := Some executablePrice;
     slippagePercent := Some slippagePercent;
     volume24hQuote := volume24hQuote |}.

(** The object literal [{ bestPrice, executablePrice, slippagePercent }]. *)
Definition leg_figures (bestPrice executablePrice slippagePercent : num)
  : OpportunityLegValidation :=
  {| bestPrice := Some bestPrice;
     executablePrice := Some executablePrice;
     slippagePercent := Some slippagePercent;
     volume24hQuote := None |}.

(** [addSymbol]. *)
Definition addSymbol (map0 : list (string * list string))
    (exchangeName symbol : string) : list (string * list string) :=
  match lookup map0 exchangeName with
  | Some set => map_set map0 exchangeName (set_add set symbol)
  | None => map_set map0 exchangeName [symbol]
  end.

(** [safeOrderBook]. *)
Definition safeOrderBook (exchange : ExchangeConfig) (symbol : string)
  : option OrderBook :=
  match getOrderBook exchange with
  | Some fetch =>
      match fetch symbol with
      | Fulfilled (Some book) => Some book
      | _ => None
      end
  | None => None
  end.

(** An order-book request issued during validation: venue and symbol. *)
Abbreviation BookFetch := (string * string)%type (only parsing).

Section Validator.
Variable exchanges : list ExchangeConfig.
Variable env : Env.

Definition attachValidation (opp : ArbitrageOpportunity)
    (status : ValidationStatus) (reasons : list Reason)
    (buyVol sellVol : option num)
    (buy sell : option OpportunityLegValidation)
    (transfer : option TransferValidation) : ArbitrageOpportunity :=
  {| opp_symbol := opp_symbol opp;
     opp_min := opp_min opp;
     opp_max := opp_max opp;
     opp_diff := opp_diff opp;
     opp_netDiff := opp_netDiff opp;
     opp_buy := opp_buy opp;
     opp_sell := opp_sell opp;
     opp_exchanges := opp_exchanges opp;
     tradeAmountUsd := Some (Fin (DEFAULT_TRADE_AMOUNT env));
     realProfitUsd := realProfitUsd opp;
     opp_validation :=
       Some {| validation_status := status;
               validation_reasons := Some reasons;
               validation_buy := buildLegValidationOptional buy buyVol;
               validation_sell := buildLegValidationOptional sell sellVol;
               validation_transfer := transfer |} |}.

(** The ticker pre-fetch: the symbols to request per venue, then one
    request per venue; a failed request caches the empty object. *)
Definition symbolsByExchange (opportunities : list ArbitrageOpportunity)
  : list (string * list string) :=
  fold_left
    (fun map0 opp =>
       let lk := exchangeLookup exchanges in
       let map1 :=
         match lookup lk (leg_exchange (opp_buy opp)) with
         | Some buy =>
             match getTickers24h buy with
             | Some _ => addSymbol map0 (name buy) (opp_symbol opp)
             | None => map0
             end
         | None => map0
         end in
       match lookup lk (leg_exchange (opp_sell opp)) with
       | Some sell =>
           match getTickers24h sell with
           | Some _ => addSymbol map1 (name sell) (opp_symbol opp)
           | None => map1
           end
       | None => map1
       end)
    opportunities [].

Definition tickersCache (opportunities : list ArbitrageOpportunity)
  : list (string * list (string * Ticker24h)) :=
  fold_left
    (fun cache '(exchangeName, symbolsSet) =>
       match lookup (exchangeLookup exchanges) exchangeName with
       | Some ex =>
           match getTickers24h ex with
           | Some fetch =>
               match fetch symbolsSet with
               | Fulfilled tickers => map_set cache exchangeName tickers
               | Failed => map_set cache exchangeName []
               end
           | None => cache
           end
       | None => cache
       end)
    (symbolsByExchange opportunities) [].

(** The currency pre-fetch: one request per venue named by a candidate; a
    failed request caches [null]. *)
Definition exchangesNeedingCurrencies
    (opportunities : list ArbitrageOpportunity) : list string :=
  fold_left
    (fun set opp =>
       set_add (set_add set (leg_exchange (opp_buy opp)))
               (leg_exchange (opp_sell opp)))
    opportunities [].

Definition currenciesCache (opportunities : list ArbitrageOpportunity)
  : list (string * option Currencies) :=
  fold_left
    (fun cache name0 =>
       match lookup (exchangeLookup exchanges) name0 with
       | Some ex =>
           match getCurrencies ex with
           | Some (Fulfilled data) => map_set cache name0 data
           | Some Failed => map_set cache name0 None
           | None => cache
           end
       | None => cache
       end)
    (exchangesNeedingCurrencies opportunities) [].

(** [currenciesCache.get(name)], with [null] and [undefined] merged. *)
Definition cached_currencies (cache : list (string * option Currencies))
    (name0 : string) : option Currencies :=
  match lookup cache name0 with
  | Some (Some data) => Some data
  | _ => None
  end.

(** [tickersCache.get(name)?.[symbol]?.quoteVolume24h]. *)
Definition cached_volume (cache : list (string * list (string * Ticker24h)))
    (name0 symbol : string) : option num :=
  match lookup cache name0 with
  | Some tickers =>
      match lookup tickers symbol with
      | Some t => quoteVolume24h t
      | None => None
      end
  | None => None
  end.

(** The reasons collected before the first return: volume, then
    order-book capability. *)
Definition volume_reasons (buyEx sellEx : ExchangeConfig)
    (buyVol sellVol : option num) : list Reason :=
  (match buyVol with None => [BuyVolumeUnknown (name buyEx)] | Some _ => [] end)
  ++ (match sellVol with None => [SellVolumeUnknown (name sellEx)] | Some _ => [] end)
  ++ (match buyVol with
      | Some v => if lt v (Fin (MIN_24H_VOLUME env)) then [BuyVolumeBelowMin v] else []
      | None => []
      end)
  ++ (match sellVol with
      | Some v => if lt v (Fin (MIN_24H_VOLUME env)) then [SellVolumeBelowMin v] else []
      | None => []
      end).

Definition capability_reasons (buyEx sellEx : ExchangeConfig) : list Reason :=
  (match getOrderBook buyEx with
   | None => [OrderBookUnsupported (name buyEx)]
   | Some _ => []
   end)
  ++ (match getOrderBook sellEx with
      | None => [OrderBookUnsupported (name sellEx)]
      | Some _ => []
      end).

Definition slippage_reasons (buySlippage sellSlippage : num) : list Reason :=
  (if gt buySlippage (Fin (MAX_SLIPPAGE_PERCENT env))
   then [BuySlippageAboveMax buySlippage] else [])
  ++ (if gt sellSlippage (Fin (MAX_SLIPPAGE_PERCENT env))
      then [SellSlippageAboveMax sellSlippage] else []).
End Validator.

Section ValidateOpportunities.
Variable exchanges : list ExchangeConfig.
Variable env : Env.

(** The callback of [opportunities.map] in [validateOpportunities], given
    the two pre-fetched caches.  The first component lists the order-book
    requests the callback issued, in order. *)
Definition validateOne
    (tickers : list (string * list (string * Ticker24h)))
    (currencies : list (string * option Currencies))
    (opp : ArbitrageOpportunity)
  : list BookFetch * option ArbitrageOpportunity :=
  let lk := exchangeLookup exchanges in
  match lookup lk (leg_exchange (opp_buy opp)),
        lookup lk (leg_exchange (opp_sell opp)) with
  | Some buyEx, Some sellEx =>
      let symbol := opp_symbol opp in
      (* 1) Liquidity / 24h volume filter *)
      let buyVol := cached_volume tickers (name buyEx) symbol in
      let sellVol := cached_volume tickers (name sellEx) symbol in
      (* 2) Executable price + slippage (needs order books) *)
      let reasons :=
        (volume_reasons env buyEx sellEx buyVol sellVol
         ++ capability_reasons buyEx sellEx)%list in
      let reject rs buy sell transfer :=
        Some (attachValidation env opp rejected rs buyVol sellVol
                               buy sell transfer) in
      match reasons with
      | _ :: _ => ([], reject reasons None None None)
      | [] =>
      match safeOrderBook buyEx symbol with
      | None =>
          ([(name buyEx, symbol)],
           reject [BuyOrderBookUnavailable (name buyEx)] None None None)
      | Some buyBook =>
      let fetched := [(name buyEx, symbol); (name sellEx, symbol)] in
      match safeOrderBook sellEx symbol with
      | None =>
          (fetched,
           reject [SellOrderBookUnavailable (name sellEx)] None None None)
      | Some sellBook =>
      let bestAsk := option_map fst (hd_error (asks buyBook)) in
      let bestBid := option_map fst (hd_error (bids sellBook)) in
      match bestAsk, bestBid with
      | None, _ | Some NaN, _ | Some PInf, _ | Some NInf, _ =>
          (fetched, reject [BestAskMissing (name buyEx)] None None None)
      | Some (Fin _), None | Some (Fin _), Some NaN
      | Some (Fin _), Some PInf | Some (Fin _), Some NInf =>
          (fetched, reject [BestBidMissing (name sellEx)] None None None)
      | Some (Fin ask), Some (Fin bid) =>
      let bestAskPrice := Fin ask in
      let bestBidPrice := Fin bid in
      match vwapBuyForQuoteAmount buyBook (Fin (DEFAULT_TRADE_AMOUNT env)) with
      | None =>
          (fetched,
           reject [InsufficientBuyDepth (DEFAULT_TRADE_AMOUNT env) (name buyEx)]
                  None None None)
      | Some buyFill =>
      match vwapSellForBaseAmount sellBook (fill_baseAmount buyFill) with
      | None =>
          (fetched,
           reject [InsufficientSellDepth (name sellEx)] None None None)
      | Some sellFill =>
      let buySlippage :=
        buySlippageOf (fill_executablePrice buyFill) bestAskPrice in
      let sellSlippage :=
        sellSlippageOf bestBidPrice (fill_executablePrice sellFill) in
      let buyFigures :=
        leg_figures bestAskPrice (fill_executablePrice buyFill) buySlippage in
      let sellFigures :=
        leg_figures bestBidPrice (fill_executablePrice sellFill) sellSlippage in
      match slippage_reasons env buySlippage sellSlippage with
      | (_ :: _) as rs =>
          (fetched, reject rs (Some buyFigures) (Some sellFigures) None)
      | [] =>
      (* 3) Deposit/Withdraw/Network checks *)
      let base := baseFromSymbolUsdt symbol in
      let transfer :=
        validateTransferabilityFromCache
          (cached_currencies currencies (name buyEx))
          (cached_currencies currencies (name sellEx))
          buyEx sellEx base in
      match transfer_status transfer with
      | unknown | blocked =>
          (fetched,
           reject [TransferCheckFailed (transfer_status transfer)
                                       (transfer_reason transfer)]
                  (Some buyFigures) (Some sellFigures) (Some transfer))
      | ok | unavailable =>
      (* 4) Real profit for DEFAULT_TRADE_AMOUNT *)
      let buyFeePct := feePercentApplied (opp_buy opp) in
      let sellFeePct := feePercentApplied (opp_sell opp) in
      let costWithFees :=
        mul (Fin (DEFAULT_TRADE_AMOUNT env))
            (add (Fin 1) (div buyFeePct (Fin 100))) in
      let proceedsBeforeFees :=
        mul (fill_baseAmount sellFill) (fill_executablePrice sellFill) in
      let proceedsWithFees :=
        mul proceedsBeforeFees (sub (Fin 1) (div sellFeePct (Fin 100))) in
      let realProfit := sub proceedsWithFees costWithFees in
      if lt realProfit (Fin (MIN_REAL_PROFIT_USD env))
      then
        (fetched,
         Some (attachValidation env
                 {| opp_symbol := opp_symbol opp;
                    opp_min := opp_min opp;
                    opp_max := opp_max opp;
                    opp_diff := opp_diff opp;
                    opp_netDiff := opp_netDiff opp;
                    opp_buy := opp_buy opp;
                    opp_sell := opp_sell opp;
                    opp_exchanges := opp_exchanges opp;
                    tradeAmountUsd := Some (Fin (DEFAULT_TRADE_AMOUNT env));
                    realProfitUsd := Some realProfit;
                    opp_validation := opp_validation opp |}
                 rejected [RealProfitBelowMin realProfit] buyVol sellVol
                 (Some buyFigures) (Some sellFigures) (Some transfer)))
      else
        let netDiff := mul (div realProfit costWithFees) (Fin 100) in
        (fetched,
         Some {| opp_symbol := opp_symbol opp;
                 opp_min := opp_min opp;
                 opp_max := opp_max opp;
                 opp_diff := opp_diff opp;
                 opp_netDiff := toFixed2 netDiff;
                 opp_buy := opp_buy opp;
                 opp_sell := opp_sell opp;
                 opp_exchanges := opp_exchanges opp;
                 tradeAmountUsd := Some (Fin (DEFAULT_TRADE_AMOUNT env));
                 realProfitUsd := Some (toFixed2 realProfit);
                 opp_validation :=
                   Some {| validation_status := validated;
                           validation_reasons := None;
                           validation_buy :=
                             Some (buildLegValidationRequired bestAskPrice
                                     (fill_executablePrice buyFill)
                                     buySlippage buyVol);
                           validation_sell :=
                             Some (buildLegValidationRequired bestBidPrice
                                     (fill_executablePrice sellFill)
                                     sellSlippage sellVol);
                           validation_transfer := Some transfer |} |})
      end end end end end end end
      end
  | _, _ => ([], None)
  end.

(** [x.validation?.status === 'validated']. *)
Definition is_validated (x : ArbitrageOpportunity) : bool :=
  match opp_validation x with
  | Some v =>
      match validation_status v with validated => true | rejected => false end
  | None => false
  end.

(** Every candidate with the validation attached, before the final
    filter; [validateOpportunities] keeps the validated ones. *)
Definition validateAll (opportunities : list ArbitrageOpportunity)
  : list (list BookFetch * option ArbitrageOpportunity) :=
  map (validateOne (tickersCache exchanges opportunities)
                   (currenciesCache exchanges opportunities))
      opportunities.

Definition validateOpportunities (opportunities : list ArbitrageOpportunity)
  : list ArbitrageOpportunity :=
  filter is_validated
    (filter_some (map snd (validateAll opportunities))).

Definition getArbitrageOpportunities (minDiffPercent : option num)
  : outcome (list ArbitrageOpportunity) :=
  let threshold :=
    match minDiffPercent with
    | Some x => if isNaN x then DEFAULT_MIN_DIFF_PERCENT env else x
    | None => DEFAULT_MIN_DIFF_PERCENT env
    end in
  match collectPairs exchanges with
  | Failed => Failed
  | Fulfilled pairMap =>
      match collectPrices exchanges pairMap with
      | Failed => Failed
      | Fulfilled prices =>
          let candidates := findArbitrage exchanges prices threshold in
          Fulfilled (validateOpportunities candidates)
      end
  end.
End ValidateOpportunities.

(* ================================================================== *)
(** ** Venue adapters ([exchangeConfigs.ts]): binance, binanceus, mexc *)
(* ================================================================== *)

Record BinanceSymbol : Type := {
  bs_status : string;
  bs_quoteAsset : string;
  bs_baseAsset : string
}.

Record BinancePrice : Type := {
  bp_symbol : string;
  bp_price : string
}.

Record Binance24hTicker : Type := {
  bt_symbol : string;
  bt_lastPrice : string;
  bt_quoteVolume : string
}.

(** A response field that the adapter tests with [Array.isArray]: [None]
    when the payload does not carry an array there. *)
Record BinanceDepthResponse : Type := {
  depth_bids : option (list (string * string));
  depth_asks : option (list (string * string))
}.

(** What the HTTP client returns for each endpoint of a binance-style API:
    [Failed] is a rejected request (network error, timeout, HTTP error). *)
Record BinanceApi : Type := {
  api_exchangeInfo : outcome (option (list BinanceSymbol));
  api_tickerPrice : outcome (option (list BinancePrice));
  api_ticker24hr : outcome (option (list Binance24hTicker));
  api_depth : string -> outcome BinanceDepthResponse
}.

Definition USDT : string := "USDT".

Definition normalizeSymbol (base quote : string) : string :=
  toUpperCase (base ++ quote).

(** [Array.isArray(x) ? x : []]. *)
Definition array_or_empty (A : Type) (x : option (list A)) : list A :=
  match x with Some l => l | None => [] end.

(** [array.sort(cmp)], a stable sort; [after a b] is [cmp(a, b) > 0]. *)
Fixpoint sort_insert (A : Type) (after : A -> A -> bool) (x : A)
    (sorted : list A) : list A :=
  match sorted with
  | [] => [x]
  | y :: r => if after x y then y :: sort_insert after x r else x :: y :: r
  end.

Definition sort_by (A : Type) (after : A -> A -> bool) (l : list A) : list A :=
  fold_right (sort_insert after) [] l.

Section Adapters.
(** [Number(text)] on the strings of a payload. *)
Variable Number : string -> num.
(** The table [readFeeOverrides] returns, [None] for [null]. *)
Variable feeOverrides : option (list (string * ExchangeFees)).

Definition resolveFees (name0 : string) (defaults : ExchangeFees)
  : ExchangeFees :=
  let override :=
    match feeOverrides with
    | Some table => lookup table name0
    | None => None
    end in
  {| takerFeePercent :=
       match override with
       | Some o => takerFeePercent o
       | None => takerFeePercent defaults
       end;
     transferFeePercent :=
       Some match match override with
                  | Some o => transferFeePercent o
                  | None => None
                  end with
            | Some t => t
            | None =>
                match transferFeePercent defaults with
                | Some t => t
                | None => Fin 0
                end
            end |}.

Definition defaultFees : ExchangeFees :=
  {| takerFeePercent := Fin (1 # 10); transferFeePercent := None |}.

Definition pairs_of_symbols (tradingStatus : string)
    (symbols : list BinanceSymbol) : list Pair :=
  map (fun symbol =>
         {| pair_base := bs_baseAsset symbol;
            pair_quote := bs_quoteAsset symbol;
            pair_symbol :=
              normalizeSymbol (bs_baseAsset symbol) (bs_quoteAsset symbol) |})
      (filter (fun symbol =>
                 String.eqb (bs_status symbol) tradingStatus
                 && String.eqb (bs_quoteAsset symbol) USDT)
              symbols).

(** [binance.getPairs] and [binance.getPrices]: no [try]; a rejected
    request rejects the method's promise. *)
Definition binance_getPairs (api : BinanceApi) : outcome (list Pair) :=
  match api_exchangeInfo api with
  | Failed => Failed
  | Fulfilled data =>
      Fulfilled (pairs_of_symbols "TRADING" (array_or_empty data))
  end.

Definition binance_prices (data : option (list BinancePrice))
    (pairs : list string) : list (string * num) :=
  Map_from
    (map (fun price => (bp_symbol price, Number (bp_price price)))
         (filter (fun price => includes pairs (bp_symbol price))
                 (array_or_empty data))).

Definition binance_getPrices (api : BinanceApi) (pairs : list string)
  : outcome (list (string * num)) :=
  match api_tickerPrice api with
  | Failed => Failed
  | Fulfilled data => Fulfilled (binance_prices data pairs)
  end.

Definition binance_getTickers24h (api : BinanceApi) (pairs : list string)
  : outcome (list (string * Ticker24h)) :=
  match api_ticker24hr api with
  | Failed => Failed
  | Fulfilled data =>
      Fulfilled
        (Map_from
           (map (fun t =>
                   (bt_symbol t,
                    {| ticker_last := Some (Number (bt_lastPrice t));
                       quoteVolume24h := Some (Number (bt_quoteVolume t)) |}))
                (filter (fun t => includes pairs (bt_symbol t))
                        (array_or_empty data))))
  end.

Definition book_side (raw : option (list (string * string)))
    (after : OrderBookLevel -> OrderBookLevel -> bool)
  : list OrderBookLevel :=
  sort_by after
    (filter (fun '(p, q) =>
               isFinite p && isFinite q && gt p (Fin 0) && gt q (Fin 0))
            (map (fun '(p, q) => (Number p, Number q))
                 (array_or_empty raw))).

Definition binance_getOrderBook (api : BinanceApi) (symbol : string)
  : outcome (option OrderBook) :=
  match api_depth api symbol with
  | Failed => Failed
  | Fulfilled data =>
      Fulfilled
        (Some {| bids :=
                   book_side (depth_bids data)
                     (fun a b => gt (sub (fst b) (fst a)) (Fin 0));
                 asks :=
                   book_side (depth_asks data)
                     (fun a b => gt (sub (fst a) (fst b)) (Fin 0)) |})
  end.

Definition binance (api : BinanceApi) : ExchangeConfig :=
  {| name := "binance";
     fees := resolveFees "binance" defaultFees;
     getPairs := binance_getPairs api;
     getPrices := binance_getPrices api;
     getTickers24h := Some (binance_getTickers24h api);
     getOrderBook := Some (binance_getOrderBook api);
     getCurrencies := None |}.

(** [binanceUs]: the same requests inside [try]/[catch]; a rejected
    request yields the empty result. *)
Definition binanceUs (api : BinanceApi) : ExchangeConfig :=
  {| name := "binanceus";
     fees := resolveFees "binanceus" defaultFees;
     getPairs :=
       match binance_getPairs api with
       | Failed => Fulfilled []
       | done => done
       end;
     getPrices := fun pairs =>
       match binance_getPrices api pairs with
       | Failed => Fulfilled []
       | done => done
       end;
     getTickers24h := None;
     getOrderBook := None;
     getCurrencies := None |}.

(** [mexc]: no [try] either, but [getPrices] keeps finite prices only. *)
Definition mexc_getPrices (api : BinanceApi) (pairs : list string)
  : outcome (list (string * num)) :=
  match api_tickerPrice api with
  | Failed => Failed
  | Fulfilled data =>
      Fulfilled
        (Map_from
           (filter (fun '(symbol, price) =>
                      includes pairs symbol && isFinite price)
                   (map (fun ticker =>
                           (bp_symbol ticker, Number (bp_price ticker)))
                        (array_or_empty data))))
  end.

Definition mexc (api : BinanceApi) : ExchangeConfig :=
  {| name := "mexc";
     fees := resolveFees "mexc" defaultFees;
     getPairs :=
       match api_exchangeInfo api with
       | Failed => Failed
       | Fulfilled data =>
           Fulfilled (pairs_of_symbols "ENABLED" (array_or_empty data))
       end;
     getPrices := mexc_getPrices api;
     getTickers24h := None;
     getOrderBook := None;
     getCurrencies := None |}.
End Adapters.

(* ================================================================== *)
(** ** Venue symbol formats ([exchangeConfigs.ts]): kucoin, okx *)
(* ================================================================== *)

(** [s.split(sep)] for a one-character separator. *)
Fixpoint split_on (sep : ascii) (s : string) : list string :=
  match s with
  | EmptyString => [EmptyString]
  | String c r =>
      if Ascii.eqb c sep then EmptyString :: split_on sep r
      else
        match split_on sep r with
        | h :: t => String c h :: t
        | [] => [String c EmptyString]
        end
  end.

(** [s.replace(c, '')] for a one-character pattern: the first occurrence
    is removed. *)
Fixpoint remove_first (c : ascii) (s : string) : string :=
  match s with
  | EmptyString => EmptyString
  | String d r => if Ascii.eqb d c then r else String d (remove_first c r)
  end.

(** [!text] on a string that may be [undefined]. *)
Definition blank (text : option string) : bool :=
  match text with
  | Some EmptyString | None => true
  | Some (String _ _) => false
  end.

Definition normalizeSymbolFromKucoin (id : string) : option string :=
  let parts := split_on "-" id in
  let base := nth_error parts 0 in
  let quote := nth_error parts 1 in
  match base, quote with
  | Some b, Some q =>
      if blank base || blank quote then None else Some (normalizeSymbol b q)
  | _, _ => None
  end.

Definition kucoinSymbolFromNormalized (symbol : string) : option string :=
  if negb (endsWith symbol USDT) then None
  else
    let base := slice_drop_last (String.length USDT) symbol in
    if blank (Some base) then None
    else Some (base ++ "-" ++ USDT)%string.

Definition okxInstId (symbol : string) : string :=
  if negb (endsWith symbol USDT) then symbol
  else
    let base := slice_drop_last (String.length USDT) symbol in
    (base ++ "-" ++ USDT)%string.

(** The symbol the okx adapter files a ticker under:
    [ticker.instId.replace('-', '')]. *)
Definition okxSymbolOfInstId (instId : string) : string :=
  remove_first "-" instId.

(* ================================================================== *)
(** ** Notions used to state the properties *)
(* ================================================================== *)

Local Open Scope Q_scope.

(** The tolerances of the two fill loops. *)
Definition buy_break_eps : Q := 1 # 1000000000.
Definition buy_fill_eps : Q := 1 # 1000000.
Definition sell_break_eps : Q := 1 # 1000000000000.
Definition sell_fill_eps : Q := 1 # 1000000000.

(** The levels a fill loop does not skip, as [(price, amount)] pairs of
    positive rationals. *)
Definition usable_level (level : OrderBookLevel) : option (Q * Q) :=
  match level with
  | (Fin p, Fin a) =>
      if Qle_bool p 0 || Qle_bool a 0 then None else Some (p, a)
  | _ => None
  end.

Definition usable_levels (levels : list OrderBookLevel) : list (Q * Q) :=
  filter_some (map usable_level levels).

Definition positive_levels (levels : list (Q * Q)) : Prop :=
  Forall (fun l => 0 < fst l /\ 0 < snd l) levels.

(** Total depth of a side, in quote and in base units. *)
Fixpoint depth_quote (levels : list (Q * Q)) : Q :=
  match levels with
  | [] => 0
  | (p, a) :: r => p * a + depth_quote r
  end.

Fixpoint depth_base (levels : list (Q * Q)) : Q :=
  match levels with
  | [] => 0
  | (_, a) :: r => a + depth_base r
  end.

(** Consuming levels in sequence.  [base_for_quote levels s] is the base
    bought by spending [s] quote units when each level is exhausted before
    the next one is touched; [quote_for_base levels b] is the quote received
    for selling [b] base units in the same manner. *)
Fixpoint base_for_quote (levels : list (Q * Q)) (s : Q) : Q :=
  match levels with
  | [] => 0
  | (p, a) :: r =>
      if Qle_bool s (p * a) then s / p
      else a + base_for_quote r (s - p * a)
  end.

Fixpoint quote_for_base (levels : list (Q * Q)) (b : Q) : Q :=
  match levels with
  | [] => 0
  | (p, a) :: r =>
      if Qle_bool b a then b * p
      else a * p + quote_for_base r (b - a)
  end.

(** The buy loop on usable levels and a finite notional, as the pair
    [(quoteSpent, baseBought)] it adds to its accumulators. *)
Fixpoint buy_run (levels : list (Q * Q)) (remainingQuote : Q) : Q * Q :=
  match levels with
  | [] => (0, 0)
  | (p, a) :: r =>
      let takeQuote := if Qltb (p * a) remainingQuote then p * a
                       else remainingQuote in
      if Qle_bool (remainingQuote - takeQuote) buy_break_eps
      then (takeQuote, takeQuote / p)
      else
        let '(s, b) := buy_run r (remainingQuote - takeQuote) in
        (takeQuote + s, takeQuote / p + b)
  end.

(** The sell loop likewise, as [(baseSold, quoteReceived)]. *)
Fixpoint sell_run (levels : list (Q * Q)) (remainingBase : Q) : Q * Q :=
  match levels with
  | [] => (0, 0)
  | (p, a) :: r =>
      let takeBase := if Qltb a remainingBase then a else remainingBase in
      if Qle_bool (remainingBase - takeBase) sell_break_eps
      then (takeBase, takeBase * p)
      else
        let '(b, s) := sell_run r (remainingBase - takeBase) in
        (takeBase + b, takeBase * p + s)
  end.

(** Asks in ascending price order, every price at least [p0], every price
    and amount positive. *)
Fixpoint ascending_from (p0 : Q) (levels : list (Q * Q)) : Prop :=
  match levels with
  | [] => True
  | (p, a) :: r => p0 <= p /\ 0 < p /\ 0 < a /\ ascending_from p r
  end.

(** The invariant of the data model on the ask side of a book: every level
    finite and strictly positive, prices ascending. *)
Definition asks_well_formed (levels : list OrderBookLevel) : Prop :=
  Forall (fun l => positive_finite (fst l) /\ positive_finite (snd l)) levels
  /\ match usable_levels levels with
     | [] => True
     | (p, _) :: _ => ascending_from p (usable_levels levels)
     end.

(** The levels the guard of the fill loops lets through. *)
Definition keep_level (l : OrderBookLevel) : bool :=
  negb (skip_level (fst l) (snd l)).

(** The claim on a fill result: null, or strictly positive figures. *)
Definition fill_positive (r : option Fill) : Prop :=
  match r with
  | None => True
  | Some f =>
      positive_finite (fill_baseAmount f)
      /\ positive_finite (fill_executablePrice f)
  end.

(** The check a reason belongs to. *)
Inductive Check : Type :=
| LiquidityCheck
| DepthCheck
| TransferCheck
| ProfitCheck.

Definition check_of (r : Reason) : Check :=
  match r with
  | BuyVolumeUnknown _ | SellVolumeUnknown _
  | BuyVolumeBelowMin _ | SellVolumeBelowMin _ => LiquidityCheck
  | OrderBookUnsupported _
  | BuyOrderBookUnavailable _ | SellOrderBookUnavailable _
  | BestAskMissing _ | BestBidMissing _
  | InsufficientBuyDepth _ _ | InsufficientSellDepth _
  | BuySlippageAboveMax _ | SellSlippageAboveMax _ => DepthCheck
  | TransferCheckFailed _ _ => TransferCheck
  | RealProfitBelowMin _ => ProfitCheck
  end.

Definition is_volume_reason (r : Reason) : bool :=
  match check_of r with LiquidityCheck => true | _ => false end.

Definition is_capability_reason (r : Reason) : bool :=
  match r with OrderBookUnsupported _ => true | _ => false end.

(** The status and reasons attached to a candidate. *)
Definition status_of (o : ArbitrageOpportunity) : option ValidationStatus :=
  option_map validation_status (opp_validation o).

Definition reasons_of (o : ArbitrageOpportunity) : list Reason :=
  match opp_validation o with
  | Some v => match validation_reasons v with Some l => l | None => [] end
  | None => []
  end.

Definition transfer_status_of (o : ArbitrageOpportunity)
  : option TransferStatus :=
  match opp_validation o with
  | Some v => option_map transfer_status (validation_transfer v)
  | None => None
  end.

(** The network names (upper-cased, as the check compares them) through
    which a venue allows withdrawal, resp. deposit. *)
Definition withdraw_networks (nets : list CurrencyNetworkInfo) : list string :=
  map (fun n => toUpperCase (network n))
      (filter (fun n => enabled (withdrawEnabled n)) nets).

Definition deposit_networks (nets : list CurrencyNetworkInfo) : list string :=
  map (fun n => toUpperCase (network n))
      (filter (fun n => enabled (depositEnabled n)) nets).

Definition disjoint (A B : list string) : Prop :=
  forall x, In x A -> ~ In x B.





(** The legs [findArbitrage] builds for the venues quoting a symbol. *)
Definition legs_of (exchanges : list ExchangeConfig) (side : Side)
    (entries : PriceByExchange) : list OpportunityLeg :=
  map (fun '(exchange, price) =>
         buildLeg (option_map fees (lookup (exchangeLookup exchanges) exchange))
                  exchange price side)
      entries.

(** Case analysis on the scrutinee of the first [match] in a hypothesis. *)
Ltac split_match H :=
  match type of H with
  | context [match ?x with _ => _ end] =>
      lazymatch x with
      | context [match _ with _ => _ end] => fail
      | _ => let E := fresh "E" in destruct x eqn:E
      end
  end.

(** The real profit of a round trip, as [validateOpportunities] computes
    it from the sell fill and the fee percentages of the two legs. *)
Definition realProfitOf (env : Env) (opp : ArbitrageOpportunity)
    (sellFill : Fill) : num :=
  sub (mul (mul (fill_baseAmount sellFill) (fill_executablePrice sellFill))
           (sub (Fin 1) (div (feePercentApplied (opp_sell opp)) (Fin 100))))
      (mul (Fin (DEFAULT_TRADE_AMOUNT env))
           (add (Fin 1) (div (feePercentApplied (opp_buy opp)) (Fin 100)))).

(** Fees as the data model has them: finite, non-negative percentages. *)
Definition valid_fees (f : ExchangeFees) : Prop :=
  (exists t, takerFeePercent f = Fin t /\ 0 <= t)
  /\ match transferFeePercent f with
     | Some x => exists u, x = Fin u /\ 0 <= u
     | None => True
     end.

(** The threshold [getArbitrageOpportunities] puts in effect. *)
Definition threshold_in_effect (env : Env) (minDiffPercent : option num) : num :=
  match minDiffPercent with
  | Some x => if isNaN x then DEFAULT_MIN_DIFF_PERCENT env else x
  | None => DEFAULT_MIN_DIFF_PERCENT env
  end.

(** Every price of a [PricesBySymbol] table satisfies [P]. *)
Definition prices_all (P : num -> Prop) (prices : PricesBySymbol) : Prop :=
  Forall (fun e => Forall (fun p => P (snd p)) (snd e)) prices.

(** The currency lookup of a venue is unavailable: the capability is
    absent, its request failed, or it answered [null]. *)
Definition currencies_unavailable (ex : ExchangeConfig) : Prop :=
  match getCurrencies ex with
  | Some (Fulfilled (Some _)) => False
  | _ => True
  end.

(** The liquidity check fails: a 24h volume is missing or below the
    minimum on either leg. *)
Definition liquidity_fails (env : Env) (buyVol sellVol : option num) : Prop :=
  buyVol = None \/ sellVol = None
  \/ (exists v, buyVol = Some v /\ lt v (Fin (MIN_24H_VOLUME env)) = true)
  \/ (exists v, sellVol = Some v /\ lt v (Fin (MIN_24H_VOLUME env)) = true).

(** What a rejection by [check] leaves on the candidate: the later checks
    left no trace. *)
Definition rejection_trace (env : Env) (check : Check)
    (opp o : ArbitrageOpportunity) (log : list BookFetch) : Prop :=
  match check with
  | LiquidityCheck => False
  | DepthCheck =>
      transfer_status_of o = None /\ realProfitUsd o = realProfitUsd opp
  | TransferCheck =>
      log <> []
      /\ (transfer_status_of o = Some unknown
          \/ transfer_status_of o = Some blocked)
      /\ realProfitUsd o = realProfitUsd opp
  | ProfitCheck =>
      log <> []
      /\ (transfer_status_of o = Some ok
          \/ transfer_status_of o = Some unavailable)
      /\ exists rp, realProfitUsd o = Some rp
                    /\ lt rp (Fin (MIN_REAL_PROFIT_USD env)) = true
  end.

(** Reading the validation attached to a candidate. *)
Ltac classify_cbn :=
  cbn [status_of reasons_of transfer_status_of attachValidation
       opp_validation validation_reasons validation_transfer
       validation_status option_map realProfitUsd].

(** Bids in descending price order, every price at most [p0], every price
    and amount positive. *)
Fixpoint descending_from (p0 : Q) (levels : list (Q * Q)) : Prop :=
  match levels with
  | [] => True
  | (p, a) :: r => p <= p0 /\ 0 < p /\ 0 < a /\ descending_from p r
  end.

(** The invariant of the data model on the bid side of a book. *)
Definition bids_well_formed (levels : list OrderBookLevel) : Prop :=
  Forall (fun l => positive_finite (fst l) /\ positive_finite (snd l)) levels
  /\ match usable_levels levels with
     | [] => True
     | (p, _) :: _ => descending_from p (usable_levels levels)
     end.

(** [x] belongs to the list filed under [key]: a venue under a symbol in
    the pair map, a symbol under a venue in the ticker batches. *)
Definition filed (m : list (string * list string)) (key x : string) : Prop :=
  exists l, lookup m key = Some l /\ In x l.

(** Price [price] is filed under [symbol] and [exchange] in a price table. *)
Definition quoted (prices : PricesBySymbol) (symbol exchange : string)
    (price : num) : Prop :=
  exists inner, lookup prices symbol = Some inner
                /\ lookup inner exchange = Some price.

(** Venue [ex] reports [symbol] among its pairs. *)
Definition trades (ex : ExchangeConfig) (symbol : string) : Prop :=
  exists pairs, getPairs ex = Fulfilled pairs
                /\ In symbol (map pair_symbol pairs).

(** The character [c] does not occur in [s]. *)
Fixpoint free_of (c : ascii) (s : string) : Prop :=
  match s with
  | EmptyString => True
  | String d r => d <> c /\ free_of c r
  end.

(* ================================================================== *)
(** ** Sample venues and payloads *)
(* ================================================================== *)

(** A network entry with both flags given. *)
Definition sample_network (nm : string) (dep wd : bool) : CurrencyNetworkInfo :=
  {| network := nm; depositEnabled := Some dep; withdrawEnabled := Some wd |}.

(** Network lists of a buy venue and of a sell venue: "btc" can be
    withdrawn on the first and "BTC" deposited on the second. *)
Definition sample_buy_nets : list CurrencyNetworkInfo :=
  [sample_network "btc" true true; sample_network "erc20" true false].

Definition sample_sell_nets : list CurrencyNetworkInfo :=
  [sample_network "BEP20" true true; sample_network "BTC" true false].

(** An API none of whose endpoints answers. *)
Definition sample_silent_api : BinanceApi :=
  {| api_exchangeInfo := Failed;
     api_tickerPrice := Failed;
     api_ticker24hr := Failed;
     api_depth := fun _ => Failed |}.

(** A venue quoting the one symbol XUSDT at [price], with a deep book at
    that price, a large 24h volume, a taker fee of 0.1% and the given
    currency capability. *)
Definition sample_venue (name0 : string) (price : Q)
    (currencies : option (outcome (option (list (string * CurrencyInfo)))))
  : ExchangeConfig :=
  {| name := name0;
     fees := {| takerFeePercent := Fin (1 # 10);
                transferFeePercent := Some (Fin 0) |};
     getPairs :=
       Fulfilled [{| pair_base := "X";
                     pair_quote := "USDT";
                     pair_symbol := "XUSDT" |}];
     getPrices := fun _ => Fulfilled [("XUSDT", Fin price)];
     getTickers24h :=
       Some (fun _ =>
               Fulfilled [("XUSDT",
                           {| ticker_last := Some (Fin price);
                              quoteVolume24h := Some (Fin 1000000) |})]);
     getOrderBook :=
       Some (fun _ =>
               Fulfilled (Some {| bids := [(Fin price, Fin 1000)];
                                  asks := [(Fin price, Fin 1000)] |}));
     getCurrencies := currencies |}.

(** Two venues, XUSDT at 1 and at 1.2; the first has no [getCurrencies],
    the second one that fails. *)
Definition sample_exchanges : list ExchangeConfig :=
  [sample_venue "alpha" 1 None; sample_venue "beta" (12 # 10) (Some Failed)].

(** The candidate the detector finds on [sample_exchanges]: buy on alpha,
    sell on beta. *)
Definition sample_candidate : ArbitrageOpportunity :=
  {| opp_symbol := "XUSDT";
     opp_min := Fin 1;
     opp_max := Fin 1.2;
     opp_diff := Fin 20.00;
     opp_netDiff := Fin 19.76;
     opp_buy := {| leg_exchange := "alpha";
                   leg_price := Fin 1;
                   effectivePrice := Fin 1.001;
                   feePercentApplied := Fin 0.1 |};
     opp_sell := {| leg_exchange := "beta";
                    leg_price := Fin 1.2;
                    effectivePrice := Fin 1.1988;
                    feePercentApplied := Fin 0.1 |};
     opp_exchanges := [("alpha", Fin 1); ("beta", Fin 1.2)];
     tradeAmountUsd := None;
     realProfitUsd := None;
     opp_validation := None |}.

(** What the validator makes of [sample_candidate] with every constant at
    its default: 100 quote units buy 100 X at 1 and sell at 1.2, for a real
    profit of 119.88 - 100.1 = 19.78. *)
Definition sample_opportunity : ArbitrageOpportunity :=
  {| opp_symbol := "XUSDT";
     opp_min := Fin 1;
     opp_max := Fin 1.2;
     opp_diff := Fin 20.00;
     opp_netDiff := Fin 19.76;
     opp_buy := {| leg_exchange := "alpha";
                   leg_price := Fin 1;
                   effectivePrice := Fin 1.001;
                   feePercentApplied := Fin 0.1 |};
     opp_sell := {| leg_exchange := "beta";
                    leg_price := Fin 1.2;
                    effectivePrice := Fin 1.1988;
                    feePercentApplied := Fin 0.1 |};
     opp_exchanges := [("alpha", Fin 1); ("beta", Fin 1.2)];
     tradeAmountUsd := Some (Fin 100);
     realProfitUsd := Some (Fin 19.78);
     opp_validation :=
       Some {| validation_status := validated;
               validation_reasons := None;
               validation_buy :=
                 Some {| bestPrice := Some (Fin 1);
                         executablePrice := Some (Fin 1.00);
                         slippagePercent := Some (Fin 0.00);
                         volume24hQuote := Some (Fin 1000000) |};
               validation_sell :=
                 Some {| bestPrice := Some (Fin 1.2);
                         executablePrice := Some (Fin 1.200);
                         slippagePercent := Some (Fin (0 # 120000));
                         volume24hQuote := Some (Fin 1000000) |};
               validation_transfer :=
                 Some {| transfer_status := unavailable;
                         transfer_network := None;
                         transfer_reason :=
                           Some "fetchCurrencies not available (public API) on alpha" |} |} |}.

(** What the scan returns on [sample_exchanges]. *)
Definition sample_scan : list ArbitrageOpportunity := [sample_opportunity].

(** [Number(text)] on the two price strings of the sample payloads. *)
Definition sample_Number (text : string) : num :=
  if String.eqb text "1" then Fin 1
  else if String.eqb text "1.2" then Fin (12 # 10)
  else NaN.

(** A binance-style API listing XUSDT under [status] at price [price];
    the 24h-ticker and depth endpoints do not answer. *)
Definition sample_api (status price : string) : BinanceApi :=
  {| api_exchangeInfo :=
       Fulfilled (Some [{| bs_status := status;
                           bs_quoteAsset := "USDT";
                           bs_baseAsset := "X" |}]);
     api_tickerPrice :=
       Fulfilled (Some [{| bp_symbol := "XUSDT"; bp_price := price |}]);
     api_ticker24hr := Failed;
     api_depth := fun _ => Failed |}.

(** Two venues that offer neither 24h tickers nor order books. *)
Definition sample_plain_exchanges : list ExchangeConfig :=
  [binanceUs sample_Number None (sample_api "TRADING" "1");
   mexc sample_Number None (sample_api "ENABLED" "1.2")].

(** The candidate the detector finds on [sample_plain_exchanges]. *)
Definition sample_plain_candidate : ArbitrageOpportunity :=
  {| opp_symbol := "XUSDT";
     opp_min := Fin 1;
     opp_max := Fin 1.2;
     opp_diff := Fin 20.00;
     opp_netDiff := Fin 19.76;
     opp_buy := {| leg_exchange := "binanceus";
                   leg_price := Fin 1;
                   effectivePrice := Fin 1.001;
                   feePercentApplied := Fin 0.1 |};
     opp_sell := {| leg_exchange := "mexc";
                    leg_price := Fin 1.2;
                    effectivePrice := Fin 1.1988;
                    feePercentApplied := Fin 0.1 |};
     opp_exchanges := [("binanceus", Fin 1); ("mexc", Fin 1.2)];
     tradeAmountUsd := None;
     realProfitUsd := None;
     opp_validation := None |}.

(* ================================================================== *)
(** * Properties *)
(* ================================================================== *)

Unset Implicit Arguments.

(** ** Arithmetic of the number model *)

Lemma Qltb_true (a b : Q) : Qltb a b = true <-> a < b.
Proof.
  unfold Qltb. rewrite negb_true_iff.
  split; intro H.
  - apply Qnot_le_lt. intro Hle. apply Qle_bool_iff in Hle. congruence.
  - destruct (Qle_bool b a) eqn:E; [|reflexivity].
    apply Qle_bool_iff in E. exfalso. apply (Qlt_not_le _ _ H E).
Qed.

Lemma Qltb_false (a b : Q) : Qltb a b = false <-> b <= a.
Proof.
  unfold Qltb. rewrite negb_false_iff. apply Qle_bool_iff.
Qed.

Lemma Qle_bool_false (a b : Q) : Qle_bool a b = false <-> b < a.
Proof.
  split; intro H.
  - apply Qnot_le_lt. intro Hle. apply Qle_bool_iff in Hle. congruence.
  - destruct (Qle_bool a b) eqn:E; [|reflexivity].
    apply Qle_bool_iff in E. exfalso. apply (Qlt_not_le _ _ H E).
Qed.

Lemma Qeq_bool_false_of_pos (b : Q) : 0 < b -> Qeq_bool b 0 = false.
Proof.
  intro H. destruct (Qeq_bool b 0) eqn:E; [|reflexivity].
  apply Qeq_bool_iff in E. rewrite E in H. exfalso. apply (Qlt_irrefl _ H).
Qed.

(** ** Fill loops and their runs on usable levels *)

Lemma skip_level_usable (p a : num) :
  skip_level p a = true -> usable_level (p, a) = None.
Proof.
  unfold skip_level, usable_level.
  destruct p as [| | |pq]; try reflexivity.
  destruct a as [| | |aq]; try reflexivity.
  simpl. intro H. rewrite H. reflexivity.
Qed.

Lemma keep_level_usable (p a : num) :
  skip_level p a = false ->
  exists pq aq, p = Fin pq /\ a = Fin aq /\ 0 < pq /\ 0 < aq
                /\ usable_level (p, a) = Some (pq, aq).
Proof.
  unfold skip_level, usable_level.
  destruct p as [| | |pq]; try discriminate.
  destruct a as [| | |aq]; try discriminate.
  simpl. intro H. rewrite H.
  apply orb_false_iff in H. destruct H as [Hp Ha].
  apply Qle_bool_false in Hp. apply Qle_bool_false in Ha.
  exists pq, aq. repeat split; assumption.
Qed.

Lemma usable_levels_skip p a rest :
  skip_level p a = true -> usable_levels ((p, a) :: rest) = usable_levels rest.
Proof.
  intro H. unfold usable_levels.
  change (map usable_level ((p, a) :: rest))
    with (usable_level (p, a) :: map usable_level rest).
  rewrite (skip_level_usable _ _ H). reflexivity.
Qed.

Lemma usable_levels_keep p a rest :
  skip_level p a = false ->
  exists pq aq, p = Fin pq /\ a = Fin aq /\ 0 < pq /\ 0 < aq
    /\ usable_levels ((p, a) :: rest) = (pq, aq) :: usable_levels rest.
Proof.
  intro H. destruct (keep_level_usable _ _ H) as (pq & aq & Hp & Ha & Hpp & Hap & Hu).
  exists pq, aq. repeat split; try assumption.
  unfold usable_levels.
  change (map usable_level ((p, a) :: rest))
    with (usable_level (p, a) :: map usable_level rest).
  rewrite Hu. reflexivity.
Qed.

Lemma min2_fin (a b : Q) :
  min2 (Fin a) (Fin b) = Fin (if Qltb b a then b else a).
Proof. unfold min2, lt. destruct (Qltb b a); reflexivity. Qed.

Lemma div_fin (a b : Q) : 0 < b -> div (Fin a) (Fin b) = Fin (a / b).
Proof. intro H. unfold div. rewrite (Qeq_bool_false_of_pos _ H). reflexivity. Qed.

Lemma buy_loop_run (levels : list OrderBookLevel) :
  forall rem b s,
  exists rem' b' s',
    buy_loop levels (Fin rem) (Fin b) (Fin s) = (Fin rem', Fin b', Fin s')
    /\ rem' == rem - fst (buy_run (usable_levels levels) rem)
    /\ b' == b + snd (buy_run (usable_levels levels) rem)
    /\ s' == s + fst (buy_run (usable_levels levels) rem).
Proof.
  induction levels as [|[p a] rest IH]; intros rem b s.
  - exists rem, b, s. simpl. repeat split; ring.
  - destruct (skip_level p a) eqn:Hskip.
    + rewrite (usable_levels_skip _ _ rest Hskip).
      cbn [buy_loop]. rewrite Hskip. apply IH.
    + destruct (usable_levels_keep _ _ rest Hskip)
        as (pq & aq & Ep & Ea & Hp & Ha & Hu).
      rewrite Hu. subst p a.
      cbn [buy_loop]. rewrite Hskip.
      cbn [mul]. rewrite min2_fin, (div_fin _ _ Hp).
      cbn [add sub neg le buy_run].
      set (t := if Qltb (pq * aq) rem then pq * aq else rem).
      change (rem + - t) with (rem - t).
      change (1 # 1000000000) with buy_break_eps.
      destruct (Qle_bool (rem - t) buy_break_eps) eqn:Hb.
      * eexists _, _, _. split; [reflexivity|]. cbn [fst snd].
        repeat split; ring.
      * destruct (IH (rem - t) (b + t / pq) (s + t))
          as (rem' & b' & s' & Heq & Hr & Hb' & Hs').
        exists rem', b', s'. split; [exact Heq|].
        destruct (buy_run (usable_levels rest) (rem - t)) as [sp ba].
        cbn [fst snd] in *. rewrite Hr, Hb', Hs'. repeat split; ring.
Qed.

(** ** The buy loop on usable levels *)

Lemma Qdiv_pos (a b : Q) : 0 < a -> 0 < b -> 0 < a / b.
Proof.
  intros Ha Hb. unfold Qdiv. apply Qmult_lt_0_compat; [exact Ha|].
  apply Qinv_lt_0_compat. exact Hb.
Qed.


Lemma Qmul_div_cancel (a b : Q) : 0 < b -> b * a / b == a.
Proof. intro Hb. field. intro E. rewrite E in Hb. apply (Qlt_irrefl _ Hb). Qed.

Lemma buy_run_within (p a : Q) r q :
  q <= p * a -> buy_run ((p, a) :: r) q = (q, q / p).
Proof.
  intro H. cbn [buy_run].
  apply Qltb_false in H. rewrite H.
  replace (Qle_bool (q - q) buy_break_eps) with true; [reflexivity|].
  symmetry. apply Qle_bool_iff. unfold buy_break_eps. lra.
Qed.

Lemma buy_run_break (p a : Q) r q :
  p * a < q -> q - p * a <= buy_break_eps ->
  buy_run ((p, a) :: r) q = (p * a, p * a / p).
Proof.
  intros H1 H2. cbn [buy_run].
  apply Qltb_true in H1. rewrite H1.
  apply Qle_bool_iff in H2. rewrite H2. reflexivity.
Qed.

Lemma buy_run_next (p a : Q) r q :
  buy_break_eps < q - p * a ->
  buy_run ((p, a) :: r) q =
  (p * a + fst (buy_run r (q - p * a)), p * a / p + snd (buy_run r (q - p * a))).
Proof.
  intros H. cbn [buy_run].
  assert (H1 : p * a < q) by (unfold buy_break_eps in H; lra).
  apply Qltb_true in H1. rewrite H1.
  apply Qle_bool_false in H. rewrite H.
  destruct (buy_run r (q - p * a)); reflexivity.
Qed.

(** The three ways the loop can leave a level. *)
Lemma buy_run_cases (p a : Q) r q :
  (q <= p * a /\ buy_run ((p, a) :: r) q = (q, q / p))
  \/ (p * a < q /\ q - p * a <= buy_break_eps
      /\ buy_run ((p, a) :: r) q = (p * a, p * a / p))
  \/ (buy_break_eps < q - p * a
      /\ buy_run ((p, a) :: r) q =
         (p * a + fst (buy_run r (q - p * a)),
          p * a / p + snd (buy_run r (q - p * a)))).
Proof.
  destruct (Qlt_le_dec (p * a) q) as [H1|H1].
  - destruct (Qlt_le_dec buy_break_eps (q - p * a)) as [H2|H2].
    + right; right. split; [exact H2|]. apply buy_run_next; exact H2.
    + right; left. repeat split; try assumption. apply buy_run_break; assumption.
  - left. split; [exact H1|]. apply buy_run_within; exact H1.
Qed.

Lemma buy_run_nonpos levels q :
  positive_levels levels -> q <= 0 -> snd (buy_run levels q) <= 0.
Proof.
  intros Hpos Hq. destruct levels as [|[p a] r].
  - simpl. lra.
  - inversion Hpos as [|x l [Hp Ha] Hr]; subst. cbn [fst snd] in *.
    assert (HL : 0 < p * a) by (apply Qmult_lt_0_compat; assumption).
    rewrite buy_run_within by lra. cbn [snd].
    unfold Qdiv. setoid_replace 0 with (0 * / p) by ring.
    apply Qmult_le_compat_r; [exact Hq|].
    apply Qlt_le_weak, Qinv_lt_0_compat, Hp.
Qed.

Lemma base_for_quote_comp levels :
  forall s s', s == s' -> base_for_quote levels s == base_for_quote levels s'.
Proof.
  induction levels as [|[p a] r IH]; intros s s' E; cbn [base_for_quote].
  - reflexivity.
  - rewrite (Qleb_comp _ _ E (p * a) (p * a) (Qeq_refl _)).
    destruct (Qle_bool s' (p * a)).
    + rewrite E. reflexivity.
    + rewrite (IH (s - p * a) (s' - p * a)); [reflexivity|]. rewrite E. reflexivity.
Qed.

Lemma depth_quote_nonneg levels :
  positive_levels levels -> 0 <= depth_quote levels.
Proof.
  induction 1 as [|[p a] l [Hp Ha] _ IH]; simpl; [lra|].
  cbn [fst snd] in *.
  assert (0 < p * a) by (apply Qmult_lt_0_compat; assumption). lra.
Qed.

Lemma buy_run_spec levels :
  forall q, positive_levels levels -> 0 < q ->
  let s := fst (buy_run levels q) in
  let b := snd (buy_run levels q) in
  0 <= s /\ s <= q /\ 0 <= b
  /\ (levels <> [] -> 0 < s /\ 0 < b)
  /\ s <= depth_quote levels
  /\ (q - s <= buy_break_eps \/ s == depth_quote levels)
  /\ b == base_for_quote levels s.
Proof.
  induction levels as [|[p a] r IH]; intros q Hpos Hq.
  - simpl. repeat split; try lra; try congruence.
  - inversion Hpos as [|x l [Hp Ha] Hr]; subst. cbn [fst snd] in Hp, Ha.
    assert (HL : 0 < p * a) by (apply Qmult_lt_0_compat; assumption).
    pose proof (depth_quote_nonneg _ Hr) as Hd.
    destruct (buy_run_cases p a r q) as [[H1 E]|[(H1 & H2 & E)|[H1 E]]];
      rewrite E; cbn [fst snd depth_quote base_for_quote]; clear E.
    + assert (Hb : 0 < q / p) by (apply Qdiv_pos; assumption).
      apply Qle_bool_iff in H1 as H1'. rewrite H1'.
      assert (D : q - q <= buy_break_eps \/ q == p * a + depth_quote r)
        by (left; unfold buy_break_eps; lra).
      repeat split; try lra; try exact D.
    + assert (Hb : 0 < p * a / p) by (apply Qdiv_pos; assumption).
      rewrite (proj2 (Qle_bool_iff (p * a) (p * a))) by lra.
      assert (D : q - p * a <= buy_break_eps
                  \/ p * a == p * a + depth_quote r) by (left; lra).
      repeat split; try lra; try exact D.
    + assert (Hq' : 0 < q - p * a) by (unfold buy_break_eps in H1; lra).
      destruct (IH (q - p * a) Hr Hq') as (I1 & I2 & I3 & I4 & I5 & I6 & I7).
      set (s := fst (buy_run r (q - p * a))) in *.
      set (b := snd (buy_run r (q - p * a))) in *.
      assert (Hb : 0 < p * a / p) by (apply Qdiv_pos; assumption).
      assert (Ha' : p * a / p == a) by (apply Qmul_div_cancel; exact Hp).
      assert (D : q - (p * a + s) <= buy_break_eps
                  \/ p * a + s == p * a + depth_quote r).
      { destruct I6 as [I6|I6]; [left; lra|right; rewrite I6; reflexivity]. }
      assert (B : p * a / p + b ==
                  (if Qle_bool (p * a + s) (p * a) then (p * a + s) / p
                   else a + base_for_quote r (p * a + s - p * a))).
      { destruct (Qle_bool (p * a + s) (p * a)) eqn:Hle.
        - apply Qle_bool_iff in Hle.
          assert (Hs0 : s == 0) by lra.
          destruct r as [|l0 r0].
          + subst b. simpl. rewrite Hs0. field. lra.
          + exfalso. destruct I4 as [I4 _]; [congruence|]. lra.
        - rewrite Ha'. rewrite I7.
          rewrite (base_for_quote_comp r (p * a + s - p * a) s);
            [reflexivity|ring]. }
      repeat split; try lra; try exact D; try exact B.
Qed.

Lemma usable_levels_positive levels : positive_levels (usable_levels levels).
Proof.
  induction levels as [|[p a] r IH]; [constructor|].
  destruct (skip_level p a) eqn:Hs.
  - rewrite (usable_levels_skip _ _ r Hs). exact IH.
  - destruct (usable_levels_keep _ _ r Hs) as (pq & aq & _ & _ & Hp & Ha & Hu).
    rewrite Hu. constructor; [split; assumption|exact IH].
Qed.

(** [vwapBuyForQuoteAmount] on a finite notional, through [buy_run]. *)
Lemma vwapBuy_fin book q :
  exists rem' b' s',
    rem' == q - fst (buy_run (usable_levels (asks book)) q)
    /\ b' == snd (buy_run (usable_levels (asks book)) q)
    /\ s' == fst (buy_run (usable_levels (asks book)) q)
    /\ vwapBuyForQuoteAmount book (Fin q) =
       if Qle_bool b' 0 || Qltb buy_fill_eps rem' then None
       else Some {| fill_executablePrice := div (Fin s') (Fin b');
                    fill_baseAmount := Fin b' |}.
Proof.
  destruct (buy_loop_run (asks book) q 0 0) as (rem' & b' & s' & E & Hr & Hb & Hs).
  exists rem', b', s'. repeat split.
  - exact Hr.
  - rewrite Hb. ring.
  - rewrite Hs. ring.
  - unfold vwapBuyForQuoteAmount. rewrite E. reflexivity.
Qed.

Lemma vwapBuy_some book q r :
  vwapBuyForQuoteAmount book (Fin q) = Some r ->
  exists s b,
    r = {| fill_executablePrice := Fin (s / b); fill_baseAmount := Fin b |}
    /\ s == fst (buy_run (usable_levels (asks book)) q)
    /\ b == snd (buy_run (usable_levels (asks book)) q)
    /\ 0 < q /\ 0 < s /\ 0 < b /\ q - s <= buy_fill_eps.
Proof.
  destruct (vwapBuy_fin book q) as (rem' & b' & s' & Hr & Hb & Hs & E).
  rewrite E. clear E.
  destruct (Qle_bool b' 0) eqn:Hb0; [discriminate|].
  destruct (Qltb buy_fill_eps rem') eqn:Hrem; [discriminate|].
  apply Qle_bool_false in Hb0. apply Qltb_false in Hrem.
  cbn [orb]. rewrite (div_fin s' _ Hb0). intro H. injection H as <-.
  pose proof (usable_levels_positive (asks book)) as Hpos.
  destruct (Qlt_le_dec 0 q) as [Hq|Hq].
  - destruct (buy_run_spec _ _ Hpos Hq) as (I1 & I2 & I3 & I4 & I5 & I6 & I7).
    assert (Hne : usable_levels (asks book) <> []).
    { intro Hnil. rewrite Hnil in Hb. simpl in Hb. lra. }
    destruct (I4 Hne) as [I4s I4b].
    exists s', b'.
    repeat split; try assumption; lra.
  - exfalso. pose proof (buy_run_nonpos _ _ Hpos Hq). lra.
Qed.

Lemma vwapBuy_none book q :
  vwapBuyForQuoteAmount book (Fin q) = None <->
  (snd (buy_run (usable_levels (asks book)) q) <= 0
   \/ buy_fill_eps < q - fst (buy_run (usable_levels (asks book)) q)).
Proof.
  destruct (vwapBuy_fin book q) as (rem' & b' & s' & Hr & Hb & Hs & E).
  rewrite E. clear E. rewrite <- Hb, <- Hr.
  destruct (Qle_bool b' 0) eqn:Hb0; cbn [orb].
  - apply Qle_bool_iff in Hb0. tauto.
  - apply Qle_bool_false in Hb0.
    destruct (Qltb buy_fill_eps rem') eqn:Hrem.
    + apply Qltb_true in Hrem. tauto.
    + apply Qltb_false in Hrem. split; [discriminate|].
      intros [H|H]; exfalso; lra.
Qed.

(** ** The sell loop on usable levels *)

Lemma sell_loop_run (levels : list OrderBookLevel) :
  forall rem b s,
  exists rem' b' s',
    sell_loop levels (Fin rem) (Fin b) (Fin s) = (Fin rem', Fin b', Fin s')
    /\ rem' == rem - fst (sell_run (usable_levels levels) rem)
    /\ b' == b + fst (sell_run (usable_levels levels) rem)
    /\ s' == s + snd (sell_run (usable_levels levels) rem).
Proof.
  induction levels as [|[p a] rest IH]; intros rem b s.
  - exists rem, b, s. simpl. repeat split; ring.
  - destruct (skip_level p a) eqn:Hskip.
    + rewrite (usable_levels_skip _ _ rest Hskip).
      cbn [sell_loop]. rewrite Hskip. apply IH.
    + destruct (usable_levels_keep _ _ rest Hskip)
        as (pq & aq & Ep & Ea & Hp & Ha & Hu).
      rewrite Hu. subst p a.
      cbn [sell_loop]. rewrite Hskip.
      rewrite min2_fin.
      cbn [add sub neg le mul sell_run].
      set (t := if Qltb aq rem then aq else rem).
      change (rem + - t) with (rem - t).
      change (1 # 1000000000000) with sell_break_eps.
      destruct (Qle_bool (rem - t) sell_break_eps) eqn:Hb.
      * eexists _, _, _. split; [reflexivity|]. cbn [fst snd].
        repeat split; ring.
      * destruct (IH (rem - t) (b + t) (s + t * pq))
          as (rem' & b' & s' & Heq & Hr & Hb' & Hs').
        exists rem', b', s'. split; [exact Heq|].
        destruct (sell_run (usable_levels rest) (rem - t)) as [ba sp].
        cbn [fst snd] in *. rewrite Hr, Hb', Hs'. repeat split; ring.
Qed.

Lemma sell_run_cases (p a : Q) r q :
  (q <= a /\ sell_run ((p, a) :: r) q = (q, q * p))
  \/ (a < q /\ q - a <= sell_break_eps
      /\ sell_run ((p, a) :: r) q = (a, a * p))
  \/ (sell_break_eps < q - a
      /\ sell_run ((p, a) :: r) q =
         (a + fst (sell_run r (q - a)), a * p + snd (sell_run r (q - a)))).
Proof.
  cbn [sell_run].
  destruct (Qlt_le_dec a q) as [H1|H1].
  - rewrite (proj2 (Qltb_true a q) H1).
    destruct (Qlt_le_dec sell_break_eps (q - a)) as [H2|H2].
    + right; right. split; [exact H2|].
      rewrite (proj2 (Qle_bool_false _ _) H2).
      destruct (sell_run r (q - a)); reflexivity.
    + right; left. repeat split; try assumption.
      rewrite (proj2 (Qle_bool_iff _ _) H2). reflexivity.
  - left. split; [exact H1|].
    rewrite (proj2 (Qltb_false a q) H1).
    replace (Qle_bool (q - q) sell_break_eps) with true; [reflexivity|].
    symmetry. apply Qle_bool_iff. unfold sell_break_eps. lra.
Qed.

Lemma sell_run_nonpos levels q :
  positive_levels levels -> q <= 0 -> fst (sell_run levels q) <= 0.
Proof.
  intros Hpos Hq. destruct levels as [|[p a] r].
  - simpl. lra.
  - inversion Hpos as [|x l [Hp Ha] Hr]; subst. cbn [fst snd] in *.
    destruct (sell_run_cases p a r q) as [[H1 E]|[(H1 & H2 & E)|[H1 E]]];
      rewrite E; cbn [fst]; unfold sell_break_eps in *; lra.
Qed.

Lemma depth_base_nonneg levels :
  positive_levels levels -> 0 <= depth_base levels.
Proof.
  induction 1 as [|[p a] l [Hp Ha] _ IH]; simpl; [lra|].
  cbn [fst snd] in *. lra.
Qed.

Lemma quote_for_base_comp levels :
  forall b b', b == b' -> quote_for_base levels b == quote_for_base levels b'.
Proof.
  induction levels as [|[p a] r IH]; intros s s' E; cbn [quote_for_base].
  - reflexivity.
  - rewrite (Qleb_comp _ _ E a a (Qeq_refl _)).
    destruct (Qle_bool s' a).
    + rewrite E. reflexivity.
    + rewrite (IH (s - a) (s' - a)); [reflexivity|]. rewrite E. reflexivity.
Qed.

Lemma sell_run_spec levels :
  forall q, positive_levels levels -> 0 < q ->
  let b := fst (sell_run levels q) in
  let s := snd (sell_run levels q) in
  0 <= b /\ b <= q /\ 0 <= s
  /\ (levels <> [] -> 0 < b /\ 0 < s)
  /\ b <= depth_base levels
  /\ (q - b <= sell_break_eps \/ b == depth_base levels)
  /\ s == quote_for_base levels b.
Proof.
  induction levels as [|[p a] r IH]; intros q Hpos Hq.
  - simpl. repeat split; try lra; try congruence.
  - inversion Hpos as [|x l [Hp Ha] Hr]; subst. cbn [fst snd] in Hp, Ha.
    pose proof (depth_base_nonneg _ Hr) as Hd.
    destruct (sell_run_cases p a r q) as [[H1 E]|[(H1 & H2 & E)|[H1 E]]];
      rewrite E; cbn [fst snd depth_base quote_for_base]; clear E.
    + assert (Hs : 0 < q * p) by (apply Qmult_lt_0_compat; assumption).
      apply Qle_bool_iff in H1 as H1'. rewrite H1'.
      assert (D : q - q <= sell_break_eps \/ q == a + depth_base r)
        by (left; unfold sell_break_eps; lra).
      repeat split; try lra; try exact D.
    + assert (Hs : 0 < a * p) by (apply Qmult_lt_0_compat; assumption).
      rewrite (proj2 (Qle_bool_iff a a)) by lra.
      assert (D : q - a <= sell_break_eps \/ a == a + depth_base r)
        by (left; lra).
      repeat split; try lra; try exact D.
    + assert (Hq' : 0 < q - a) by (unfold sell_break_eps in H1; lra).
      destruct (IH (q - a) Hr Hq') as (I1 & I2 & I3 & I4 & I5 & I6 & I7).
      set (b := fst (sell_run r (q - a))) in *.
      set (s := snd (sell_run r (q - a))) in *.
      assert (Hs : 0 < a * p) by (apply Qmult_lt_0_compat; assumption).
      assert (D : q - (a + b) <= sell_break_eps
                  \/ a + b == a + depth_base r).
      { destruct I6 as [I6|I6]; [left; lra|right; rewrite I6; reflexivity]. }
      assert (B : a * p + s ==
                  (if Qle_bool (a + b) a then (a + b) * p
                   else a * p + quote_for_base r (a + b - a))).
      { destruct (Qle_bool (a + b) a) eqn:Hle.
        - apply Qle_bool_iff in Hle.
          assert (Hb0 : b == 0) by lra.
          destruct r as [|l0 r0].
          + subst s. simpl. rewrite Hb0. ring.
          + exfalso. destruct I4 as [I4 _]; [congruence|]. lra.
        - rewrite I7.
          rewrite (quote_for_base_comp r (a + b - a) b);
            [reflexivity|ring]. }
      repeat split; try lra; try exact D; try exact B.
Qed.

Lemma vwapSell_fin book q :
  exists rem' b' s',
    rem' == q - fst (sell_run (usable_levels (bids book)) q)
    /\ b' == fst (sell_run (usable_levels (bids book)) q)
    /\ s' == snd (sell_run (usable_levels (bids book)) q)
    /\ vwapSellForBaseAmount book (Fin q) =
       if Qle_bool b' 0 || Qltb sell_fill_eps rem' then None
       else Some {| fill_executablePrice := div (Fin s') (Fin b');
                    fill_baseAmount := Fin b' |}.
Proof.
  destruct (sell_loop_run (bids book) q 0 0) as (rem' & b' & s' & E & Hr & Hb & Hs).
  exists rem', b', s'. repeat split.
  - exact Hr.
  - rewrite Hb. ring.
  - rewrite Hs. ring.
  - unfold vwapSellForBaseAmount. rewrite E. reflexivity.
Qed.

Lemma vwapSell_some book q r :
  vwapSellForBaseAmount book (Fin q) = Some r ->
  exists s b,
    r = {| fill_executablePrice := Fin (s / b); fill_baseAmount := Fin b |}
    /\ b == fst (sell_run (usable_levels (bids book)) q)
    /\ s == snd (sell_run (usable_levels (bids book)) q)
    /\ 0 < q /\ 0 < s /\ 0 < b /\ q - b <= sell_fill_eps.
Proof.
  destruct (vwapSell_fin book q) as (rem' & b' & s' & Hr & Hb & Hs & E).
  rewrite E. clear E.
  destruct (Qle_bool b' 0) eqn:Hb0; [discriminate|].
  destruct (Qltb sell_fill_eps rem') eqn:Hrem; [discriminate|].
  apply Qle_bool_false in Hb0. apply Qltb_false in Hrem.
  cbn [orb]. rewrite (div_fin s' _ Hb0). intro H. injection H as <-.
  pose proof (usable_levels_positive (bids book)) as Hpos.
  destruct (Qlt_le_dec 0 q) as [Hq|Hq].
  - destruct (sell_run_spec _ _ Hpos Hq) as (I1 & I2 & I3 & I4 & I5 & I6 & I7).
    assert (Hne : usable_levels (bids book) <> []).
    { intro Hnil. rewrite Hnil in Hb. simpl in Hb. lra. }
    destruct (I4 Hne) as [I4s I4b].
    exists s', b'.
    repeat split; try assumption; lra.
  - exfalso. pose proof (sell_run_nonpos _ _ Hpos Hq). lra.
Qed.

Lemma vwapSell_none book q :
  vwapSellForBaseAmount book (Fin q) = None <->
  (fst (sell_run (usable_levels (bids book)) q) <= 0
   \/ sell_fill_eps < q - fst (sell_run (usable_levels (bids book)) q)).
Proof.
  destruct (vwapSell_fin book q) as (rem' & b' & s' & Hr & Hb & Hs & E).
  rewrite E. clear E. rewrite <- Hr, <- Hb.
  destruct (Qle_bool b' 0) eqn:Hb0; cbn [orb].
  - apply Qle_bool_iff in Hb0. tauto.
  - apply Qle_bool_false in Hb0.
    destruct (Qltb sell_fill_eps rem') eqn:Hrem.
    + apply Qltb_true in Hrem. tauto.
    + apply Qltb_false in Hrem. split; [discriminate|].
      intros [H|H]; exfalso; lra.
Qed.

(** ** Average and marginal price on an ascending ask side *)






(** ** Skipped levels *)

Lemma buy_loop_filter levels :
  forall r b s,
  buy_loop levels r b s = buy_loop (filter keep_level levels) r b s.
Proof.
  induction levels as [|[p a] rest IH]; intros r b s; [reflexivity|].
  cbn [filter]. unfold keep_level at 1. cbn [fst snd].
  destruct (skip_level p a) eqn:Hs; cbn [negb buy_loop]; rewrite Hs.
  - apply IH.
  - destruct (le _ _); [reflexivity|apply IH].
Qed.

Lemma sell_loop_filter levels :
  forall r b s,
  sell_loop levels r b s = sell_loop (filter keep_level levels) r b s.
Proof.
  induction levels as [|[p a] rest IH]; intros r b s; [reflexivity|].
  cbn [filter]. unfold keep_level at 1. cbn [fst snd].
  destruct (skip_level p a) eqn:Hs; cbn [negb sell_loop]; rewrite Hs.
  - apply IH.
  - destruct (le _ _); [reflexivity|apply IH].
Qed.

Lemma vwapBuy_positive book x :
  fill_positive (vwapBuyForQuoteAmount book (Fin x)).
Proof.
  destruct (vwapBuyForQuoteAmount book (Fin x)) as [r|] eqn:E; [|exact I].
  destruct (vwapBuy_some _ _ _ E) as (s & b & -> & _ & _ & _ & Hs & Hb & _).
  split; cbn; [exact Hb|apply Qdiv_pos; assumption].
Qed.

Lemma vwapSell_positive book x :
  fill_positive (vwapSellForBaseAmount book (Fin x)).
Proof.
  destruct (vwapSellForBaseAmount book (Fin x)) as [r|] eqn:E; [|exact I].
  destruct (vwapSell_some _ _ _ E) as (s & b & -> & _ & _ & _ & Hs & Hb & _).
  split; cbn; [exact Hb|apply Qdiv_pos; assumption].
Qed.



(** ** What the two simulations return *)

Lemma vwapBuy_insufficient book q :
  depth_quote (usable_levels (asks book)) + buy_fill_eps < q ->
  vwapBuyForQuoteAmount book (Fin q) = None.
Proof.
  intro H. apply vwapBuy_none. right.
  pose proof (usable_levels_positive (asks book)) as Hpos.
  pose proof (depth_quote_nonneg _ Hpos) as Hd.
  assert (Hq : 0 < q) by (unfold buy_fill_eps in H; lra).
  destruct (buy_run_spec _ _ Hpos Hq) as (_ & _ & _ & _ & I5 & _). lra.
Qed.

Lemma vwapBuy_sufficient book q :
  0 < q -> q <= depth_quote (usable_levels (asks book)) ->
  vwapBuyForQuoteAmount book (Fin q) <> None.
Proof.
  intros Hq H E. apply vwapBuy_none in E.
  pose proof (usable_levels_positive (asks book)) as Hpos.
  destruct (buy_run_spec _ _ Hpos Hq) as (_ & _ & _ & I4 & _ & I6 & _).
  assert (Hne : usable_levels (asks book) <> []).
  { intro Hnil. rewrite Hnil in H. simpl in H. lra. }
  destruct (I4 Hne) as [_ Hb].
  unfold buy_fill_eps, buy_break_eps in *.
  destruct E as [E|E]; [lra|]. destruct I6 as [I6|I6]; lra.
Qed.

Lemma vwapBuy_filled book q buyFill :
  vwapBuyForQuoteAmount book (Fin q) = Some buyFill ->
  exists spent bought,
    buyFill = {| fill_executablePrice := Fin (spent / bought);
                 fill_baseAmount := Fin bought |}
    /\ 0 < bought /\ 0 < spent
    /\ spent <= q /\ q - buy_fill_eps <= spent
    /\ (q <= depth_quote (usable_levels (asks book)) ->
        q - buy_break_eps <= spent)
    /\ bought == base_for_quote (usable_levels (asks book)) spent.
Proof.
  intro E.
  destruct (vwapBuy_some _ _ _ E) as (s & b & -> & Hs & Hb & Hq & Hs0 & Hb0 & Hr).
  pose proof (usable_levels_positive (asks book)) as Hpos.
  destruct (buy_run_spec _ _ Hpos Hq) as (_ & I2 & _ & _ & _ & I6 & I7).
  exists s, b. split; [reflexivity|].
  repeat split; try assumption; try lra.
  - intro Hd. unfold buy_break_eps in *. destruct I6 as [I6|I6]; lra.
  - rewrite Hb, I7. apply base_for_quote_comp. symmetry. exact Hs.
Qed.

Lemma vwapSell_insufficient book q :
  depth_base (usable_levels (bids book)) + sell_fill_eps < q ->
  vwapSellForBaseAmount book (Fin q) = None.
Proof.
  intro H. apply vwapSell_none. right.
  pose proof (usable_levels_positive (bids book)) as Hpos.
  pose proof (depth_base_nonneg _ Hpos) as Hd.
  assert (Hq : 0 < q) by (unfold sell_fill_eps in H; lra).
  destruct (sell_run_spec _ _ Hpos Hq) as (_ & _ & _ & _ & I5 & _). lra.
Qed.

Lemma vwapSell_sufficient book q :
  0 < q -> q <= depth_base (usable_levels (bids book)) ->
  vwapSellForBaseAmount book (Fin q) <> None.
Proof.
  intros Hq H E. apply vwapSell_none in E.
  pose proof (usable_levels_positive (bids book)) as Hpos.
  destruct (sell_run_spec _ _ Hpos Hq) as (_ & _ & _ & I4 & _ & I6 & _).
  assert (Hne : usable_levels (bids book) <> []).
  { intro Hnil. rewrite Hnil in H. simpl in H. lra. }
  destruct (I4 Hne) as [Hb _].
  unfold sell_fill_eps, sell_break_eps in *.
  destruct E as [E|E]; [lra|]. destruct I6 as [I6|I6]; lra.
Qed.

Lemma vwapSell_filled book q sellFill :
  vwapSellForBaseAmount book (Fin q) = Some sellFill ->
  exists received sold,
    sellFill = {| fill_executablePrice := Fin (received / sold);
                  fill_baseAmount := Fin sold |}
    /\ 0 < sold /\ 0 < received
    /\ sold <= q /\ q - sell_fill_eps <= sold
    /\ (q <= depth_base (usable_levels (bids book)) ->
        q - sell_break_eps <= sold)
    /\ received == quote_for_base (usable_levels (bids book)) sold.
Proof.
  intro E.
  destruct (vwapSell_some _ _ _ E) as (s & b & -> & Hb & Hs & Hq & Hs0 & Hb0 & Hr).
  pose proof (usable_levels_positive (bids book)) as Hpos.
  destruct (sell_run_spec _ _ Hpos Hq) as (_ & I2 & _ & _ & _ & I6 & I7).
  exists s, b. split; [reflexivity|].
  repeat split; try assumption; try lra.
  - intro Hd. unfold sell_break_eps in *. destruct I6 as [I6|I6]; lra.
  - rewrite Hs, I7. apply quote_for_base_comp. symmetry. exact Hb.
Qed.

(** C4: the buy simulation consumes the ask levels in sequence until the
    notional is filled and returns the volume-weighted average price (quote
    spent over base bought) with the base bought, and null when the ask
    depth cannot fill the notional; the sell simulation sells the base
    amount of the buy fill against the bid levels in sequence, and returns
    null when the bid depth is insufficient.  "Filled" and "insufficient"
    are up to the tolerances of the source: 1e-6 quote units and 1e-9 base
    units at the final test, 1e-9 and 1e-12 at the loop exit. *)
Theorem fill_simulation_consumes_levels_in_sequence
    (buyBook sellBook : OrderBook) (notional : Q) :
  let askLevels := usable_levels (asks buyBook) in
  let bidLevels := usable_levels (bids sellBook) in
  (depth_quote askLevels + buy_fill_eps < notional ->
   vwapBuyForQuoteAmount buyBook (Fin notional) = None)
  /\ (0 < notional -> notional <= depth_quote askLevels ->
      vwapBuyForQuoteAmount buyBook (Fin notional) <> None)
  /\ (forall buyFill,
        vwapBuyForQuoteAmount buyBook (Fin notional) = Some buyFill ->
        exists spent bought,
          buyFill = {| fill_executablePrice := Fin (spent / bought);
                       fill_baseAmount := Fin bought |}
          /\ 0 < bought /\ 0 < spent
          /\ spent <= notional /\ notional - buy_fill_eps <= spent
          /\ (notional <= depth_quote askLevels ->
              notional - buy_break_eps <= spent)
          /\ bought == base_for_quote askLevels spent
          /\ (depth_base bidLevels + sell_fill_eps < bought ->
              vwapSellForBaseAmount sellBook (fill_baseAmount buyFill) = None)
          /\ (bought <= depth_base bidLevels ->
              vwapSellForBaseAmount sellBook (fill_baseAmount buyFill) <> None)
          /\ (forall sellFill,
                vwapSellForBaseAmount sellBook (fill_baseAmount buyFill)
                = Some sellFill ->
                exists received sold,
                  sellFill = {| fill_executablePrice := Fin (received / sold);
                                fill_baseAmount := Fin sold |}
                  /\ 0 < sold /\ 0 < received
                  /\ sold <= bought /\ bought - sell_fill_eps <= sold
                  /\ (bought <= depth_base bidLevels ->
                      bought - sell_break_eps <= sold)
                  /\ received == quote_for_base bidLevels sold)).
Proof.
  intros askLevels bidLevels.
  split; [apply vwapBuy_insufficient|].
  split; [apply vwapBuy_sufficient|].
  intros buyFill E.
  destruct (vwapBuy_filled _ _ _ E)
    as (spent & bought & -> & Hb & Hs & H1 & H2 & H3 & H4).
  exists spent, bought. cbn [fill_baseAmount].
  split; [reflexivity|].
  repeat (split; [assumption|]).
  split; [apply vwapSell_insufficient|].
  split; [apply vwapSell_sufficient; exact Hb|].
  intros sellFill E'. apply vwapSell_filled. exact E'.
Qed.

(** A book with two usable ask levels and one malformed level: a notional
    of 100 takes 60 quote units at price 2 and 40 at price 4. *)
Example fill_simulation_consumes_levels_in_sequence_example :
  vwapBuyForQuoteAmount
    {| bids := [];
       asks := [(Fin 2, Fin 30); (NaN, Fin 1); (Fin 4, Fin 100)] |} (Fin 100)
  = Some {| fill_executablePrice := Fin ((0 + 60 + 40) / (0 + 60 / 2 + 40 / 4));
            fill_baseAmount := Fin (0 + 60 / 2 + 40 / 4) |}
  /\ vwapSellForBaseAmount
       {| bids := [(Fin 5, Fin 10); (Fin 4, Fin 10)]; asks := [] |} (Fin 40)
     = None.
Proof. split; vm_compute; reflexivity. Qed.

(** ** Slippage against the notional *)

Lemma ratio_le (s1 b1 s2 b2 : Q) :
  0 < b1 -> 0 < b2 -> s1 * b2 <= s2 * b1 -> s1 / b1 <= s2 / b2.
Proof.
  intros H1 H2 H.
  apply Qle_shift_div_l; [exact H2|].
  apply Qle_shift_div_r in H; [|exact H1].
  setoid_replace (s1 / b1 * b2) with (s1 * b2 / b1) by (field; lra).
  exact H.
Qed.





(** ** Keyed stores *)

Lemma lookup_in_keys {V} (m : list (string * V)) k :
  (exists v, lookup m k = Some v) <-> In k (keys m).
Proof.
  induction m as [|[k' v'] r IH]; cbn [lookup keys map fst].
  - split; [intros [v H]; discriminate|intros []].
  - destruct (String.eqb k k') eqn:E.
    + apply String.eqb_eq in E. subst. split; [left; reflexivity|eauto].
    + apply String.eqb_neq in E. rewrite IH. unfold keys. split.
      * right; assumption.
      * intros [H|H]; [congruence|assumption].
Qed.

Lemma has_in_keys {V} (m : list (string * V)) k :
  has m k = true <-> In k (keys m).
Proof.
  rewrite <- lookup_in_keys. unfold has.
  destruct (lookup m k) as [v|]; split; intro H.
  - eauto.
  - reflexivity.
  - discriminate.
  - destruct H as [v H]. discriminate.
Qed.

Lemma keys_map_set {V} (m : list (string * V)) k v x :
  In x (keys (map_set m k v)) <-> In x (keys m) \/ x = k.
Proof.
  induction m as [|[k' v'] r IH]; cbn [map_set keys map fst].
  - split; [intros [H|[]]; right; congruence|intros [[]|H]; left; congruence].
  - destruct (String.eqb k k') eqn:E; cbn [map fst].
    + apply String.eqb_eq in E. subst. simpl. intuition (subst; auto).
    + unfold keys in IH. simpl. rewrite IH. tauto.
Qed.

Lemma keys_fold_map_set {V} (entries : list (string * V)) :
  forall m x,
  In x (keys (fold_left (fun m kv => map_set m (fst kv) (snd kv)) entries m))
  <-> In x (keys m) \/ In x (map fst entries).
Proof.
  induction entries as [|[k v] r IH]; intros m x; cbn [fold_left map fst snd].
  - simpl. tauto.
  - rewrite IH, keys_map_set. simpl. intuition (subst; auto).
Qed.

Lemma keys_Map_from {V} (entries : list (string * V)) x :
  In x (keys (Map_from entries)) <-> In x (map fst entries).
Proof.
  unfold Map_from. rewrite keys_fold_map_set. simpl. tauto.
Qed.

(** ** Transferability *)

Lemma keys_network_map pick nets x :
  In x (keys (network_map pick nets))
  <-> In x (map (fun n => toUpperCase (network n))
                (filter (fun n => enabled (pick n)) nets)).
Proof.
  unfold network_map. rewrite keys_Map_from, map_map. cbn [fst]. tauto.
Qed.

Lemma first_common_some buyKeys sellDeposit net :
  first_common buyKeys sellDeposit = Some net ->
  In net buyKeys /\ In net (keys sellDeposit).
Proof.
  induction buyKeys as [|k r IH]; cbn [first_common]; [discriminate|].
  destruct (has sellDeposit k) eqn:E.
  - intro H. injection H as <-. split; [left; reflexivity|].
    apply has_in_keys. exact E.
  - intro H. destruct (IH H). split; [right|]; assumption.
Qed.

Lemma first_common_none buyKeys sellDeposit :
  first_common buyKeys sellDeposit = None ->
  forall x, In x buyKeys -> ~ In x (keys sellDeposit).
Proof.
  induction buyKeys as [|k r IH]; cbn [first_common]; [intros _ x []|].
  destruct (has sellDeposit k) eqn:E; [discriminate|].
  intros H x [<-|Hx] Hin.
  - apply has_in_keys in Hin. congruence.
  - exact (IH H x Hx Hin).
Qed.

(** C9: when both venues publish the base asset with a non-empty network
    list, the transferability check answers [blocked] exactly when no
    network name (compared in upper case) is both withdraw-enabled on the
    buy venue and deposit-enabled on the sell venue, and otherwise answers
    [ok] with a network that is withdraw-enabled on the buy venue and
    deposit-enabled on the sell venue. *)
Theorem transferability_blocked_iff_disjoint
    (buyCurrencies sellCurrencies : Currencies) (buyEx sellEx : ExchangeConfig)
    (currency : string) (buyInfo sellInfo : CurrencyInfo)
    (buyNets sellNets : list CurrencyNetworkInfo) :
  lookup buyCurrencies (toUpperCase currency) = Some buyInfo ->
  lookup sellCurrencies (toUpperCase currency) = Some sellInfo ->
  networks buyInfo = Some buyNets -> buyNets <> [] ->
  networks sellInfo = Some sellNets -> sellNets <> [] ->
  let transfer :=
    validateTransferabilityFromCache (Some buyCurrencies) (Some sellCurrencies)
                                     buyEx sellEx currency in
  let W := withdraw_networks buyNets in
  let D := deposit_networks sellNets in
  (transfer_status transfer = blocked <-> disjoint W D)
  /\ (~ disjoint W D ->
      transfer_status transfer = ok
      /\ exists net, transfer_network transfer = Some net
                     /\ In net W /\ In net D).
Proof.
  intros Hb Hs Hbn Hbne Hsn Hsne transfer W D.
  subst transfer. unfold validateTransferabilityFromCache.
  rewrite Hb, Hs. unfold networks_missing, networks_of. rewrite Hbn, Hsn.
  destruct buyNets as [|bn0 bns]; [congruence|].
  destruct sellNets as [|sn0 sns]; [congruence|].
  cbn [orb].
  destruct (first_common _ _) as [net|] eqn:E; cbn [transfer_status transfer_network].
  - apply first_common_some in E. destruct E as [E1 E2].
    apply keys_network_map in E1. apply keys_network_map in E2.
    assert (Hnd : ~ disjoint W D).
    { intro Hd. exact (Hd net E1 E2). }
    split; [split; [discriminate|contradiction]|].
    intros _. split; [reflexivity|]. exists net. auto.
  - assert (Hd : disjoint W D).
    { intros x Hx Hx'.
      apply (first_common_none _ _ E x).
      - apply keys_network_map. exact Hx.
      - apply keys_network_map. exact Hx'. }
    split; [tauto|]. intro Hn. contradiction.
Qed.

(** Withdrawal of "btc" on the buy venue meets deposit of "BTC" on the sell
    venue. *)
Lemma transferability_blocked_iff_disjoint_witness :
  transfer_status
    (validateTransferabilityFromCache
       (Some [("BTC", {| code := "BTC"; networks := Some sample_buy_nets |})])
       (Some [("BTC", {| code := "BTC"; networks := Some sample_sell_nets |})])
       (binanceUs (fun _ => NaN) None sample_silent_api)
       (binanceUs (fun _ => NaN) None sample_silent_api)
       "btc") = ok.
Proof.
  apply (transferability_blocked_iff_disjoint
           [("BTC", {| code := "BTC"; networks := Some sample_buy_nets |})]
           [("BTC", {| code := "BTC"; networks := Some sample_sell_nets |})]
           (binanceUs (fun _ => NaN) None sample_silent_api)
           (binanceUs (fun _ => NaN) None sample_silent_api)
           "btc"
           {| code := "BTC"; networks := Some sample_buy_nets |}
           {| code := "BTC"; networks := Some sample_sell_nets |}
           sample_buy_nets sample_sell_nets).
  - reflexivity.
  - reflexivity.
  - reflexivity.
  - discriminate.
  - reflexivity.
  - discriminate.
  - intro H. apply (H "BTC"); vm_compute; auto.
Defined.

(** ** Order on finite numbers *)

Lemma lt_fin a b : lt (Fin a) (Fin b) = true <-> a < b.
Proof. apply Qltb_true. Qed.

Lemma lt_fin_false a b : lt (Fin a) (Fin b) = false <-> b <= a.
Proof. apply Qltb_false. Qed.

Lemma le_fin a b : le (Fin a) (Fin b) = true <-> a <= b.
Proof. apply Qle_bool_iff. Qed.


(** ** Leg selection *)





(** ** Venue lookup and leg construction *)

Lemma lookup_map_set {V} (m : list (string * V)) k v k' :
  lookup (map_set m k v) k' = if String.eqb k' k then Some v else lookup m k'.
Proof.
  induction m as [|[k0 v0] r IH]; cbn [map_set lookup].
  - reflexivity.
  - destruct (String.eqb k k0) eqn:E; cbn [lookup].
    + apply String.eqb_eq in E. subst k0.
      destruct (String.eqb k' k); reflexivity.
    + destruct (String.eqb k' k0) eqn:E0.
      * apply String.eqb_eq in E0. subst k0.
        rewrite String.eqb_sym in E. rewrite E. reflexivity.
      * exact IH.
Qed.

Lemma lookup_fold_map_set {V} (P : V -> Prop) (entries : list (string * V)) :
  forall m,
  (forall k v, lookup m k = Some v -> P v) ->
  Forall (fun e => P (snd e)) entries ->
  forall k v,
  lookup (fold_left (fun m kv => map_set m (fst kv) (snd kv)) entries m) k
  = Some v -> P v.
Proof.
  induction entries as [|[k0 v0] r IH]; intros m Hm Hall k v; cbn [fold_left].
  - apply Hm.
  - inversion Hall as [|? ? H0 Hr]; subst. cbn [fst snd] in *.
    apply IH; [|exact Hr].
    intros k1 v1. rewrite lookup_map_set.
    destruct (String.eqb k1 k0); [intro E; injection E as <-; exact H0|apply Hm].
Qed.

Lemma exchangeLookup_in exchanges k ex :
  lookup (exchangeLookup exchanges) k = Some ex -> In ex exchanges.
Proof.
  unfold exchangeLookup, Map_from.
  apply (lookup_fold_map_set (fun e => In e exchanges)).
  - intros k0 v0 H. discriminate.
  - rewrite Forall_map. apply Forall_forall. intros x Hx. exact Hx.
Qed.

Lemma lookup_fold_map_set_keyed {V} (P : string -> V -> Prop)
    (entries : list (string * V)) :
  forall m,
  (forall k v, lookup m k = Some v -> P k v) ->
  Forall (fun e => P (fst e) (snd e)) entries ->
  forall k v,
  lookup (fold_left (fun m kv => map_set m (fst kv) (snd kv)) entries m) k
  = Some v -> P k v.
Proof.
  induction entries as [|[k0 v0] r IH]; intros m Hm Hall k v; cbn [fold_left].
  - apply Hm.
  - inversion Hall as [|? ? H0 Hr]; subst. cbn [fst snd] in *.
    apply IH; [|exact Hr].
    intros k1 v1. rewrite lookup_map_set.
    destruct (String.eqb k1 k0) eqn:E; [|apply Hm].
    apply String.eqb_eq in E. subst k1. intro Ev. injection Ev as <-. exact H0.
Qed.

Lemma exchangeLookup_name exchanges k ex :
  lookup (exchangeLookup exchanges) k = Some ex -> name ex = k.
Proof.
  unfold exchangeLookup, Map_from.
  apply (lookup_fold_map_set_keyed (fun k v => name v = k)).
  - intros k0 v0 H. discriminate.
  - rewrite Forall_map. apply Forall_forall. intros x _. reflexivity.
Qed.


Lemma div_100_finite x : isFinite x = true -> isFinite (div x (Fin 100)) = true.
Proof. destruct x; try discriminate; reflexivity. Qed.





(** A symbol with fewer than two quotes is never emitted. *)
Lemma single_quote_never_emitted exchanges minDiffPercent symbol entries :
  (List.length entries < 2)%nat ->
  findArbitrageEntry exchanges minDiffPercent (symbol, entries) = None.
Proof.
  intro H. unfold findArbitrageEntry.
  apply Nat.ltb_lt in H. rewrite H. reflexivity.
Qed.

(** Quotes of 100 and 101 on two venues with a taker fee of 0.1%: the gross
    diff is 1.00% and the net diff 0.80%, buying on the first venue. *)
Example spread_of_100_and_101 :
  option_map
    (fun o => (opp_diff o, opp_netDiff o,
               leg_exchange (opp_buy o), leg_exchange (opp_sell o)))
    (findArbitrageEntry [sample_venue "X" 100 None; sample_venue "Y" 101 None]
       (Fin 0.5) ("BTCUSDT", [("X", Fin 100); ("Y", Fin 101)]))
  = Some (Fin 1.00, Fin 0.80, "X", "Y").
Proof. vm_compute. reflexivity. Qed.

(** ** What a validated candidate went through *)

Lemma validateOne_validated exchanges env tickers currencies opp log o :
  validateOne exchanges env tickers currencies opp = (log, Some o) ->
  is_validated o = true ->
  exists buyEx sellEx buyBook sellBook buyFill sellFill,
    lookup (exchangeLookup exchanges) (leg_exchange (opp_buy opp)) = Some buyEx
    /\ lookup (exchangeLookup exchanges) (leg_exchange (opp_sell opp)) = Some sellEx
    /\ safeOrderBook buyEx (opp_symbol opp) = Some buyBook
    /\ safeOrderBook sellEx (opp_symbol opp) = Some sellBook
    /\ vwapBuyForQuoteAmount buyBook (Fin (DEFAULT_TRADE_AMOUNT env)) = Some buyFill
    /\ vwapSellForBaseAmount sellBook (fill_baseAmount buyFill) = Some sellFill
    /\ lt (realProfitOf env opp sellFill) (Fin (MIN_REAL_PROFIT_USD env)) = false
    /\ realProfitUsd o = Some (toFixed2 (realProfitOf env opp sellFill))
    /\ opp_buy o = opp_buy opp /\ opp_sell o = opp_sell opp
    /\ opp_symbol o = opp_symbol opp
    /\ transfer_status_of o
       = Some (transfer_status
                 (validateTransferabilityFromCache
                    (cached_currencies currencies (name buyEx))
                    (cached_currencies currencies (name sellEx))
                    buyEx sellEx (baseFromSymbolUsdt (opp_symbol opp)))).
Proof.
  unfold validateOne. intros H Hv.
  repeat (split_match H;
          try (injection H as <- <-; cbn in Hv; discriminate);
          try discriminate).
  all: injection H as <- <-; cbn in Hv |- *.
  all: try discriminate.
  all: do 6 eexists; repeat split; try eassumption; try reflexivity.
Qed.

(** ** Membership in the results of the scan *)

Lemma filter_some_In {A} (l : list (option A)) a :
  In a (filter_some l) <-> In (Some a) l.
Proof.
  induction l as [|[x|] r IH]; cbn [filter_some In].
  - tauto.
  - rewrite IH. split; intros [H|H]; auto; left; congruence.
  - rewrite IH. split; [auto|]. intros [H|H]; [discriminate|assumption].
Qed.

Lemma validateOpportunities_In exchanges env candidates o :
  In o (validateOpportunities exchanges env candidates) ->
  exists c log,
    In c candidates
    /\ validateOne exchanges env (tickersCache exchanges candidates)
         (currenciesCache exchanges candidates) c = (log, Some o)
    /\ is_validated o = true.
Proof.
  unfold validateOpportunities, validateAll. intro H.
  apply filter_In in H. destruct H as [H Hv].
  apply filter_some_In in H. rewrite map_map in H.
  apply in_map_iff in H. destruct H as (c & E & Hc).
  destruct (validateOne _ _ _ _ c) as [log r] eqn:Ev. cbn [snd] in E. subst r.
  exists c, log. auto.
Qed.

Lemma findArbitrage_In exchanges prices minDiffPercent c :
  In c (findArbitrage exchanges prices minDiffPercent) ->
  exists entry,
    In entry prices /\ findArbitrageEntry exchanges minDiffPercent entry = Some c.
Proof.
  unfold findArbitrage. intro H. apply filter_some_In in H.
  apply in_map_iff in H. destruct H as (entry & E & Hin). eauto.
Qed.

(** ** Prices gathered from the venues *)

Lemma Forall_map_set {V} (P : V -> Prop) (m : list (string * V)) k v :
  Forall (fun e => P (snd e)) m -> P v ->
  Forall (fun e => P (snd e)) (map_set m k v).
Proof.
  induction m as [|[k0 v0] r IH]; intros Hm Hv; cbn [map_set].
  - constructor; [exact Hv|constructor].
  - inversion Hm as [|? ? H0 Hr]; subst.
    destruct (String.eqb k k0); constructor; auto.
Qed.

Lemma lookup_Forall {V} (P : V -> Prop) (m : list (string * V)) k v :
  Forall (fun e => P (snd e)) m -> lookup m k = Some v -> P v.
Proof.
  induction m as [|[k0 v0] r IH]; intros Hm; cbn [lookup]; [discriminate|].
  inversion Hm as [|? ? H0 Hr]; subst.
  destruct (String.eqb k k0); [intro E; injection E as <-; exact H0|auto].
Qed.

Lemma set_price_all P prices symbol exchange price :
  prices_all P prices -> P price ->
  prices_all P (set_price prices symbol exchange price).
Proof.
  intros Hp Hv. unfold set_price, prices_all.
  apply (Forall_map_set (fun inner => Forall (fun p => P (snd p)) inner));
    [exact Hp|].
  apply Forall_map_set; [|exact Hv].
  destruct (lookup prices symbol) as [inner|] eqn:E; [|constructor].
  exact (lookup_Forall (fun inner => Forall (fun p => P (snd p)) inner)
           prices symbol inner Hp E).
Qed.

Lemma collectPrices_from_all P exs pairMap :
  (forall ex syms res, In ex exs -> getPrices ex syms = Fulfilled res ->
                       Forall (fun e => P (snd e)) res) ->
  forall prices out,
  prices_all P prices ->
  collectPrices_from exs pairMap prices = Fulfilled out ->
  prices_all P out.
Proof.
  induction exs as [|ex r IH]; intros Hex prices out Hp; cbn [collectPrices_from].
  - intro E. injection E as <-. exact Hp.
  - destruct (symbolsForExchange pairMap ex) as [|s0 syms] eqn:Es.
    + apply IH; [|exact Hp]. intros; eapply Hex; [right|]; eassumption.
    + destruct (getPrices ex (s0 :: syms)) as [res|] eqn:Eg; [|discriminate].
      apply IH; [intros; eapply Hex; [right|]; eassumption|].
      pose proof (Hex ex _ res (or_introl eq_refl) Eg) as Hres.
      clear Eg. revert prices Hp.
      induction res as [|[sym price] rest IHr]; intros prices Hp; cbn [fold_left].
      * exact Hp.
      * inversion Hres as [|? ? H0 Hr]; subst.
        apply IHr; [exact Hr|]. apply set_price_all; assumption.
Qed.

Lemma collectPrices_all P exchanges pairMap out :
  (forall ex syms res, In ex exchanges -> getPrices ex syms = Fulfilled res ->
                       Forall (fun e => P (snd e)) res) ->
  collectPrices exchanges pairMap = Fulfilled out ->
  prices_all P out.
Proof.
  intros Hex. unfold collectPrices.
  apply collectPrices_from_all; [exact Hex|constructor].
Qed.

(** ** Candidates of the detector *)






Lemma positive_finite_isFinite x : positive_finite x -> isFinite x = true.
Proof. destruct x; try contradiction. reflexivity. Qed.




(** ** Rounding to two decimals *)

Lemma Qdiv_100 (c : Q) : c / 100 == c * (1 # 100).
Proof. field. Qed.


(** ** The validated candidates *)




(** ** The currency cache *)

Lemma currenciesCache_fold exchanges names :
  forall (cache : list (string * option Currencies)),
  (forall n v, lookup cache n = Some v ->
     exists ex,
       lookup (exchangeLookup exchanges) n = Some ex
       /\ (getCurrencies ex = Some (Fulfilled v)
           \/ (getCurrencies ex = Some Failed /\ v = None))) ->
  forall n v,
  lookup
    (fold_left
       (fun cache name0 =>
          match lookup (exchangeLookup exchanges) name0 with
          | Some ex =>
              match getCurrencies ex with
              | Some (Fulfilled data) => map_set cache name0 data
              | Some Failed => map_set cache name0 None
              | None => cache
              end
          | None => cache
          end) names cache) n = Some v ->
  exists ex,
    lookup (exchangeLookup exchanges) n = Some ex
    /\ (getCurrencies ex = Some (Fulfilled v)
        \/ (getCurrencies ex = Some Failed /\ v = None)).
Proof.
  induction names as [|n0 r IH]; intros cache Hc n v;
    cbn [fold_left]; [apply Hc|].
  apply IH. intros n1 v1.
  destruct (lookup (exchangeLookup exchanges) n0) as [ex|] eqn:El; [|apply Hc].
  destruct (getCurrencies ex) as [[data|]|] eqn:Eg; [| |apply Hc].
  - rewrite lookup_map_set.
    destruct (String.eqb n1 n0) eqn:E; [|apply Hc].
    apply String.eqb_eq in E. subst n1. intro Ev. injection Ev as <-.
    exists ex. auto.
  - rewrite lookup_map_set.
    destruct (String.eqb n1 n0) eqn:E; [|apply Hc].
    apply String.eqb_eq in E. subst n1. intro Ev. injection Ev as <-.
    exists ex. auto.
Qed.

Lemma currenciesCache_lookup exchanges candidates n v :
  lookup (currenciesCache exchanges candidates) n = Some v ->
  exists ex,
    lookup (exchangeLookup exchanges) n = Some ex
    /\ (getCurrencies ex = Some (Fulfilled v)
        \/ (getCurrencies ex = Some Failed /\ v = None)).
Proof.
  unfold currenciesCache. apply currenciesCache_fold.
  intros n0 v0 E. discriminate.
Qed.

Lemma cached_currencies_unavailable exchanges candidates k ex :
  lookup (exchangeLookup exchanges) k = Some ex ->
  currencies_unavailable ex ->
  cached_currencies (currenciesCache exchanges candidates) (name ex) = None.
Proof.
  intros El Hu. rewrite (exchangeLookup_name _ _ _ El).
  unfold cached_currencies.
  destruct (lookup (currenciesCache exchanges candidates) k) as [[data|]|] eqn:E;
    try reflexivity.
  exfalso. destruct (currenciesCache_lookup _ _ _ _ E) as (ex' & El' & Hg).
  rewrite El in El'. injection El' as <-.
  unfold currencies_unavailable in Hu.
  destruct Hg as [Hg|[Hg Hn]]; [rewrite Hg in Hu; exact Hu|discriminate].
Qed.

(** ** The transferability check on missing metadata *)

Lemma transfer_unavailable_iff buyCurrencies sellCurrencies buyEx sellEx currency :
  transfer_status
    (validateTransferabilityFromCache buyCurrencies sellCurrencies
                                      buyEx sellEx currency) = unavailable
  <-> (buyCurrencies = None \/ sellCurrencies = None).
Proof.
  unfold validateTransferabilityFromCache.
  destruct buyCurrencies as [bc|], sellCurrencies as [sc|]; cbn;
    try (split; [auto|reflexivity]).
  destruct (networks_missing _ || networks_missing _); cbn.
  - split; [discriminate|intros [H|H]; discriminate].
  - destruct (first_common _ _); cbn;
      (split; [discriminate|intros [H|H]; discriminate]).
Qed.

(** ** The scope of the reasons each step collects *)

Lemma volume_reasons_scope env buyEx sellEx buyVol sellVol :
  Forall (fun r => is_volume_reason r = true)
         (volume_reasons env buyEx sellEx buyVol sellVol).
Proof.
  unfold volume_reasons.
  repeat (apply Forall_app; split).
  - destruct buyVol; repeat constructor.
  - destruct sellVol; repeat constructor.
  - destruct buyVol as [v|]; [destruct (lt v _)|]; repeat constructor.
  - destruct sellVol as [v|]; [destruct (lt v _)|]; repeat constructor.
Qed.

Lemma capability_reasons_scope buyEx sellEx :
  Forall (fun r => is_capability_reason r = true)
         (capability_reasons buyEx sellEx).
Proof.
  unfold capability_reasons. apply Forall_app. split.
  - destruct (getOrderBook buyEx); repeat constructor.
  - destruct (getOrderBook sellEx); repeat constructor.
Qed.

Lemma slippage_reasons_scope env buySlippage sellSlippage :
  Forall (fun r => check_of r = DepthCheck)
         (slippage_reasons env buySlippage sellSlippage).
Proof.
  unfold slippage_reasons. apply Forall_app. split.
  - destruct (gt buySlippage _); repeat constructor.
  - destruct (gt sellSlippage _); repeat constructor.
Qed.

Lemma upfront_reasons_not_transfer env buyEx sellEx buyVol sellVol :
  Forall (fun r => check_of r <> TransferCheck)
         (volume_reasons env buyEx sellEx buyVol sellVol
          ++ capability_reasons buyEx sellEx)%list.
Proof.
  apply Forall_app. split.
  - eapply Forall_impl; [|apply volume_reasons_scope].
    intros r Hr. unfold is_volume_reason in Hr.
    destruct (check_of r); discriminate.
  - eapply Forall_impl; [|apply capability_reasons_scope].
    intros r Hr. destruct r; discriminate.
Qed.

Lemma validateOne_under_unavailable exchanges env tickers currencies opp
      buyEx sellEx log o :
  lookup (exchangeLookup exchanges) (leg_exchange (opp_buy opp)) = Some buyEx ->
  lookup (exchangeLookup exchanges) (leg_exchange (opp_sell opp)) = Some sellEx ->
  transfer_status
    (validateTransferabilityFromCache
       (cached_currencies currencies (name buyEx))
       (cached_currencies currencies (name sellEx))
       buyEx sellEx (baseFromSymbolUsdt (opp_symbol opp))) = unavailable ->
  validateOne exchanges env tickers currencies opp = (log, Some o) ->
  Forall (fun r => check_of r <> TransferCheck) (reasons_of o)
  /\ (forall s, transfer_status_of o = Some s -> s = unavailable)
  /\ (is_validated o = true -> transfer_status_of o = Some unavailable).
Proof.
  intros Eb Es Hu. unfold validateOne. rewrite Eb, Es. intro H.
  repeat (split_match H; try discriminate).
  all: injection H as <- <-.
  all: cbn [reasons_of transfer_status_of is_validated attachValidation
            opp_validation validation_reasons validation_transfer
            validation_status option_map].
  all: try (rewrite Hu in *; discriminate).
  all: repeat split; try discriminate; try (intros s Hs; congruence);
       try (intros; congruence).
  all: try (repeat constructor; discriminate).
  all: match goal with
       | E : _ = ?r :: ?l |- Forall _ (?r :: ?l) => rewrite <- E
       end.
  all: first [ apply upfront_reasons_not_transfer
             | eapply Forall_impl; [|apply slippage_reasons_scope];
               intros r0 Hr; rewrite Hr; discriminate ].
Qed.

Lemma validateOne_rejected_has_reason exchanges env tickers currencies opp log o :
  validateOne exchanges env tickers currencies opp = (log, Some o) ->
  status_of o = Some rejected -> reasons_of o <> [].
Proof.
  unfold validateOne. intro H.
  repeat (split_match H; try discriminate).
  all: injection H as <- <-; cbn; try discriminate.
  all: match goal with
       | E : _ = ?r :: ?l |- _ => intros _; discriminate
       end.
Qed.

Lemma validateAll_In exchanges env candidates c log o :
  In c candidates ->
  validateOne exchanges env (tickersCache exchanges candidates)
    (currenciesCache exchanges candidates) c = (log, Some o) ->
  is_validated o = true ->
  In o (validateOpportunities exchanges env candidates).
Proof.
  intros Hc Ev Hv. unfold validateOpportunities.
  apply filter_In. split; [|exact Hv].
  apply filter_some_In. apply in_map_iff. exists (log, Some o).
  split; [reflexivity|]. unfold validateAll. rewrite <- Ev.
  apply in_map. exact Hc.
Qed.

(** The samples are what the code computes. *)
Example sample_candidate_detected :
  collectPairs sample_exchanges = Fulfilled [("XUSDT", ["alpha"; "beta"])]
  /\ collectPrices sample_exchanges [("XUSDT", ["alpha"; "beta"])]
     = Fulfilled [("XUSDT", [("alpha", Fin 1); ("beta", Fin 1.2)])]
  /\ findArbitrage sample_exchanges
       [("XUSDT", [("alpha", Fin 1); ("beta", Fin 1.2)])] (Fin 0.5)
     = [sample_candidate]
  /\ validateAll sample_exchanges default_env [sample_candidate]
     = [([("alpha", "XUSDT"); ("beta", "XUSDT")], Some sample_opportunity)].
Proof. repeat split; vm_compute; reflexivity. Qed.

Example sample_plain_candidate_detected :
  findArbitrage sample_plain_exchanges
    [("XUSDT", [("binanceus", Fin 1); ("mexc", Fin 1.2)])] (Fin 0.5)
  = [sample_plain_candidate]
  /\ option_map reasons_of
       (snd (validateOne sample_plain_exchanges default_env
               (tickersCache sample_plain_exchanges [sample_plain_candidate])
               (currenciesCache sample_plain_exchanges [sample_plain_candidate])
               sample_plain_candidate))
     = Some [BuyVolumeUnknown "binanceus"; SellVolumeUnknown "mexc";
             OrderBookUnsupported "binanceus"; OrderBookUnsupported "mexc"].
Proof. split; vm_compute; reflexivity. Qed.

(** C1, as stated, fails: on [sample_exchanges] neither venue can supply
    currency metadata (one has no [getCurrencies], the other's request
    fails), and the scan returns the candidate, validated, with
    [transfer.status = unavailable]. *)
Lemma unavailable_transfer_is_validated :
  currencies_unavailable (sample_venue "alpha" 1 None)
  /\ currencies_unavailable (sample_venue "beta" (12 # 10) (Some Failed))
  /\ getArbitrageOpportunities sample_exchanges default_env None
     = Fulfilled [sample_opportunity]
  /\ status_of sample_opportunity = Some validated
  /\ transfer_status_of sample_opportunity = Some unavailable.
Proof.
  repeat split; vm_compute; reflexivity.
Qed.

(** C1 (amended): when the currency-metadata lookup of the buy venue or of
    the sell venue is unavailable (no [getCurrencies], a failed request or
    a null answer), the transferability check returns [unavailable] and the
    validator does not reject on it: no rejection reason comes from the
    transfer check, a rejected candidate was rejected by another check, and
    a candidate that is validated is returned by the scan with
    [transfer.status = unavailable]. *)
Theorem unavailable_currency_metadata_does_not_reject
    (exchanges : list ExchangeConfig) (env : Env)
    (candidates : list ArbitrageOpportunity) (c : ArbitrageOpportunity)
    (buyEx sellEx : ExchangeConfig)
    (log : list BookFetch) (o : ArbitrageOpportunity) :
  In c candidates ->
  lookup (exchangeLookup exchanges) (leg_exchange (opp_buy c)) = Some buyEx ->
  lookup (exchangeLookup exchanges) (leg_exchange (opp_sell c)) = Some sellEx ->
  currencies_unavailable buyEx \/ currencies_unavailable sellEx ->
  validateOne exchanges env (tickersCache exchanges candidates)
    (currenciesCache exchanges candidates) c = (log, Some o) ->
  transfer_status
    (validateTransferabilityFromCache
       (cached_currencies (currenciesCache exchanges candidates) (name buyEx))
       (cached_currencies (currenciesCache exchanges candidates) (name sellEx))
       buyEx sellEx (baseFromSymbolUsdt (opp_symbol c))) = unavailable
  /\ Forall (fun r => check_of r <> TransferCheck) (reasons_of o)
  /\ (status_of o = Some rejected ->
      exists r, In r (reasons_of o) /\ check_of r <> TransferCheck)
  /\ (forall s, transfer_status_of o = Some s -> s = unavailable)
  /\ (is_validated o = true ->
      transfer_status_of o = Some unavailable
      /\ In o (validateOpportunities exchanges env candidates)).
Proof.
  intros Hc Eb Es Hun Ev.
  assert (Hu : transfer_status
                 (validateTransferabilityFromCache
                    (cached_currencies (currenciesCache exchanges candidates)
                                       (name buyEx))
                    (cached_currencies (currenciesCache exchanges candidates)
                                       (name sellEx))
                    buyEx sellEx (baseFromSymbolUsdt (opp_symbol c)))
               = unavailable).
  { apply transfer_unavailable_iff. destruct Hun as [H|H].
    - left. exact (cached_currencies_unavailable _ _ _ _ Eb H).
    - right. exact (cached_currencies_unavailable _ _ _ _ Es H). }
  destruct (validateOne_under_unavailable _ _ _ _ _ _ _ _ _ Eb Es Hu Ev)
    as (Hr & Hs & Hv).
  split; [exact Hu|]. split; [exact Hr|].
  split; [|split; [exact Hs|]].
  - intro Hrej.
    pose proof (validateOne_rejected_has_reason _ _ _ _ _ _ _ Ev Hrej) as Hne.
    destruct (reasons_of o) as [|r l]; [congruence|].
    exists r. split; [left; reflexivity|].
    inversion Hr; assumption.
  - intro Hval. split; [exact (Hv Hval)|].
    exact (validateAll_In _ _ _ _ _ _ Hc Ev Hval).
Qed.

Lemma unavailable_currency_metadata_does_not_reject_witness :
  transfer_status_of sample_opportunity = Some unavailable
  /\ In sample_opportunity
        (validateOpportunities sample_exchanges default_env [sample_candidate]).
Proof.
  refine (proj2 (proj2 (proj2 (proj2
    (unavailable_currency_metadata_does_not_reject
       sample_exchanges default_env [sample_candidate] sample_candidate
       (sample_venue "alpha" 1 None)
       (sample_venue "beta" (12 # 10) (Some Failed))
       [("alpha", "XUSDT"); ("beta", "XUSDT")] sample_opportunity
       _ _ _ _ _)))) _).
  - left. reflexivity.
  - reflexivity.
  - reflexivity.
  - left. exact I.
  - vm_compute. reflexivity.
  - reflexivity.
Defined.

(** ** The order of the checks *)

Lemma liquidity_fails_iff env buyEx sellEx buyVol sellVol :
  liquidity_fails env buyVol sellVol
  <-> volume_reasons env buyEx sellEx buyVol sellVol <> [].
Proof.
  unfold liquidity_fails, volume_reasons.
  destruct buyVol as [bv|], sellVol as [sv|]; cbn [app].
  - destruct (lt bv _) eqn:Hb; [|destruct (lt sv _) eqn:Hs]; cbn [app].
    + split; [discriminate|]. intros _. right; right; left. eauto.
    + split; [discriminate|]. intros _. right; right; right. eauto.
    + split; [|congruence].
      intros [H|[H|[(v & E & H)|(v & E & H)]]]; try discriminate;
        injection E as <-; congruence.
  - split; [discriminate|auto].
  - split; [discriminate|auto].
  - split; [discriminate|auto].
Qed.

Lemma exists_volume_reason (volumeReasons rest : list Reason) :
  Forall (fun r => is_volume_reason r = true) volumeReasons ->
  volumeReasons <> [] ->
  existsb is_volume_reason (volumeReasons ++ rest) = true.
Proof.
  intros H Hne. destruct volumeReasons as [|r l]; [congruence|].
  inversion H as [|? ? Hr _]; subst. cbn. rewrite Hr. reflexivity.
Qed.

Lemma validateOne_classified exchanges env tickers currencies opp
      buyEx sellEx log res :
  lookup (exchangeLookup exchanges) (leg_exchange (opp_buy opp)) = Some buyEx ->
  lookup (exchangeLookup exchanges) (leg_exchange (opp_sell opp)) = Some sellEx ->
  validateOne exchanges env tickers currencies opp = (log, res) ->
  let upfront :=
    (volume_reasons env buyEx sellEx
       (cached_volume tickers (name buyEx) (opp_symbol opp))
       (cached_volume tickers (name sellEx) (opp_symbol opp))
     ++ capability_reasons buyEx sellEx)%list in
  exists o,
    res = Some o
    /\ (upfront <> [] ->
        status_of o = Some rejected /\ reasons_of o = upfront /\ log = []
        /\ transfer_status_of o = None
        /\ realProfitUsd o = realProfitUsd opp)
    /\ (upfront = [] ->
        (status_of o = Some validated /\ reasons_of o = [] /\ log <> []
         /\ (transfer_status_of o = Some ok
             \/ transfer_status_of o = Some unavailable))
        \/ (status_of o = Some rejected /\ reasons_of o <> []
            /\ exists check,
                 Forall (fun r => check_of r = check) (reasons_of o)
                 /\ rejection_trace env check opp o log)).
Proof.
  intros Eb Es. unfold validateOne. rewrite Eb, Es. intros H. cbv zeta.
  repeat (split_match H; try discriminate).
  all: injection H as <- <-; eexists; (split; [reflexivity|]).
  all: classify_cbn.
  all: match goal with
       | E : (_ ++ _)%list = _ :: _ |- _ =>
           split; [intros _; repeat split; reflexivity
                  |intro; discriminate]
       | E : (_ ++ _)%list = [] |- _ =>
           split; [intro; congruence|intros _]
       end.
  all: try (left; repeat split; try discriminate;
            match goal with
            | E : transfer_status _ = _ |- _ => rewrite E; auto
            end; fail).
  all: right; split; [reflexivity|]; split; [discriminate|].
  all: try (exists DepthCheck; unfold rejection_trace; classify_cbn; split;
            [first [ match goal with
                     | E : slippage_reasons _ _ _ = ?r :: ?l |- _ =>
                         rewrite <- E; apply slippage_reasons_scope
                     end
                   | solve [repeat constructor] ]
            | split; reflexivity ]; fail).
  all: try (exists TransferCheck; unfold rejection_trace; classify_cbn; split;
            [repeat constructor
            |split; [discriminate|];
             split; [match goal with
                     | E : transfer_status _ = _ |- _ => rewrite E; auto
                     end|reflexivity]]; fail).
  all: exists ProfitCheck; unfold rejection_trace; classify_cbn; split;
       [repeat constructor
       |split; [discriminate|];
        split; [match goal with
                | E : transfer_status _ = _ |- _ => rewrite E; auto
                end|eexists; split; [reflexivity|assumption]]].
Qed.

(** C7, as stated, fails: on two venues without 24h tickers and without
    order books the candidate is rejected with volume reasons (liquidity
    check) and order-book-unsupported reasons (depth check) together. *)
Lemma rejection_reasons_span_two_checks :
  ~ (forall exchanges env tickers currencies opp log o,
        validateOne exchanges env tickers currencies opp = (log, Some o) ->
        status_of o = Some rejected ->
        exists check, Forall (fun r => check_of r = check) (reasons_of o)).
Proof.
  intro H.
  destruct (validateOne sample_plain_exchanges default_env
              (tickersCache sample_plain_exchanges [sample_plain_candidate])
              (currenciesCache sample_plain_exchanges [sample_plain_candidate])
              sample_plain_candidate) as [log [o|]] eqn:E;
    vm_compute in E; [|discriminate].
  injection E as <- <-.
  match type of H with
  | forall exchanges env tickers currencies opp log o, _ =>
      destruct (H sample_plain_exchanges default_env
                  (tickersCache sample_plain_exchanges [sample_plain_candidate])
                  (currenciesCache sample_plain_exchanges [sample_plain_candidate])
                  sample_plain_candidate _ _ eq_refl eq_refl) as [check Hc]
  end.
  vm_compute in Hc.
  inversion Hc as [|? ? H1 Hc1]; subst.
  inversion Hc1 as [|? ? _ Hc2]; subst.
  inversion Hc2 as [|? ? H3 _]; subst.
  discriminate H3.
Qed.

(** C7 (amended): with both venues known, the validator first collects the
    reasons of the liquidity check together with the order-book capability
    test of the depth check and rejects when there is any, before any
    order-book request: such a rejection carries volume reasons and
    order-book-unsupported reasons only, and a candidate failing the
    liquidity check is rejected there with a volume reason.  Past that
    point the depth, transfer and profit checks run in this order, the
    first failing one ends the validation, and the reasons of the
    rejection all come from that check, the later checks leaving no
    trace. *)
Theorem validator_checks_run_in_order
    (exchanges : list ExchangeConfig) (env : Env)
    (tickers : list (string * list (string * Ticker24h)))
    (currencies : list (string * option Currencies))
    (opp : ArbitrageOpportunity) (buyEx sellEx : ExchangeConfig) :
  lookup (exchangeLookup exchanges) (leg_exchange (opp_buy opp)) = Some buyEx ->
  lookup (exchangeLookup exchanges) (leg_exchange (opp_sell opp)) = Some sellEx ->
  let buyVol := cached_volume tickers (name buyEx) (opp_symbol opp) in
  let sellVol := cached_volume tickers (name sellEx) (opp_symbol opp) in
  let upfront :=
    (volume_reasons env buyEx sellEx buyVol sellVol
     ++ capability_reasons buyEx sellEx)%list in
  exists log o,
    validateOne exchanges env tickers currencies opp = (log, Some o)
    /\ (liquidity_fails env buyVol sellVol ->
        status_of o = Some rejected
        /\ existsb is_volume_reason (reasons_of o) = true
        /\ log = []
        /\ Forall (fun r => is_volume_reason r = true
                            \/ is_capability_reason r = true)
                  (reasons_of o))
    /\ (upfront <> [] ->
        status_of o = Some rejected /\ reasons_of o = upfront /\ log = []
        /\ transfer_status_of o = None
        /\ realProfitUsd o = realProfitUsd opp)
    /\ (upfront = [] ->
        (status_of o = Some validated /\ reasons_of o = [] /\ log <> []
         /\ (transfer_status_of o = Some ok
             \/ transfer_status_of o = Some unavailable))
        \/ (status_of o = Some rejected /\ reasons_of o <> []
            /\ exists check,
                 Forall (fun r => check_of r = check) (reasons_of o)
                 /\ rejection_trace env check opp o log)).
Proof.
  intros Eb Es buyVol sellVol upfront.
  destruct (validateOne exchanges env tickers currencies opp) as [log res] eqn:E.
  destruct (validateOne_classified _ _ _ _ _ _ _ _ _ Eb Es E)
    as (o & -> & Hupfront & Hrest).
  exists log, o. split; [reflexivity|].
  split; [|split; [exact Hupfront|exact Hrest]].
  intro Hliq.
  apply (liquidity_fails_iff env buyEx sellEx) in Hliq.
  assert (Hne : upfront <> []).
  { subst upfront. destruct (volume_reasons env buyEx sellEx buyVol sellVol);
      [congruence|discriminate]. }
  destruct (Hupfront Hne) as (Hs & Hr & Hl & _).
  split; [exact Hs|]. rewrite Hr.
  split; [|split; [exact Hl|]].
  - apply exists_volume_reason; [apply volume_reasons_scope|exact Hliq].
  - apply Forall_app. split.
    + eapply Forall_impl; [|apply volume_reasons_scope]. intros r Hr'. auto.
    + eapply Forall_impl; [|apply capability_reasons_scope]. intros r Hr'. auto.
Qed.

Lemma validator_checks_run_in_order_witness :
  exists log o,
    validateOne sample_plain_exchanges default_env
      (tickersCache sample_plain_exchanges [sample_plain_candidate])
      (currenciesCache sample_plain_exchanges [sample_plain_candidate])
      sample_plain_candidate = (log, Some o)
    /\ status_of o = Some rejected
    /\ existsb is_volume_reason (reasons_of o) = true
    /\ log = [].
Proof.
  destruct (validator_checks_run_in_order
              sample_plain_exchanges default_env
              (tickersCache sample_plain_exchanges [sample_plain_candidate])
              (currenciesCache sample_plain_exchanges [sample_plain_candidate])
              sample_plain_candidate
              (binanceUs sample_Number None (sample_api "TRADING" "1"))
              (mexc sample_Number None (sample_api "ENABLED" "1.2"))
              eq_refl eq_refl)
    as (log & o & E & Hliq & _).
  exists log, o. split; [exact E|].
  destruct Hliq as (H1 & H2 & H3 & _); [left; reflexivity|].
  repeat split; assumption.
Defined.

(** ** Failures of a venue *)

Lemma Promise_all_failed {A} (l : list (outcome A)) :
  In Failed l -> Promise_all l = Failed.
Proof.
  induction l as [|[a|] r IH]; cbn [Promise_all In].
  - intros [].
  - intros [H|H]; [discriminate|]. rewrite (IH H). reflexivity.
  - reflexivity.
Qed.

Lemma collectPairs_failed exchanges ex :
  In ex exchanges -> getPairs ex = Failed -> collectPairs exchanges = Failed.
Proof.
  intros Hin Hf. unfold collectPairs.
  rewrite Promise_all_failed; [reflexivity|].
  apply in_map_iff. exists ex. rewrite Hf. auto.
Qed.

Lemma binance_getPairs_failed Number feeOverrides api :
  api_exchangeInfo api = Failed ->
  getPairs (binance Number feeOverrides api) = Failed
  /\ getPairs (binanceUs Number feeOverrides api) = Fulfilled [].
Proof.
  intro H. cbn [getPairs binance binanceUs]. unfold binance_getPairs.
  rewrite H. split; reflexivity.
Qed.

Lemma binance_prices_unfiltered Number symbol text :
  binance_prices Number (Some [{| bp_symbol := symbol; bp_price := text |}])
                 [symbol]
  = [(symbol, Number text)].
Proof.
  unfold binance_prices. cbn [array_or_empty filter includes existsb bp_symbol].
  rewrite String.eqb_refl. reflexivity.
Qed.

(** C5 (the code departs from the claim): when the exchangeInfo request of
    binance fails, [binance.getPairs] rejects, [collectPairs] rejects with
    it and the scan is aborted; the same failure on binanceus, whose
    adapter catches it, contributes no entries and the scan goes on. *)
Theorem failed_pair_discovery_aborts_scan :
  collectPairs [binance sample_Number None sample_silent_api;
                mexc sample_Number None (sample_api "ENABLED" "1.2")]
  = Failed
  /\ getArbitrageOpportunities
       [binance sample_Number None sample_silent_api;
        mexc sample_Number None (sample_api "ENABLED" "1.2")]
       default_env None
     = Failed
  /\ collectPrices
       [binance sample_Number None
          {| api_exchangeInfo := api_exchangeInfo (sample_api "TRADING" "1");
             api_tickerPrice := Failed;
             api_ticker24hr := Failed;
             api_depth := fun _ => Failed |};
        mexc sample_Number None (sample_api "ENABLED" "1.2")]
       [("XUSDT", ["binance"; "mexc"])]
     = Failed
  /\ collectPairs [binanceUs sample_Number None sample_silent_api;
                   mexc sample_Number None (sample_api "ENABLED" "1.2")]
     = Fulfilled [("XUSDT", ["mexc"])].
Proof. repeat split; vm_compute; reflexivity. Qed.

(** C6 (the code departs from the claim): a binance price that parses to
    NaN is merged into the price table as it is, while the same payload on
    mexc, whose adapter tests [Number.isFinite], is dropped. *)
Theorem non_finite_binance_price_is_kept :
  sample_Number "abc" = NaN
  /\ collectPrices
       [binance sample_Number None (sample_api "TRADING" "abc");
        mexc sample_Number None (sample_api "ENABLED" "1.2")]
       [("XUSDT", ["binance"; "mexc"])]
     = Fulfilled [("XUSDT", [("binance", NaN); ("mexc", Fin (12 # 10))])]
  /\ collectPrices
       [mexc sample_Number None (sample_api "ENABLED" "abc")]
       [("XUSDT", ["mexc"])]
     = Fulfilled [].
Proof. repeat split; vm_compute; reflexivity. Qed.

(** ** Average and marginal price on a descending bid side *)







Lemma scaled_fraction_nonneg (x p : Q) :
  0 <= x -> 0 < p -> 0 <= x / p * 100.
Proof.
  intros Hx Hp.
  apply Qmult_le_0_compat; [|discriminate].
  apply Qle_shift_div_l; [exact Hp|]. lra.
Qed.





(** ** The detector: threshold, bounds and venues of a candidate *)

Lemma lt_false_mono n t1 t2 :
  le t1 t2 = true -> lt n t2 = false -> lt n t1 = false.
Proof.
  destruct n as [| | |n], t1 as [| | |a], t2 as [| | |b]; cbn;
    try discriminate; try reflexivity.
  intros H1 H2. apply Qle_bool_iff in H1. apply Qltb_false in H2.
  apply Qltb_false. lra.
Qed.

Lemma findArbitrageEntry_threshold exchanges t1 t2 entry c :
  le t1 t2 = true ->
  findArbitrageEntry exchanges t2 entry = Some c ->
  findArbitrageEntry exchanges t1 entry = Some c.
Proof.
  intros Hle. unfold findArbitrageEntry. destruct entry as [symbol entries].
  destruct (List.length entries <? 2)%nat; [discriminate|].
  destruct (reduce1 pickBuy _) as [bestBuy|]; [|discriminate].
  destruct (reduce1 pickSell _) as [bestSell|]; [|discriminate].
  cbv zeta.
  destruct (lt (netDiffOf bestBuy bestSell) t2) eqn:H2; [discriminate|].
  rewrite (lt_false_mono _ _ _ Hle H2). auto.
Qed.

(** X3: lowering the threshold never loses a candidate: every candidate
    the detector reports at a threshold is reported, unchanged, at every
    lower threshold. *)
Theorem lower_threshold_keeps_candidates
    (exchanges : list ExchangeConfig) (prices : PricesBySymbol)
    (t1 t2 : num) (c : ArbitrageOpportunity) :
  num_le t1 t2 ->
  In c (findArbitrage exchanges prices t2) ->
  In c (findArbitrage exchanges prices t1).
Proof.
  intros Hle H. unfold findArbitrage in *.
  apply filter_some_In in H. apply filter_some_In.
  apply in_map_iff in H. destruct H as (entry & E & Hin).
  apply in_map_iff. exists entry. split; [|exact Hin].
  apply (findArbitrageEntry_threshold _ _ _ _ _ Hle E).
Qed.

Lemma lower_threshold_keeps_candidates_witness :
  In sample_candidate
     (findArbitrage sample_exchanges
        [("XUSDT", [("alpha", Fin 1); ("beta", Fin 1.2)])] (Fin 0.5)).
Proof.
  apply (lower_threshold_keeps_candidates sample_exchanges
           [("XUSDT", [("alpha", Fin 1); ("beta", Fin 1.2)])]
           (Fin 0.5) (Fin 19) sample_candidate).
  - reflexivity.
  - vm_compute. left. reflexivity.
Defined.

(** ** [Math.min] and [Math.max] over finite quotes *)

Lemma le_trans_num a b c : le a b = true -> le b c = true -> le a c = true.
Proof.
  destruct a as [| | |a], b as [| | |b], c as [| | |c]; cbn;
    try discriminate; try reflexivity.
  intros H1 H2. apply Qle_bool_iff in H1. apply Qle_bool_iff in H2.
  apply Qle_bool_iff. lra.
Qed.

Lemma le_refl_fin x : isFinite x = true -> le x x = true.
Proof.
  destruct x; try discriminate. intros _. apply Qle_bool_iff. lra.
Qed.

Lemma min2_step acc x :
  (acc = PInf \/ isFinite acc = true) -> isFinite x = true ->
  (min2 acc x = acc \/ min2 acc x = x)
  /\ isFinite (min2 acc x) = true
  /\ le (min2 acc x) acc = true /\ le (min2 acc x) x = true.
Proof.
  intros [->|Ha] Hx.
  - destruct x as [| | |x]; try discriminate. cbn.
    repeat split; auto. apply Qle_bool_iff. lra.
  - destruct acc as [| | |a]; try discriminate.
    destruct x as [| | |x]; try discriminate.
    unfold min2. destruct (lt (Fin x) (Fin a)) eqn:E.
    + apply lt_fin in E. repeat split; auto; apply le_fin; lra.
    + apply lt_fin_false in E. repeat split; auto; apply le_fin; lra.
Qed.

Lemma max2_step acc x :
  (acc = NInf \/ isFinite acc = true) -> isFinite x = true ->
  (max2 acc x = acc \/ max2 acc x = x)
  /\ isFinite (max2 acc x) = true
  /\ le acc (max2 acc x) = true /\ le x (max2 acc x) = true.
Proof.
  intros [->|Ha] Hx.
  - destruct x as [| | |x]; try discriminate. cbn.
    repeat split; auto. apply Qle_bool_iff. lra.
  - destruct acc as [| | |a]; try discriminate.
    destruct x as [| | |x]; try discriminate.
    unfold max2. destruct (lt (Fin a) (Fin x)) eqn:E.
    + apply lt_fin in E. repeat split; auto; apply le_fin; lra.
    + apply lt_fin_false in E. repeat split; auto; apply le_fin; lra.
Qed.

Lemma min_fold l :
  Forall (fun x => isFinite x = true) l ->
  forall acc, (acc = PInf \/ isFinite acc = true) ->
  (fold_left min2 l acc = acc \/ In (fold_left min2 l acc) l)
  /\ le (fold_left min2 l acc) acc = true
  /\ Forall (fun x => le (fold_left min2 l acc) x = true) l.
Proof.
  induction 1 as [|x r Hx Hr IH]; intros acc Hacc; cbn [fold_left].
  - split; [left; reflexivity|]. split; [|constructor].
    destruct Hacc as [->|Ha]; [reflexivity|apply le_refl_fin; exact Ha].
  - destruct (min2_step acc x Hacc Hx) as (Hc & Hf & Hla & Hlx).
    destruct (IH (min2 acc x) (or_intror Hf)) as (I1 & I2 & I3).
    split; [|split].
    + destruct I1 as [I1|I1]; [|right; right; exact I1].
      rewrite I1. destruct Hc as [Hc|Hc]; [left; exact Hc|right; left; auto].
    + exact (le_trans_num _ _ _ I2 Hla).
    + constructor; [exact (le_trans_num _ _ _ I2 Hlx)|exact I3].
Qed.

Lemma max_fold l :
  Forall (fun x => isFinite x = true) l ->
  forall acc, (acc = NInf \/ isFinite acc = true) ->
  (fold_left max2 l acc = acc \/ In (fold_left max2 l acc) l)
  /\ le acc (fold_left max2 l acc) = true
  /\ Forall (fun x => le x (fold_left max2 l acc) = true) l.
Proof.
  induction 1 as [|x r Hx Hr IH]; intros acc Hacc; cbn [fold_left].
  - split; [left; reflexivity|]. split; [|constructor].
    destruct Hacc as [->|Ha]; [reflexivity|apply le_refl_fin; exact Ha].
  - destruct (max2_step acc x Hacc Hx) as (Hc & Hf & Hla & Hlx).
    destruct (IH (max2 acc x) (or_intror Hf)) as (I1 & I2 & I3).
    split; [|split].
    + destruct I1 as [I1|I1]; [|right; right; exact I1].
      rewrite I1. destruct Hc as [Hc|Hc]; [left; exact Hc|right; left; auto].
    + exact (le_trans_num _ _ _ Hla I2).
    + constructor; [exact (le_trans_num _ _ _ Hlx I2)|exact I3].
Qed.

Lemma min_list_spec l :
  l <> [] -> Forall (fun x => isFinite x = true) l ->
  In (min_list l) l /\ Forall (fun x => num_le (min_list l) x) l.
Proof.
  intros Hne Hl. unfold min_list.
  destruct (min_fold l Hl PInf (or_introl eq_refl)) as ([E|I1] & _ & I3).
  - exfalso. destruct l as [|x r]; [congruence|].
    inversion I3 as [|? ? H0 _]; subst. rewrite E in H0.
    inversion Hl as [|? ? Hx _]; subst.
    destruct x; discriminate.
  - split; assumption.
Qed.

Lemma max_list_spec l :
  l <> [] -> Forall (fun x => isFinite x = true) l ->
  In (max_list l) l /\ Forall (fun x => num_le x (max_list l)) l.
Proof.
  intros Hne Hl. unfold max_list.
  destruct (max_fold l Hl NInf (or_introl eq_refl)) as ([E|I1] & _ & I3).
  - exfalso. destruct l as [|x r]; [congruence|].
    inversion I3 as [|? ? H0 _]; subst. rewrite E in H0.
    inversion Hl as [|? ? Hx _]; subst.
    destruct x; discriminate.
  - split; assumption.
Qed.

(** ** The legs of a candidate *)

Lemma fold_left_choice {A} (f : A -> A -> A) :
  (forall a b, f a b = a \/ f a b = b) ->
  forall l x, In (fold_left f l x) (x :: l).
Proof.
  intros Hf. induction l as [|y r IH]; intros x; cbn [fold_left].
  - left. reflexivity.
  - destruct (IH (f x y)) as [E|Hin]; [|right; right; exact Hin].
    rewrite <- E. destruct (Hf x y) as [-> | ->]; [left|right; left]; reflexivity.
Qed.

Lemma reduce1_choice {A} (f : A -> A -> A) l best :
  (forall a b, f a b = a \/ f a b = b) ->
  reduce1 f l = Some best -> In best l.
Proof.
  intros Hf. destruct l as [|x r]; [discriminate|].
  cbn [reduce1]. intro E. injection E as <-. apply fold_left_choice. exact Hf.
Qed.

Lemma pickBuy_choice a b : pickBuy a b = a \/ pickBuy a b = b.
Proof. unfold pickBuy. destruct (lt _ _); auto. Qed.

Lemma pickSell_choice a b : pickSell a b = a \/ pickSell a b = b.
Proof. unfold pickSell. destruct (gt _ _); auto. Qed.

(** What a candidate is made of. *)
Lemma findArbitrageEntry_parts exchanges t symbol entries c :
  findArbitrageEntry exchanges t (symbol, entries) = Some c ->
  opp_symbol c = symbol /\ opp_exchanges c = entries
  /\ (2 <= List.length entries)%nat
  /\ opp_min c = min_list (map snd entries)
  /\ opp_max c = max_list (map snd entries)
  /\ In (opp_buy c) (legs_of exchanges Buy entries)
  /\ In (opp_sell c) (legs_of exchanges Sell entries)
  /\ lt (netDiffOf (opp_buy c) (opp_sell c)) t = false
  /\ opp_netDiff c = toFixed2 (netDiffOf (opp_buy c) (opp_sell c))
  /\ opp_diff c
     = toFixed2 (mul (div (sub (opp_max c) (opp_min c)) (opp_min c)) (Fin 100))
  /\ tradeAmountUsd c = None /\ realProfitUsd c = None
  /\ opp_validation c = None.
Proof.
  unfold findArbitrageEntry.
  destruct (List.length entries <? 2)%nat eqn:Hlen; [discriminate|].
  apply Nat.ltb_ge in Hlen.
  fold (legs_of exchanges Buy entries). fold (legs_of exchanges Sell entries).
  destruct (reduce1 pickBuy _) as [bestBuy|] eqn:Eb; [|discriminate].
  destruct (reduce1 pickSell _) as [bestSell|] eqn:Es; [|discriminate].
  cbv zeta.
  destruct (lt (netDiffOf bestBuy bestSell) t) eqn:Hlt; [discriminate|].
  intro E. injection E as <-. cbn.
  repeat split; try reflexivity; try assumption.
  - exact (reduce1_choice _ _ _ pickBuy_choice Eb).
  - exact (reduce1_choice _ _ _ pickSell_choice Es).
Qed.

Lemma legs_of_In exchanges side entries leg :
  In leg (legs_of exchanges side entries) ->
  exists exchange price,
    In (exchange, price) entries
    /\ leg = buildLeg (option_map fees (lookup (exchangeLookup exchanges) exchange))
                      exchange price side.
Proof.
  unfold legs_of. intro H. apply in_map_iff in H.
  destruct H as ([exchange price] & E & Hin). eauto.
Qed.

(** X4: a candidate is consistent with the quotes it was computed from: it
    stands for one entry of the price table with at least two quotes, its
    [min] and [max] are quoted prices that bound every quote of the entry,
    and each leg repeats the venue and raw price of one of the quotes. *)
Theorem candidate_consistent_with_its_quotes
    (exchanges : list ExchangeConfig) (prices : PricesBySymbol)
    (t : num) (c : ArbitrageOpportunity) :
  prices_all (fun p => isFinite p = true) prices ->
  In c (findArbitrage exchanges prices t) ->
  In (opp_symbol c, opp_exchanges c) prices
  /\ (2 <= List.length (opp_exchanges c))%nat
  /\ In (opp_min c) (map snd (opp_exchanges c))
  /\ In (opp_max c) (map snd (opp_exchanges c))
  /\ Forall (fun e => num_le (opp_min c) (snd e) /\ num_le (snd e) (opp_max c))
            (opp_exchanges c)
  /\ In (leg_exchange (opp_buy c), leg_price (opp_buy c)) (opp_exchanges c)
  /\ In (leg_exchange (opp_sell c), leg_price (opp_sell c)) (opp_exchanges c).
Proof.
  intros Hall Hc.
  destruct (findArbitrage_In _ _ _ _ Hc) as ([symbol entries] & Hentry & Ec).
  destruct (findArbitrageEntry_parts _ _ _ _ _ Ec)
    as (Hsym & Hexs & Hlen & Hmn & Hmx & Hb & Hs & _).
  subst symbol entries. rewrite Hmn, Hmx.
  unfold prices_all in Hall. rewrite Forall_forall in Hall.
  pose proof (Hall _ Hentry) as Hfin. cbn [snd] in Hfin.
  assert (Hne : map snd (opp_exchanges c) <> []).
  { destruct (opp_exchanges c); [cbn in Hlen; lia|discriminate]. }
  assert (Hfin' : Forall (fun x => isFinite x = true) (map snd (opp_exchanges c))).
  { rewrite Forall_map. exact Hfin. }
  destruct (min_list_spec _ Hne Hfin') as [Hmin Hminall].
  destruct (max_list_spec _ Hne Hfin') as [Hmax Hmaxall].
  rewrite Forall_map in Hminall, Hmaxall.
  repeat split; try assumption.
  - rewrite Forall_forall in *. intros e He. split; auto.
  - destruct (legs_of_In _ _ _ _ Hb) as (ex & p & Hin & ->). exact Hin.
  - destruct (legs_of_In _ _ _ _ Hs) as (ex & p & Hin & ->). exact Hin.
Qed.

Lemma candidate_consistent_with_its_quotes_witness :
  In (opp_symbol sample_candidate, opp_exchanges sample_candidate)
     [("XUSDT", [("alpha", Fin 1); ("beta", Fin 1.2)])]
  /\ (2 <= List.length (opp_exchanges sample_candidate))%nat
  /\ In (opp_min sample_candidate) (map snd (opp_exchanges sample_candidate))
  /\ In (opp_max sample_candidate) (map snd (opp_exchanges sample_candidate))
  /\ Forall (fun e => num_le (opp_min sample_candidate) (snd e)
                      /\ num_le (snd e) (opp_max sample_candidate))
            (opp_exchanges sample_candidate)
  /\ In (leg_exchange (opp_buy sample_candidate),
         leg_price (opp_buy sample_candidate))
        (opp_exchanges sample_candidate)
  /\ In (leg_exchange (opp_sell sample_candidate),
         leg_price (opp_sell sample_candidate))
        (opp_exchanges sample_candidate).
Proof.
  apply (candidate_consistent_with_its_quotes sample_exchanges
           [("XUSDT", [("alpha", Fin 1); ("beta", Fin 1.2)])]
           (Fin 0.5) sample_candidate).
  - repeat constructor.
  - vm_compute. left. reflexivity.
Defined.

(** ** Rounding to two decimals is monotone *)

Lemma round2_nonneg_mono x y : x <= y -> round2_nonneg x <= round2_nonneg y.
Proof.
  intro H. unfold round2_nonneg. rewrite !Qdiv_100.
  assert (Hz : (Qfloor (x * 100 + (1 # 2)) <= Qfloor (y * 100 + (1 # 2)))%Z).
  { apply Qfloor_resp_le. lra. }
  rewrite Zle_Qle in Hz. lra.
Qed.

Lemma round2_nonneg_bounds (bound : Z) x :
  0 <= x -> x < inject_Z bound ->
  0 <= round2_nonneg x /\ round2_nonneg x <= inject_Z bound.
Proof.
  intros H0 Hb. unfold round2_nonneg. rewrite !Qdiv_100.
  pose proof (Qfloor_le (x * 100 + (1 # 2))) as Hf.
  assert (Hlo : (0 <= Qfloor (x * 100 + (1 # 2)))%Z).
  { rewrite <- (Qfloor_Z 0). apply Qfloor_resp_le. change (inject_Z 0) with 0. lra. }
  assert (Hhi : (Qfloor (x * 100 + (1 # 2)) < bound * 100 + 1)%Z).
  { rewrite Zlt_Qlt. rewrite inject_Z_plus, inject_Z_mult.
    change (inject_Z 100) with 100. change (inject_Z 1) with 1. lra. }
  assert (Hhi' : (Qfloor (x * 100 + (1 # 2)) <= bound * 100)%Z) by lia.
  rewrite Zle_Qle in Hlo, Hhi'. rewrite inject_Z_mult in Hhi'.
  change (inject_Z 100) with 100 in Hhi'. change (inject_Z 0) with 0 in Hlo.
  lra.
Qed.

Lemma round2_small_bounds x :
  Qabs x < inject_Z (10 ^ 21) ->
  - inject_Z (10 ^ 21) <= round2 x <= inject_Z (10 ^ 21)
  /\ (x < 0 -> round2 x <= 0) /\ (0 <= x -> 0 <= round2 x).
Proof.
  intro Hs. unfold round2.
  destruct (Qle_bool (inject_Z (10 ^ 21)) (Qabs x)) eqn:E;
    [apply Qle_bool_iff in E; lra|].
  assert (HB : 0 < inject_Z (10 ^ 21)) by reflexivity.
  destruct (Qltb x 0) eqn:Hneg.
  - apply Qltb_true in Hneg.
    rewrite (Qabs_neg x) in Hs by lra.
    destruct (round2_nonneg_bounds (10 ^ 21) (- x)) as [H1 H2]; [lra|exact Hs|].
    repeat split; intros; lra.
  - apply Qltb_false in Hneg.
    rewrite (Qabs_pos x) in Hs by lra.
    destruct (round2_nonneg_bounds (10 ^ 21) x) as [H1 H2]; [lra|exact Hs|].
    repeat split; intros; lra.
Qed.

Lemma round2_mono x y : x <= y -> round2 x <= round2 y.
Proof.
  intro H.
  assert (HB : 0 < inject_Z (10 ^ 21)) by reflexivity.
  destruct (Qlt_le_dec (Qabs x) (inject_Z (10 ^ 21))) as [Sx|Bx];
  destruct (Qlt_le_dec (Qabs y) (inject_Z (10 ^ 21))) as [Sy|By].
  - destruct (round2_small_bounds x Sx) as (_ & Nx & Px).
    destruct (round2_small_bounds y Sy) as (_ & Ny & Py).
    destruct (Qlt_le_dec x 0) as [Hx|Hx]; destruct (Qlt_le_dec y 0) as [Hy|Hy].
    + unfold round2.
      apply Qle_bool_false in Sx. apply Qle_bool_false in Sy.
      rewrite Sx, Sy.
      rewrite (proj2 (Qltb_true x 0) Hx), (proj2 (Qltb_true y 0) Hy).
      pose proof (round2_nonneg_mono (- y) (- x)). lra.
    + specialize (Nx Hx). specialize (Py Hy). lra.
    + lra.
    + unfold round2.
      apply Qle_bool_false in Sx. apply Qle_bool_false in Sy.
      rewrite Sx, Sy.
      rewrite (proj2 (Qltb_false x 0) Hx), (proj2 (Qltb_false y 0) Hy).
      apply round2_nonneg_mono. exact H.
  - destruct (round2_small_bounds x Sx) as ([Lx Ux] & _).
    assert (Ey : round2 y = y).
    { unfold round2. apply Qle_bool_iff in By. rewrite By. reflexivity. }
    rewrite Ey.
    destruct (Qlt_le_dec y 0) as [Hy|Hy].
    + exfalso. rewrite (Qabs_neg y) in By by lra.
      destruct (Qlt_le_dec x 0) as [Hx|Hx].
      * rewrite (Qabs_neg x) in Sx by lra. lra.
      * lra.
    + rewrite (Qabs_pos y) in By by lra. lra.
  - destruct (round2_small_bounds y Sy) as ([Ly Uy] & _).
    assert (Ex : round2 x = x).
    { unfold round2. apply Qle_bool_iff in Bx. rewrite Bx. reflexivity. }
    rewrite Ex.
    destruct (Qlt_le_dec x 0) as [Hx|Hx].
    + rewrite (Qabs_neg x) in Bx by lra. lra.
    + exfalso. rewrite (Qabs_pos x) in Bx by lra.
      destruct (Qlt_le_dec y 0) as [Hy|Hy].
      * lra.
      * rewrite (Qabs_pos y) in Sy by lra. lra.
  - assert (Ex : round2 x = x).
    { unfold round2. apply Qle_bool_iff in Bx. rewrite Bx. reflexivity. }
    assert (Ey : round2 y = y).
    { unfold round2. apply Qle_bool_iff in By. rewrite By. reflexivity. }
    rewrite Ex, Ey. exact H.
Qed.

(** ** Legs under non-negative fees *)

Lemma buildLeg_valid fees exchange p :
  match fees with Some f => valid_fees f | None => True end ->
  exists T, 0 <= T /\
    buildLeg fees exchange (Fin p) Buy
    = {| leg_exchange := exchange; leg_price := Fin p;
         effectivePrice := Fin (p * (1 + T / 100));
         feePercentApplied := Fin T |}
    /\ buildLeg fees exchange (Fin p) Sell
    = {| leg_exchange := exchange; leg_price := Fin p;
         effectivePrice := Fin (p * (1 + - (T / 100)));
         feePercentApplied := Fin T |}.
Proof.
  intro Hf. unfold buildLeg. destruct fees as [f|].
  - destruct Hf as [(t & Et & Ht) Hx]. rewrite Et.
    destruct (transferFeePercent f) as [x|].
    + destruct Hx as (u & -> & Hu). exists (t + u).
      split; [lra|]. split; reflexivity.
    + exists (t + 0). split; [lra|]. split; reflexivity.
  - exists (0 + 0). split; [lra|]. split; reflexivity.
Qed.

Lemma legs_of_valid exchanges side entries leg :
  Forall (fun ex => valid_fees (fees ex)) exchanges ->
  Forall (fun e => positive_finite (snd e)) entries ->
  In leg (legs_of exchanges side entries) ->
  exists exchange p T,
    In (exchange, Fin p) entries /\ 0 < p /\ 0 <= T
    /\ leg = buildLeg (option_map fees (lookup (exchangeLookup exchanges) exchange))
                      exchange (Fin p) side
    /\ buildLeg (option_map fees (lookup (exchangeLookup exchanges) exchange))
                exchange (Fin p) Buy
       = {| leg_exchange := exchange; leg_price := Fin p;
            effectivePrice := Fin (p * (1 + T / 100));
            feePercentApplied := Fin T |}
    /\ buildLeg (option_map fees (lookup (exchangeLookup exchanges) exchange))
                exchange (Fin p) Sell
       = {| leg_exchange := exchange; leg_price := Fin p;
            effectivePrice := Fin (p * (1 + - (T / 100)));
            feePercentApplied := Fin T |}.
Proof.
  intros Hfees Hpos Hin.
  destruct (legs_of_In _ _ _ _ Hin) as (exchange & price & He & ->).
  rewrite Forall_forall in Hpos. pose proof (Hpos _ He) as Hp. cbn [snd] in Hp.
  destruct price as [| | |p]; try contradiction. cbn in Hp.
  destruct (buildLeg_valid
              (option_map fees (lookup (exchangeLookup exchanges) exchange))
              exchange p) as (T & HT & EB & ES).
  { destruct (lookup (exchangeLookup exchanges) exchange) as [cfg|] eqn:E; [|exact I].
    cbn [option_map]. rewrite Forall_forall in Hfees.
    apply Hfees. apply (exchangeLookup_in _ _ _ E). }
  exists exchange, p, T. repeat split; assumption.
Qed.

Lemma Qdiv_100_nonneg T : 0 <= T -> 0 <= T / 100.
Proof. intro H. rewrite Qdiv_100. lra. Qed.

Lemma In_keys_functional {V} (m : list (string * V)) k v1 v2 :
  NoDup (keys m) -> In (k, v1) m -> In (k, v2) m -> v1 = v2.
Proof.
  induction m as [|[k0 v0] r IH]; intros Hnd H1 H2; [destruct H1|].
  cbn [keys map fst] in Hnd. inversion Hnd as [|? ? Hnot Hr]; subst.
  destruct H1 as [E1|H1], H2 as [E2|H2].
  - congruence.
  - injection E1 as -> ->. exfalso. apply Hnot.
    change k with (fst (k, v2)). apply in_map. exact H2.
  - injection E2 as -> ->. exfalso. apply Hnot.
    change k with (fst (k, v1)). apply in_map. exact H1.
  - exact (IH Hr H1 H2).
Qed.

(** A candidate never buys and sells on one venue when the threshold is
    positive: the two legs of one quote differ by twice the fee, against
    the spread. *)
Lemma findArbitrageEntry_distinct_venues exchanges t symbol entries c :
  Forall (fun ex => valid_fees (fees ex)) exchanges ->
  Forall (fun e => positive_finite (snd e)) entries ->
  NoDup (keys entries) ->
  lt (Fin 0) t = true ->
  findArbitrageEntry exchanges t (symbol, entries) = Some c ->
  leg_exchange (opp_buy c) <> leg_exchange (opp_sell c).
Proof.
  intros Hfees Hpos Hnd Ht Ec Heq.
  destruct (findArbitrageEntry_parts _ _ _ _ _ Ec)
    as (_ & _ & _ & _ & _ & Hb & Hs & Hlt & _).
  destruct (legs_of_valid _ _ _ _ Hfees Hpos Hb)
    as (e1 & p1 & T1 & In1 & Hp1 & HT1 & Eb & EB1 & _).
  destruct (legs_of_valid _ _ _ _ Hfees Hpos Hs)
    as (e2 & p2 & T2 & In2 & Hp2 & HT2 & Es & EB2 & ES2).
  rewrite EB1 in Eb. rewrite ES2 in Es.
  rewrite Eb, Es in Heq, Hlt. cbn [leg_exchange] in Heq. subst e2.
  pose proof (In_keys_functional _ _ _ _ Hnd In1 In2) as Ep.
  injection Ep as <-.
  rewrite EB1 in EB2. apply (f_equal feePercentApplied) in EB2.
  cbn [feePercentApplied] in EB2. injection EB2 as ET.
  unfold netDiffOf in Hlt. cbn [effectivePrice sub neg add] in Hlt.
  pose proof (Qdiv_100_nonneg _ HT1) as H1.
  pose proof (Qdiv_100_nonneg _ HT2) as H2.
  assert (Hden : 0 < p1 * (1 + T1 / 100)) by nra.
  rewrite (div_fin _ _ Hden) in Hlt. cbn [mul] in Hlt.
  assert (Hn : (p1 * (1 + - (T2 / 100)) + - (p1 * (1 + T1 / 100)))
               / (p1 * (1 + T1 / 100)) * 100 <= 0).
  { assert (Hnum : p1 * (1 + - (T2 / 100)) + - (p1 * (1 + T1 / 100)) <= 0).
    { rewrite <- ET. nra. }
    assert (Hq : (p1 * (1 + - (T2 / 100)) + - (p1 * (1 + T1 / 100)))
                 / (p1 * (1 + T1 / 100)) <= 0).
    { apply Qle_shift_div_r; [exact Hden|]. lra. }
    lra. }
  destruct t as [| | |q]; cbn in Ht, Hlt; try discriminate.
  apply Qltb_true in Ht. apply Qltb_false in Hlt. lra.
Qed.

(** ** Shape of the price table *)

Lemma map_set_NoDup {V} (m : list (string * V)) k v :
  NoDup (keys m) -> NoDup (keys (map_set m k v)).
Proof.
  induction m as [|[k0 v0] r IH]; intro Hnd; cbn [map_set].
  - cbn. constructor; [intros []|constructor].
  - cbn [keys map fst] in Hnd. inversion Hnd as [|? ? Hnot Hr]; subst.
    destruct (String.eqb k k0) eqn:E.
    + cbn [keys map fst]. constructor; assumption.
    + cbn [keys map fst]. constructor; [|exact (IH Hr)].
      intro Hin. apply (keys_map_set r k v k0) in Hin.
      destruct Hin as [Hin|Hin]; [exact (Hnot Hin)|].
      subst k0. rewrite String.eqb_refl in E. discriminate.
Qed.

Lemma set_price_inner (I : PriceByExchange -> Prop) prices symbol exchange price :
  I [] -> (forall inner k v, I inner -> I (map_set inner k v)) ->
  Forall (fun e => I (snd e)) prices ->
  Forall (fun e => I (snd e)) (set_price prices symbol exchange price).
Proof.
  intros H0 Hset Hp. unfold set_price.
  apply (Forall_map_set I); [exact Hp|].
  apply Hset.
  destruct (lookup prices symbol) as [inner|] eqn:E; [|exact H0].
  exact (lookup_Forall I prices symbol inner Hp E).
Qed.

Lemma collectPrices_from_inner (I : PriceByExchange -> Prop) exs pairMap :
  I [] -> (forall inner k v, I inner -> I (map_set inner k v)) ->
  forall prices out,
  Forall (fun e => I (snd e)) prices ->
  collectPrices_from exs pairMap prices = Fulfilled out ->
  Forall (fun e => I (snd e)) out.
Proof.
  intros H0 Hset.
  induction exs as [|ex r IH]; intros prices out Hp; cbn [collectPrices_from].
  - intro E. injection E as <-. exact Hp.
  - destruct (symbolsForExchange pairMap ex) as [|s0 syms] eqn:Es.
    + apply IH. exact Hp.
    + destruct (getPrices ex (s0 :: syms)) as [res|] eqn:Eg; [|discriminate].
      apply IH. clear Eg. revert prices Hp.
      induction res as [|[sym price] rest IHr]; intros prices Hp; cbn [fold_left].
      * exact Hp.
      * apply IHr. apply set_price_inner; assumption.
Qed.

Lemma collectPrices_from_NoDup exs pairMap :
  forall prices out,
  NoDup (keys prices) ->
  collectPrices_from exs pairMap prices = Fulfilled out ->
  NoDup (keys out).
Proof.
  induction exs as [|ex r IH]; intros prices out Hp; cbn [collectPrices_from].
  - intro E. injection E as <-. exact Hp.
  - destruct (symbolsForExchange pairMap ex) as [|s0 syms] eqn:Es.
    + apply IH. exact Hp.
    + destruct (getPrices ex (s0 :: syms)) as [res|] eqn:Eg; [|discriminate].
      apply IH. clear Eg. revert prices Hp.
      induction res as [|[sym price] rest IHr]; intros prices Hp;
        cbn [fold_left]; [exact Hp|].
      apply IHr. unfold set_price. apply map_set_NoDup. exact Hp.
Qed.

Lemma collectPrices_NoDup exchanges pairMap out :
  collectPrices exchanges pairMap = Fulfilled out ->
  NoDup (keys out) /\ Forall (fun e => NoDup (keys (snd e))) out.
Proof.
  unfold collectPrices. intro E. split.
  - apply (collectPrices_from_NoDup exchanges pairMap [] out); [constructor|exact E].
  - apply (collectPrices_from_inner (fun inner => NoDup (keys inner))
             exchanges pairMap) with (prices := []).
    + constructor.
    + intros inner k v. apply map_set_NoDup.
    + constructor.
    + exact E.
Qed.

(** X5: with a positive threshold in effect, no opportunity the scan
    returns buys and sells on the same venue.  Venue prices and fees are as
    in the data model: positive finite prices, finite non-negative fee
    percentages. *)
Theorem scan_never_pairs_a_venue_with_itself
    (exchanges : list ExchangeConfig) (env : Env)
    (minDiffPercent : option num)
    (out : list ArbitrageOpportunity) (o : ArbitrageOpportunity) :
  Forall (fun ex => valid_fees (fees ex)) exchanges ->
  (forall ex syms res,
      In ex exchanges -> getPrices ex syms = Fulfilled res ->
      Forall (fun e => positive_finite (snd e)) res) ->
  num_lt (Fin 0) (threshold_in_effect env minDiffPercent) ->
  getArbitrageOpportunities exchanges env minDiffPercent = Fulfilled out ->
  In o out ->
  leg_exchange (opp_buy o) <> leg_exchange (opp_sell o).
Proof.
  intros Hfees Hprices Ht Hscan Hin.
  unfold getArbitrageOpportunities in Hscan.
  destruct (collectPairs exchanges) as [pairMap|]; [|discriminate].
  destruct (collectPrices exchanges pairMap) as [prices|] eqn:Ep; [|discriminate].
  injection Hscan as <-.
  fold (threshold_in_effect env minDiffPercent) in Hin.
  pose proof (collectPrices_all positive_finite _ _ _ Hprices Ep) as Hall.
  destruct (collectPrices_NoDup _ _ _ Ep) as [_ Hnd].
  destruct (validateOpportunities_In _ _ _ _ Hin) as (c & log & Hc & Ev & Hv).
  destruct (findArbitrage_In _ _ _ _ Hc) as ([symbol entries] & Hentry & Ec).
  unfold prices_all in Hall. rewrite Forall_forall in Hall, Hnd.
  pose proof (Hall _ Hentry) as Hpos. pose proof (Hnd _ Hentry) as Hk.
  cbn [snd] in Hpos, Hk.
  destruct (validateOne_validated _ _ _ _ _ _ _ Ev Hv)
    as (buyEx & sellEx & buyBook & sellBook & buyFill & sellFill
        & _ & _ & _ & _ & _ & _ & _ & _ & Ebuy & Esell & _).
  rewrite Ebuy, Esell.
  exact (findArbitrageEntry_distinct_venues _ _ _ _ _ Hfees Hpos Hk Ht Ec).
Qed.

Lemma scan_never_pairs_a_venue_with_itself_witness :
  leg_exchange (opp_buy sample_opportunity)
  <> leg_exchange (opp_sell sample_opportunity).
Proof.
  apply (scan_never_pairs_a_venue_with_itself
           sample_exchanges default_env None sample_scan sample_opportunity).
  - repeat constructor; cbn; eexists; split; try reflexivity; discriminate.
  - intros ex syms res Hex Hres.
    destruct Hex as [<-|[<-|[]]]; cbn in Hres; injection Hres as <-;
      repeat constructor.
  - reflexivity.
  - vm_compute. reflexivity.
  - left. reflexivity.
Defined.

(** ** Net spread against gross spread *)

Lemma spread_le (se be mx mn : Q) :
  0 < mn -> mn <= be -> se <= mx -> mn <= mx ->
  (se + - be) / be * 100 <= (mx + - mn) / mn * 100.
Proof.
  intros Hmn Hbe Hse Hmx.
  assert (Hb : 0 < be) by lra.
  assert (R : (se + - be) / be <= (mx + - mn) / mn).
  { apply ratio_le; [exact Hb|exact Hmn|].
    destruct (Qlt_le_dec se 0) as [Hneg|Hpos]; nra. }
  lra.
Qed.

(** X6: fees only narrow the spread: the net diff a candidate reports is at
    most its gross diff, and the gross diff is not negative.  Quotes are
    positive and finite, fee percentages finite and non-negative. *)
Theorem net_diff_at_most_gross_diff
    (exchanges : list ExchangeConfig) (prices : PricesBySymbol)
    (t : num) (c : ArbitrageOpportunity) :
  Forall (fun ex => valid_fees (fees ex)) exchanges ->
  prices_all positive_finite prices ->
  In c (findArbitrage exchanges prices t) ->
  num_le (opp_netDiff c) (opp_diff c) /\ num_le (Fin 0) (opp_diff c).
Proof.
  intros Hfees Hall Hc.
  destruct (findArbitrage_In _ _ _ _ Hc) as ([symbol entries] & Hentry & Ec).
  unfold prices_all in Hall. rewrite Forall_forall in Hall.
  pose proof (Hall _ Hentry) as Hpos. cbn [snd] in Hpos.
  destruct (findArbitrageEntry_parts _ _ _ _ _ Ec)
    as (_ & _ & Hlen & Hmn & Hmx & Hb & Hs & _ & En & Eg & _).
  rewrite En, Eg, Hmn, Hmx. clear En Eg Hmn Hmx.
  assert (Hne : map snd entries <> []).
  { destruct entries; [cbn in Hlen; lia|discriminate]. }
  assert (Hfin : Forall (fun x => isFinite x = true) (map snd entries)).
  { rewrite Forall_map. eapply Forall_impl; [|exact Hpos].
    intros e. apply positive_finite_isFinite. }
  destruct (min_list_spec _ Hne Hfin) as [Hmin Hminall].
  destruct (max_list_spec _ Hne Hfin) as [Hmax Hmaxall].
  rewrite Forall_forall in Hminall, Hmaxall.
  assert (Hposl : forall x, In x (map snd entries) -> positive_finite x).
  { intros x Hx. apply in_map_iff in Hx. destruct Hx as (e & <- & He).
    rewrite Forall_forall in Hpos. exact (Hpos _ He). }
  pose proof (Hposl _ Hmin) as Pmin.
  pose proof (Hmaxall _ Hmin) as Hmm.
  destruct (min_list (map snd entries)) as [| | |mn]; try contradiction.
  pose proof (Hposl _ Hmax) as Pmax.
  destruct (max_list (map snd entries)) as [| | |mx]; try contradiction.
  cbn in Pmin, Pmax. apply le_fin in Hmm.
  destruct (legs_of_valid _ _ _ _ Hfees Hpos Hb)
    as (e1 & p1 & T1 & In1 & Hp1 & HT1 & Eb & EB1 & _).
  destruct (legs_of_valid _ _ _ _ Hfees Hpos Hs)
    as (e2 & p2 & T2 & In2 & Hp2 & HT2 & Es & _ & ES2).
  rewrite EB1 in Eb. rewrite ES2 in Es. rewrite Eb, Es.
  assert (B1 : mn <= p1).
  { apply le_fin. apply Hminall. apply in_map_iff. exists (e1, Fin p1). auto. }
  assert (B2 : p2 <= mx).
  { apply le_fin. apply Hmaxall. apply in_map_iff. exists (e2, Fin p2). auto. }
  pose proof (Qdiv_100_nonneg _ HT1) as H1.
  pose proof (Qdiv_100_nonneg _ HT2) as H2.
  unfold netDiffOf. cbn [effectivePrice sub neg add].
  assert (Hden : 0 < p1 * (1 + T1 / 100)) by nra.
  rewrite (div_fin _ _ Hden), (div_fin _ _ Pmin). cbn [mul toFixed2].
  unfold num_le. cbn [le]. split; apply Qle_bool_iff.
  - apply round2_mono. apply spread_le; try assumption; nra.
  - apply Qle_trans with (round2 0); [vm_compute; discriminate|].
    apply round2_mono. apply scaled_fraction_nonneg; [lra|exact Pmin].
Qed.

Lemma net_diff_at_most_gross_diff_witness :
  num_le (opp_netDiff sample_candidate) (opp_diff sample_candidate)
  /\ num_le (Fin 0) (opp_diff sample_candidate).
Proof.
  apply (net_diff_at_most_gross_diff sample_exchanges
           [("XUSDT", [("alpha", Fin 1); ("beta", Fin 1.2)])]
           (Fin 0.5) sample_candidate).
  - repeat constructor; cbn; eexists; split; try reflexivity; discriminate.
  - repeat constructor.
  - vm_compute. left. reflexivity.
Defined.

(** ** Pair discovery *)

Lemma Promise_all_fulfilled {A} (l : list (outcome A)) vs :
  Promise_all l = Fulfilled vs <-> l = map (@Fulfilled A) vs.
Proof.
  revert vs. induction l as [|[a|] r IH]; intros vs; cbn [Promise_all].
  - split.
    + intro E. injection E as <-. reflexivity.
    + destruct vs; [reflexivity|discriminate].
  - destruct (Promise_all r) as [l'|] eqn:E.
    + split.
      * intro H. injection H as <-. cbn [map]. f_equal. apply IH. reflexivity.
      * destruct vs as [|v vs']; [discriminate|]. cbn [map].
        intro H. injection H as -> Hr. apply IH in Hr. congruence.
    + split; [discriminate|].
      destruct vs as [|v vs']; [discriminate|]. cbn [map].
      intro H. injection H as _ Hr. apply IH in Hr. discriminate.
  - split; [discriminate|]. destruct vs; discriminate.
Qed.

Lemma Promise_all_failed_iff {A} (l : list (outcome A)) :
  Promise_all l = Failed <-> In Failed l.
Proof.
  split; [|apply Promise_all_failed].
  induction l as [|[a|] r IH]; cbn [Promise_all In].
  - discriminate.
  - destruct (Promise_all r); [discriminate|]. intros _. right. apply IH. reflexivity.
  - intros _. left. reflexivity.
Qed.

(** The body of the inner loop of [collectPairs]. *)
Lemma collectPairs_step (map1 : list (string * list string)) sym exchange :
  let map2 := if has map1 sym then map1 else map_set map1 sym [] in
  let map3 := match lookup map2 sym with
              | Some l => map_set map2 sym (l ++ [exchange])%list
              | None => map2
              end in
  (forall s e, filed map3 s e <-> filed map1 s e \/ (s = sym /\ e = exchange))
  /\ (NoDup (keys map1) -> NoDup (keys map3))
  /\ ((forall s l, lookup map1 s = Some l -> l <> []) ->
      forall s l, lookup map3 s = Some l -> l <> []).
Proof.
  cbv zeta. unfold has.
  destruct (lookup map1 sym) as [l0|] eqn:E0.
  - rewrite E0. split; [|split].
    + intros s e. unfold filed. rewrite lookup_map_set.
      destruct (String.eqb s sym) eqn:Es.
      * apply String.eqb_eq in Es. subst s. rewrite E0. split.
        -- intros (venues & Ev & Hin). injection Ev as <-.
           apply in_app_or in Hin. destruct Hin as [Hin|[<-|[]]]; eauto.
        -- intros [(venues & Ev & Hin)|[_ ->]].
           ++ injection Ev as <-. eexists. split; [reflexivity|].
              apply in_or_app. left. exact Hin.
           ++ eexists. split; [reflexivity|]. apply in_or_app. right. left.
              reflexivity.
      * apply String.eqb_neq in Es. split; [auto|].
        intros [H|[H _]]; [exact H|contradiction].
    + apply map_set_NoDup.
    + intros Hne s l. rewrite lookup_map_set.
      destruct (String.eqb s sym); [|apply Hne].
      intro H. injection H as <-. destruct l0; discriminate.
  - rewrite lookup_map_set, String.eqb_refl. split; [|split].
    + intros s e. unfold filed. rewrite !lookup_map_set.
      destruct (String.eqb s sym) eqn:Es.
      * apply String.eqb_eq in Es. subst s. rewrite E0. split.
        -- intros (venues & Ev & Hin). injection Ev as <-.
           destruct Hin as [<-|[]]. auto.
        -- intros [(venues & Ev & _)|[_ ->]]; [discriminate|].
           eexists. split; [reflexivity|]. left. reflexivity.
      * apply String.eqb_neq in Es. split; [auto|].
        intros [H|[H _]]; [exact H|contradiction].
    + intro H. apply map_set_NoDup, map_set_NoDup, H.
    + intros Hne s l. rewrite !lookup_map_set.
      destruct (String.eqb s sym); [|apply Hne].
      intro H. injection H as <-. discriminate.
Qed.

Lemma collectPairs_inner exchange pairs :
  forall map0 : list (string * list string),
  let map' :=
    fold_left
      (fun map1 pair =>
         let map2 :=
           if has map1 (pair_symbol pair) then map1
           else map_set map1 (pair_symbol pair) [] in
         match lookup map2 (pair_symbol pair) with
         | Some l => map_set map2 (pair_symbol pair) (l ++ [exchange])%list
         | None => map2
         end)
      pairs map0 in
  (forall s e, filed map' s e
               <-> filed map0 s e
                   \/ (In s (map pair_symbol pairs) /\ e = exchange))
  /\ (NoDup (keys map0) -> NoDup (keys map'))
  /\ ((forall s l, lookup map0 s = Some l -> l <> []) ->
      forall s l, lookup map' s = Some l -> l <> []).
Proof.
  induction pairs as [|pair r IH]; intros map0; cbn [fold_left map].
  - split; [|split]; auto. intros s e. cbn. tauto.
  - destruct (collectPairs_step map0 (pair_symbol pair) exchange) as (S1 & S2 & S3).
    cbv zeta in S1, S2, S3.
    match goal with
    | |- context [fold_left ?f r ?m] => destruct (IH m) as (I1 & I2 & I3)
    end.
    cbv zeta in I1, I2, I3.
    split; [|split].
    + intros s e. rewrite I1, S1. cbn [In]. intuition (subst; auto).
    + auto.
    + intros Hne. apply I3. apply S3. exact Hne.
Qed.

Lemma collectPairs_outer (pairsByExchange : list (string * list Pair)) :
  forall map0 : list (string * list string),
  let map' :=
    fold_left
      (fun map0 '(exchange, pairs) =>
         fold_left
           (fun map1 pair =>
              let map2 :=
                if has map1 (pair_symbol pair) then map1
                else map_set map1 (pair_symbol pair) [] in
              match lookup map2 (pair_symbol pair) with
              | Some l => map_set map2 (pair_symbol pair) (l ++ [exchange])%list
              | None => map2
              end)
           pairs map0)
      pairsByExchange map0 in
  (forall s e, filed map' s e
               <-> filed map0 s e
                   \/ exists pairs, In (e, pairs) pairsByExchange
                                    /\ In s (map pair_symbol pairs))
  /\ (NoDup (keys map0) -> NoDup (keys map'))
  /\ ((forall s l, lookup map0 s = Some l -> l <> []) ->
      forall s l, lookup map' s = Some l -> l <> []).
Proof.
  induction pairsByExchange as [|[exchange pairs] r IH]; intros map0;
    cbn [fold_left].
  - split; [|split]; auto. intros s e. split; [auto|].
    intros [H|(pairs & [] & _)]. exact H.
  - destruct (collectPairs_inner exchange pairs map0) as (S1 & S2 & S3).
    cbv zeta in S1, S2, S3.
    match goal with
    | |- context [fold_left _ r ?m] => destruct (IH m) as (I1 & I2 & I3)
    end.
    cbv zeta in I1, I2, I3.
    split; [|split].
    + intros s e. rewrite I1, S1. cbn [In]. split.
      * intros [[H|[H ->]]|(ps & Hin & Hs)]; eauto.
      * intros [H|(ps & [E|Hin] & Hs)]; eauto.
        injection E as <- <-. auto.
    + auto.
    + intros Hne. apply I3. apply S3. exact Hne.
Qed.

Lemma collectPairs_listed exchanges pairMap :
  collectPairs exchanges = Fulfilled pairMap ->
  (forall s e, filed pairMap s e
               <-> exists ex, In ex exchanges /\ name ex = e /\ trades ex s)
  /\ NoDup (keys pairMap)
  /\ (forall s l, lookup pairMap s = Some l -> l <> [])
  /\ (forall ex, In ex exchanges -> getPairs ex <> Failed).
Proof.
  unfold collectPairs.
  destruct (Promise_all _) as [pbe|] eqn:EP; [|discriminate].
  intro E. injection E as <-.
  apply Promise_all_fulfilled in EP.
  destruct (collectPairs_outer pbe []) as (I1 & I2 & I3). cbv zeta in I1, I2, I3.
  assert (Hpbe : forall e pairs,
             In (e, pairs) pbe
             <-> exists ex, In ex exchanges /\ name ex = e
                            /\ getPairs ex = Fulfilled pairs).
  { intros e pairs. split.
    - intro Hin. apply (in_map (@Fulfilled _)) in Hin. rewrite <- EP in Hin.
      apply in_map_iff in Hin. destruct Hin as (ex & Hex & Hin).
      destruct (getPairs ex) as [ps|] eqn:Eg; [|discriminate].
      injection Hex as <- <-. eauto.
    - intros (ex & Hin & <- & Eg).
      apply (in_map (fun exchange =>
                       match getPairs exchange with
                       | Fulfilled pairs => Fulfilled (name exchange, pairs)
                       | Failed => Failed
                       end)) in Hin.
      rewrite Eg, EP in Hin. apply in_map_iff in Hin.
      destruct Hin as (x & Ex & Hin). injection Ex as ->. exact Hin. }
  split; [|split; [|split]].
  - intros s e. rewrite I1. unfold trades. split.
    + intros [(venues & Ev & _)|(pairs & Hin & Hs)]; [discriminate|].
      apply Hpbe in Hin. destruct Hin as (ex & Hex & Hn & Eg). eauto 8.
    + intros (ex & Hex & Hn & pairs & Eg & Hs). right. exists pairs.
      split; [|exact Hs]. apply Hpbe. eauto.
  - apply I2. constructor.
  - apply I3. intros s l H. discriminate.
  - intros ex Hin Hf.
    apply (in_map (fun exchange =>
                     match getPairs exchange with
                     | Fulfilled pairs => Fulfilled (name exchange, pairs)
                     | Failed => Failed
                     end)) in Hin.
    rewrite Hf, EP in Hin. apply in_map_iff in Hin.
    destruct Hin as (x & Ex & _). discriminate.
Qed.

Lemma In_lookup {V} (m : list (string * V)) k v :
  NoDup (keys m) -> (In (k, v) m <-> lookup m k = Some v).
Proof.
  induction m as [|[k0 v0] r IH]; intro Hnd; cbn [lookup In].
  - split; [intros []|discriminate].
  - cbn [keys map fst] in Hnd. inversion Hnd as [|? ? Hnot Hr]; subst.
    destruct (String.eqb k k0) eqn:E.
    + apply String.eqb_eq in E. subst k0. split.
      * intros [H|H]; [congruence|].
        exfalso. apply Hnot. change k with (fst (k, v)). apply in_map. exact H.
      * intro H. left. congruence.
    + apply String.eqb_neq in E. rewrite <- (IH Hr). split.
      * intros [H|H]; [congruence|exact H].
      * auto.
Qed.

Lemma includes_In l x : includes l x = true <-> In x l.
Proof.
  unfold includes. rewrite existsb_exists. split.
  - intros (y & Hy & E). apply String.eqb_eq in E. subst. exact Hy.
  - intro H. exists x. split; [exact H|apply String.eqb_refl].
Qed.

Lemma NoDup_keys_filter {V} (f : string * V -> bool) (m : list (string * V)) :
  NoDup (keys m) -> NoDup (map fst (filter f m)).
Proof.
  induction m as [|[k v] r IH]; intro Hnd; cbn [filter map]; [constructor|].
  cbn [keys map fst] in Hnd. inversion Hnd as [|? ? Hnot Hr]; subst.
  destruct (f (k, v)); [|exact (IH Hr)].
  cbn [map fst]. constructor; [|exact (IH Hr)].
  intro Hin. apply Hnot. apply in_map_iff in Hin.
  destruct Hin as ([k' v'] & <- & Hin). apply filter_In in Hin.
  apply in_map_iff. exists (k', v'). tauto.
Qed.

Lemma symbolsForExchange_listed pairMap ex s :
  NoDup (keys pairMap) ->
  (In s (symbolsForExchange pairMap ex) <-> filed pairMap s (name ex)).
Proof.
  intro Hnd. unfold symbolsForExchange, filed. rewrite in_map_iff. split.
  - intros ([s' l] & <- & Hin). apply filter_In in Hin. destruct Hin as [Hin Hi].
    cbn [fst snd] in *. exists l. split.
    + apply In_lookup; assumption.
    + apply includes_In. exact Hi.
  - intros (l & El & Hin). exists (s, l). split; [reflexivity|].
    apply filter_In. split.
    + apply In_lookup; assumption.
    + apply includes_In. exact Hin.
Qed.

(** X7: when pair discovery fulfils, the pair map files under each symbol
    exactly the names of the venues that report it: no symbol is keyed
    twice, no symbol has an empty venue list, and a name is listed under a
    symbol if and only if a venue of that name reports the symbol. *)
Theorem pair_map_lists_exactly_the_trading_venues
    (exchanges : list ExchangeConfig) (pairMap : list (string * list string)) :
  collectPairs exchanges = Fulfilled pairMap ->
  NoDup (keys pairMap)
  /\ (forall symbol venues,
        lookup pairMap symbol = Some venues ->
        venues <> []
        /\ forall e, In e venues
                     <-> exists ex, In ex exchanges /\ name ex = e
                                    /\ trades ex symbol)
  /\ (forall symbol,
        In symbol (keys pairMap)
        <-> exists ex, In ex exchanges /\ trades ex symbol).
Proof.
  intro E. destruct (collectPairs_listed _ _ E) as (HL & Hnd & Hne & _).
  split; [exact Hnd|]. split.
  - intros symbol venues El. split; [exact (Hne _ _ El)|].
    intro e. rewrite <- HL. unfold filed. rewrite El. split.
    + intro Hin. eauto.
    + intros (l & Ev & Hin). congruence.
  - intro symbol. rewrite <- lookup_in_keys. split.
    + intros (venues & El). pose proof (Hne _ _ El) as Hv.
      destruct venues as [|e r]; [congruence|].
      destruct (proj1 (HL symbol e)) as (ex & Hex & _ & Ht).
      { exists (e :: r). split; [exact El|left; reflexivity]. }
      eauto.
    + intros (ex & Hex & Ht).
      destruct (proj2 (HL symbol (name ex))) as (venues & El & _); eauto.
Qed.

Lemma pair_map_lists_exactly_the_trading_venues_witness :
  NoDup (keys [("XUSDT", ["alpha"; "beta"])])
  /\ (forall symbol venues,
        lookup [("XUSDT", ["alpha"; "beta"])] symbol = Some venues ->
        venues <> []
        /\ forall e, In e venues
                     <-> exists ex, In ex sample_exchanges /\ name ex = e
                                    /\ trades ex symbol)
  /\ (forall symbol,
        In symbol (keys [("XUSDT", ["alpha"; "beta"])])
        <-> exists ex, In ex sample_exchanges /\ trades ex symbol).
Proof.
  apply (pair_map_lists_exactly_the_trading_venues sample_exchanges
           [("XUSDT", ["alpha"; "beta"])]).
  vm_compute. reflexivity.
Defined.

(** X8: after pair discovery, a venue is asked for the prices of exactly
    the symbols that a venue of its name reported, each of them once. *)
Theorem venue_is_asked_for_the_symbols_it_listed
    (exchanges : list ExchangeConfig) (pairMap : list (string * list string))
    (ex : ExchangeConfig) :
  collectPairs exchanges = Fulfilled pairMap ->
  NoDup (symbolsForExchange pairMap ex)
  /\ forall symbol,
       In symbol (symbolsForExchange pairMap ex)
       <-> exists ex', In ex' exchanges /\ name ex' = name ex
                       /\ trades ex' symbol.
Proof.
  intro E. destruct (collectPairs_listed _ _ E) as (HL & Hnd & _).
  split.
  - unfold symbolsForExchange. apply NoDup_keys_filter. exact Hnd.
  - intro symbol. rewrite (symbolsForExchange_listed _ _ _ Hnd). apply HL.
Qed.

Lemma venue_is_asked_for_the_symbols_it_listed_witness :
  NoDup (symbolsForExchange [("XUSDT", ["alpha"; "beta"])]
                            (sample_venue "alpha" 1 None))
  /\ forall symbol,
       In symbol (symbolsForExchange [("XUSDT", ["alpha"; "beta"])]
                                     (sample_venue "alpha" 1 None))
       <-> exists ex', In ex' sample_exchanges
                       /\ name ex' = name (sample_venue "alpha" 1 None)
                       /\ trades ex' symbol.
Proof.
  apply (venue_is_asked_for_the_symbols_it_listed sample_exchanges
           [("XUSDT", ["alpha"; "beta"])] (sample_venue "alpha" 1 None)).
  vm_compute. reflexivity.
Defined.

(** ** Price collection *)

Lemma quoted_set_price prices s e p s' e' p' :
  quoted (set_price prices s e p) s' e' p' ->
  (s' = s /\ e' = e /\ p' = p) \/ quoted prices s' e' p'.
Proof.
  unfold quoted, set_price. intros (inner & El & Ei).
  rewrite lookup_map_set in El.
  destruct (String.eqb s' s) eqn:Es; [|right; eauto].
  apply String.eqb_eq in Es. subst s'. injection El as <-.
  rewrite lookup_map_set in Ei.
  destruct (String.eqb e' e) eqn:Ee.
  - apply String.eqb_eq in Ee. subst e'. injection Ei as <-. auto.
  - right. destruct (lookup prices s) as [inner|]; [eauto|discriminate].
Qed.

Lemma quoted_fold_set_price exchange res :
  forall prices s e p,
  quoted (fold_left (fun acc '(symbol, price) =>
                       set_price acc symbol exchange price) res prices) s e p ->
  (e = exchange /\ In (s, p) res) \/ quoted prices s e p.
Proof.
  induction res as [|[sym price] r IH]; intros prices s e p; cbn [fold_left].
  - auto.
  - intro H. destruct (IH _ _ _ _ H) as [[He Hin]|Hq].
    + left. split; [exact He|right; exact Hin].
    + destruct (quoted_set_price _ _ _ _ _ _ _ Hq) as [(-> & -> & ->)|Hq'].
      * left. split; [reflexivity|left; reflexivity].
      * right. exact Hq'.
Qed.

Lemma collectPrices_from_quoted exs pairMap :
  forall prices out,
  collectPrices_from exs pairMap prices = Fulfilled out ->
  forall s e p,
  quoted out s e p ->
  quoted prices s e p
  \/ exists ex res,
       In ex exs /\ name ex = e
       /\ symbolsForExchange pairMap ex <> []
       /\ getPrices ex (symbolsForExchange pairMap ex) = Fulfilled res
       /\ In (s, p) res.
Proof.
  induction exs as [|ex r IH]; intros prices out; cbn [collectPrices_from].
  - intro E. injection E as <-. auto.
  - destruct (symbolsForExchange pairMap ex) as [|s0 syms] eqn:Es.
    + intros E s e p Hq. destruct (IH _ _ E _ _ _ Hq) as [H|(ex' & res & H)].
      * left. exact H.
      * right. exists ex', res. cbn [In]. tauto.
    + destruct (getPrices ex (s0 :: syms)) as [res|] eqn:Eg; [|discriminate].
      intros E s e p Hq. destruct (IH _ _ E _ _ _ Hq) as [H|(ex' & res' & H)].
      * destruct (quoted_fold_set_price _ _ _ _ _ _ H) as [[He Hin]|H'].
        -- right. exists ex, res. rewrite Es.
           repeat split; auto; try discriminate. left. reflexivity.
        -- left. exact H'.
      * right. exists ex', res'. cbn [In]. tauto.
Qed.

Lemma collectPrices_from_failed exs pairMap :
  forall prices,
  collectPrices_from exs pairMap prices = Failed
  <-> exists ex, In ex exs /\ symbolsForExchange pairMap ex <> []
                 /\ getPrices ex (symbolsForExchange pairMap ex) = Failed.
Proof.
  induction exs as [|ex r IH]; intros prices; cbn [collectPrices_from].
  - split; [discriminate|]. intros (ex & [] & _).
  - destruct (symbolsForExchange pairMap ex) as [|s0 syms] eqn:Es.
    + rewrite IH. split.
      * intros (ex' & H). exists ex'. cbn [In]. tauto.
      * intros (ex' & [<-|Hin] & Hne & Hf).
        -- rewrite Es in Hne. congruence.
        -- eauto.
    + destruct (getPrices ex (s0 :: syms)) as [res|] eqn:Eg.
      * rewrite IH. split.
        -- intros (ex' & H). exists ex'. cbn [In]. tauto.
        -- intros (ex' & [<-|Hin] & Hne & Hf).
           ++ rewrite Es in Hf. congruence.
           ++ eauto.
      * split; [intros _|reflexivity].
        exists ex. rewrite Es. repeat split; auto; try discriminate.
        left. reflexivity.
Qed.

(** X9: every price in the table [collectPrices] builds was reported by a
    venue of the name it is filed under, in answer to the request for that
    venue's own symbols; a venue that listed no symbol is never asked and
    contributes nothing. *)
Theorem collected_prices_come_from_their_venue
    (exchanges : list ExchangeConfig) (pairMap : list (string * list string))
    (prices : PricesBySymbol) (symbol exchange : string) (price : num) :
  collectPrices exchanges pairMap = Fulfilled prices ->
  quoted prices symbol exchange price ->
  exists ex res,
    In ex exchanges /\ name ex = exchange
    /\ symbolsForExchange pairMap ex <> []
    /\ getPrices ex (symbolsForExchange pairMap ex) = Fulfilled res
    /\ In (symbol, price) res.
Proof.
  unfold collectPrices. intros E Hq.
  destruct (collectPrices_from_quoted _ _ _ _ E _ _ _ Hq) as [H|H]; [|exact H].
  destruct H as (inner & El & _). discriminate.
Qed.

Lemma collected_prices_come_from_their_venue_witness :
  exists ex res,
    In ex sample_exchanges /\ name ex = "beta"
    /\ symbolsForExchange [("XUSDT", ["alpha"; "beta"])] ex <> []
    /\ getPrices ex (symbolsForExchange [("XUSDT", ["alpha"; "beta"])] ex)
       = Fulfilled res
    /\ In ("XUSDT", Fin 1.2) res.
Proof.
  apply (collected_prices_come_from_their_venue sample_exchanges
           [("XUSDT", ["alpha"; "beta"])]
           [("XUSDT", [("alpha", Fin 1); ("beta", Fin 1.2)])]
           "XUSDT" "beta" (Fin 1.2)).
  - vm_compute. reflexivity.
  - exists [("alpha", Fin 1); ("beta", Fin 1.2)]. split; reflexivity.
Defined.

(** X10: the scan rejects only when a pair discovery rejects or when the
    price request of a venue that listed some symbol rejects; failures of
    24h tickers, order books and currency lookups never make it reject. *)
Theorem scan_rejects_only_on_pair_or_price_failure
    (exchanges : list ExchangeConfig) (env : Env)
    (minDiffPercent : option num) :
  getArbitrageOpportunities exchanges env minDiffPercent = Failed
  <-> (exists ex, In ex exchanges /\ getPairs ex = Failed)
      \/ (exists pairMap ex,
            collectPairs exchanges = Fulfilled pairMap
            /\ In ex exchanges
            /\ symbolsForExchange pairMap ex <> []
            /\ getPrices ex (symbolsForExchange pairMap ex) = Failed).
Proof.
  unfold getArbitrageOpportunities.
  destruct (collectPairs exchanges) as [pairMap|] eqn:EP.
  - destruct (collectPairs_listed _ _ EP) as (_ & _ & _ & Hok).
    destruct (collectPrices exchanges pairMap) as [prices|] eqn:EQ.
    + split; [discriminate|].
      intros [(ex & Hin & Hf)|(pm & ex & Epm & Hin & Hne & Hf)].
      * exfalso. exact (Hok ex Hin Hf).
      * exfalso. injection Epm as <-.
        assert (F : collectPrices exchanges pairMap = Failed).
        { apply collectPrices_from_failed. eauto. }
        congruence.
    + split; [intros _|reflexivity]. right.
      apply collectPrices_from_failed in EQ. destruct EQ as (ex & H).
      exists pairMap, ex. tauto.
  - split; [intros _|reflexivity]. left.
    unfold collectPairs in EP.
    destruct (Promise_all _) as [pbe|] eqn:E; [discriminate|].
    apply Promise_all_failed_iff in E. apply in_map_iff in E.
    destruct E as (ex & Ef & Hin). exists ex. split; [exact Hin|].
    destruct (getPairs ex); [discriminate|reflexivity].
Qed.

(** ** What the validator returns *)

Lemma volume_reasons_nil env buyEx sellEx buyVol sellVol :
  volume_reasons env buyEx sellEx buyVol sellVol = [] ->
  exists bv sv,
    buyVol = Some bv /\ sellVol = Some sv
    /\ lt bv (Fin (MIN_24H_VOLUME env)) = false
    /\ lt sv (Fin (MIN_24H_VOLUME env)) = false.
Proof.
  unfold volume_reasons.
  destruct buyVol as [bv|]; [|discriminate].
  destruct sellVol as [sv|]; [|discriminate].
  cbn [app].
  destruct (lt bv _) eqn:Eb; [discriminate|].
  destruct (lt sv _) eqn:Es; [discriminate|].
  intros _. exists bv, sv. auto.
Qed.

Lemma capability_reasons_nil buyEx sellEx :
  capability_reasons buyEx sellEx = [] ->
  getOrderBook buyEx <> None /\ getOrderBook sellEx <> None.
Proof.
  unfold capability_reasons.
  destruct (getOrderBook buyEx); [|discriminate].
  destruct (getOrderBook sellEx); [|discriminate].
  intros _. split; discriminate.
Qed.

Lemma slippage_reasons_nil env buySlippage sellSlippage :
  slippage_reasons env buySlippage sellSlippage = [] ->
  gt buySlippage (Fin (MAX_SLIPPAGE_PERCENT env)) = false
  /\ gt sellSlippage (Fin (MAX_SLIPPAGE_PERCENT env)) = false.
Proof.
  unfold slippage_reasons.
  destruct (gt buySlippage _); [discriminate|].
  destruct (gt sellSlippage _); [discriminate|].
  auto.
Qed.

(** The record a validated candidate comes back as. *)
Lemma validateOne_validated_record exchanges env tickers currencies opp log o :
  validateOne exchanges env tickers currencies opp = (log, Some o) ->
  is_validated o = true ->
  exists buyEx sellEx buyBook sellBook ask bid buyFill sellFill,
    lookup (exchangeLookup exchanges) (leg_exchange (opp_buy opp)) = Some buyEx
    /\ lookup (exchangeLookup exchanges) (leg_exchange (opp_sell opp)) = Some sellEx
    /\ (volume_reasons env buyEx sellEx
          (cached_volume tickers (name buyEx) (opp_symbol opp))
          (cached_volume tickers (name sellEx) (opp_symbol opp))
        ++ capability_reasons buyEx sellEx)%list = []
    /\ safeOrderBook buyEx (opp_symbol opp) = Some buyBook
    /\ safeOrderBook sellEx (opp_symbol opp) = Some sellBook
    /\ option_map fst (hd_error (asks buyBook)) = Some (Fin ask)
    /\ option_map fst (hd_error (bids sellBook)) = Some (Fin bid)
    /\ vwapBuyForQuoteAmount buyBook (Fin (DEFAULT_TRADE_AMOUNT env)) = Some buyFill
    /\ vwapSellForBaseAmount sellBook (fill_baseAmount buyFill) = Some sellFill
    /\ slippage_reasons env
         (buySlippageOf (fill_executablePrice buyFill) (Fin ask))
         (sellSlippageOf (Fin bid) (fill_executablePrice sellFill)) = []
    /\ (let transfer :=
          validateTransferabilityFromCache
            (cached_currencies currencies (name buyEx))
            (cached_currencies currencies (name sellEx))
            buyEx sellEx (baseFromSymbolUsdt (opp_symbol opp)) in
        (transfer_status transfer = ok \/ transfer_status transfer = unavailable)
        /\ o = {| opp_symbol := opp_symbol opp;
                  opp_min := opp_min opp;
                  opp_max := opp_max opp;
                  opp_diff := opp_diff opp;
                  opp_netDiff :=
                    toFixed2
                      (mul (div (realProfitOf env opp sellFill)
                                (mul (Fin (DEFAULT_TRADE_AMOUNT env))
                                     (add (Fin 1)
                                          (div (feePercentApplied (opp_buy opp))
                                               (Fin 100)))))
                           (Fin 100));
                  opp_buy := opp_buy opp;
                  opp_sell := opp_sell opp;
                  opp_exchanges := opp_exchanges opp;
                  tradeAmountUsd := Some (Fin (DEFAULT_TRADE_AMOUNT env));
                  realProfitUsd := Some (toFixed2 (realProfitOf env opp sellFill));
                  opp_validation :=
                    Some {| validation_status := validated;
                            validation_reasons := None;
                            validation_buy :=
                              Some (buildLegValidationRequired (Fin ask)
                                      (fill_executablePrice buyFill)
                                      (buySlippageOf (fill_executablePrice buyFill)
                                                     (Fin ask))
                                      (cached_volume tickers (name buyEx)
                                                     (opp_symbol opp)));
                            validation_sell :=
                              Some (buildLegValidationRequired (Fin bid)
                                      (fill_executablePrice sellFill)
                                      (sellSlippageOf (Fin bid)
                                                      (fill_executablePrice sellFill))
                                      (cached_volume tickers (name sellEx)
                                                     (opp_symbol opp)));
                            validation_transfer := Some transfer |} |}).
Proof.
  unfold validateOne. intros H Hv.
  repeat (split_match H;
          try (injection H as <- <-; cbn in Hv; discriminate);
          try discriminate).
  all: injection H as <- <-.
  all: try (cbn in Hv; discriminate).
  all: do 8 eexists; repeat split; try eassumption; try reflexivity.
  all: auto.
Qed.

(** ** The ticker and currency pre-fetch *)

Lemma set_add_In s x y : In y (set_add s x) <-> In y s \/ y = x.
Proof.
  unfold set_add. destruct (includes s x) eqn:E.
  - apply includes_In in E. split; [auto|]. intros [H | ->]; assumption.
  - rewrite in_app_iff. cbn [In]. split.
    + intros [H|[H|[]]]; auto.
    + intros [H|H]; auto.
Qed.

Lemma set_add_NoDup s x : NoDup s -> NoDup (set_add s x).
Proof.
  intro H. unfold set_add. destruct (includes s x) eqn:E; [exact H|].
  assert (Hn : ~ In x s).
  { intro Hin. apply includes_In in Hin. congruence. }
  clear E. induction s as [|a r IH]; cbn [app].
  - constructor; [intros []|constructor].
  - inversion H as [|? ? Ha Hr]; subst. constructor.
    + rewrite in_app_iff. cbn [In]. intros [Hin|[Hin|[]]]; [exact (Ha Hin)|].
      subst a. apply Hn. left. reflexivity.
    + apply IH; [exact Hr|]. intro Hin. apply Hn. right. exact Hin.
Qed.

Lemma addSymbol_spec (m : list (string * list string)) n s :
  (forall n' s', filed (addSymbol m n s) n' s'
                 <-> filed m n' s' \/ (n' = n /\ s' = s))
  /\ (NoDup (keys m) -> NoDup (keys (addSymbol m n s)))
  /\ ((forall k l, lookup m k = Some l -> NoDup l) ->
      forall k l, lookup (addSymbol m n s) k = Some l -> NoDup l).
Proof.
  unfold addSymbol. destruct (lookup m n) as [set|] eqn:E.
  - split; [|split].
    + intros n' s'. unfold filed. rewrite lookup_map_set.
      destruct (String.eqb n' n) eqn:En.
      * apply String.eqb_eq in En. subst n'. rewrite E. split.
        -- intros (l & El & Hin). injection El as <-.
           apply set_add_In in Hin. destruct Hin as [Hin|Hin]; [eauto|subst s'; auto].
        -- intros [(l & El & Hin)|[_ ->]].
           ++ injection El as <-. eexists. split; [reflexivity|].
              apply set_add_In. auto.
           ++ eexists. split; [reflexivity|]. apply set_add_In. auto.
      * apply String.eqb_neq in En. split; [auto|].
        intros [H|[H _]]; [exact H|contradiction].
    + apply map_set_NoDup.
    + intros Hnd k l. rewrite lookup_map_set.
      destruct (String.eqb k n); [|apply Hnd].
      intro H. injection H as <-. apply set_add_NoDup. exact (Hnd _ _ E).
  - split; [|split].
    + intros n' s'. unfold filed. rewrite lookup_map_set.
      destruct (String.eqb n' n) eqn:En.
      * apply String.eqb_eq in En. subst n'. rewrite E. split.
        -- intros (l & El & Hin). injection El as <-.
           destruct Hin as [Hin|[]]. subst s'. auto.
        -- intros [(l & El & _)|[_ ->]]; [discriminate|].
           eexists. split; [reflexivity|]. left. reflexivity.
      * apply String.eqb_neq in En. split; [auto|].
        intros [H|[H _]]; [exact H|contradiction].
    + apply map_set_NoDup.
    + intros Hnd k l. rewrite lookup_map_set.
      destruct (String.eqb k n); [|apply Hnd].
      intro H. injection H as <-. constructor; [intros []|constructor].
Qed.

(** One leg of one candidate in the loop that fills [symbolsByExchange]. *)
Lemma addSymbol_leg exchanges (m : list (string * list string)) legName s :
  let m' :=
    match lookup (exchangeLookup exchanges) legName with
    | Some ex =>
        match getTickers24h ex with
        | Some _ => addSymbol m (name ex) s
        | None => m
        end
    | None => m
    end in
  (forall n' s',
     filed m' n' s'
     <-> filed m n' s'
         \/ (s' = s /\ exists ex,
               lookup (exchangeLookup exchanges) legName = Some ex
               /\ name ex = n' /\ getTickers24h ex <> None))
  /\ (NoDup (keys m) -> NoDup (keys m'))
  /\ ((forall k l, lookup m k = Some l -> NoDup l) ->
      forall k l, lookup m' k = Some l -> NoDup l).
Proof.
  cbv zeta.
  destruct (lookup (exchangeLookup exchanges) legName) as [ex|] eqn:El.
  - destruct (getTickers24h ex) as [f|] eqn:Et.
    + destruct (addSymbol_spec m (name ex) s) as (A1 & A2 & A3).
      split; [|split]; [|exact A2|exact A3].
      intros n' s'. rewrite A1. split.
      * intros [H|[Hn Hs]]; [left; exact H|]. right. split; [exact Hs|].
        exists ex. repeat split; [congruence|congruence].
      * intros [H|[Hs (ex' & E' & Hn & _)]]; [left; exact H|]. right.
        injection E' as <-. auto.
    + split; [|split]; auto. intros n' s'. split; [auto|].
      intros [H|[_ (ex' & E' & _ & Hne)]]; [exact H|].
      injection E' as <-. congruence.
  - split; [|split]; auto. intros n' s'. split; [auto|].
    intros [H|[_ (ex' & E' & _)]]; [exact H|discriminate].
Qed.

Lemma symbolsByExchange_fold exchanges (opportunities : list ArbitrageOpportunity) :
  forall map0 : list (string * list string),
  let map' :=
    fold_left
      (fun (map0 : list (string * list string)) opp =>
         let lk := exchangeLookup exchanges in
         let map1 :=
           match lookup lk (leg_exchange (opp_buy opp)) with
           | Some buy =>
               match getTickers24h buy with
               | Some _ => addSymbol map0 (name buy) (opp_symbol opp)
               | None => map0
               end
           | None => map0
           end in
         match lookup lk (leg_exchange (opp_sell opp)) with
         | Some sell =>
             match getTickers24h sell with
             | Some _ => addSymbol map1 (name sell) (opp_symbol opp)
             | None => map1
             end
         | None => map1
         end)
      opportunities map0 in
  (forall n s,
     filed map' n s
     <-> filed map0 n s
         \/ exists opp ex,
              In opp opportunities /\ opp_symbol opp = s
              /\ (lookup (exchangeLookup exchanges) (leg_exchange (opp_buy opp))
                  = Some ex
                  \/ lookup (exchangeLookup exchanges) (leg_exchange (opp_sell opp))
                     = Some ex)
              /\ name ex = n /\ getTickers24h ex <> None)
  /\ (NoDup (keys map0) -> NoDup (keys map'))
  /\ ((forall k l, lookup map0 k = Some l -> NoDup l) ->
      forall k l, lookup map' k = Some l -> NoDup l).
Proof.
  cbv zeta.
  induction opportunities as [|opp r IH]; intros map0; cbn [fold_left].
  - split; [|split]; auto. intros n s. split; [auto|].
    intros [H|(opp & ex & [] & _)]. exact H.
  - destruct (addSymbol_leg exchanges map0 (leg_exchange (opp_buy opp))
                            (opp_symbol opp)) as (B1 & B2 & B3).
    cbv zeta in B1, B2, B3.
    match type of B1 with
    | forall n' s', filed ?m1 _ _ <-> _ =>
        destruct (addSymbol_leg exchanges m1 (leg_exchange (opp_sell opp))
                                (opp_symbol opp)) as (S1 & S2 & S3)
    end.
    cbv zeta in S1, S2, S3.
    match goal with
    | |- context [fold_left _ r ?m] => destruct (IH m) as (I1 & I2 & I3)
    end.
    clear IH.
    split; [|split];
      [|intro H; apply I2, S2, B2, H|intro H; apply I3, S3, B3, H].
    intros n s. rewrite I1, S1, B1. clear. split.
    + intros [[[H|[-> (ex & El & Hn & Ht)]]|[-> (ex & El & Hn & Ht)]]
             |(o & ex & Hin & Hrest)].
      * left. exact H.
      * right. exists opp, ex. cbn [In]. repeat split; auto.
      * right. exists opp, ex. cbn [In]. repeat split; auto.
      * right. exists o, ex. cbn [In]. tauto.
    + intros [H|(o & ex & [Ho|Hin] & Hs & [El|El] & Hn & Ht)].
      * auto.
      * subst o. left. left. right. split; [congruence|]. eauto.
      * subst o. left. right. split; [congruence|]. eauto.
      * right. exists o, ex. auto.
      * right. exists o, ex. auto.
Qed.

Lemma tickersCache_fold exchanges (all entries : list (string * list string)) :
  (forall e, In e entries -> In e all) ->
  forall cache : list (string * list (string * Ticker24h)),
  (forall n tickers, lookup cache n = Some tickers ->
     exists ex fetch symbols,
       In (n, symbols) all
       /\ lookup (exchangeLookup exchanges) n = Some ex
       /\ getTickers24h ex = Some fetch
       /\ (fetch symbols = Fulfilled tickers
           \/ (fetch symbols = Failed /\ tickers = []))) ->
  forall n tickers,
  lookup
    (fold_left
       (fun cache '(exchangeName, symbolsSet) =>
          match lookup (exchangeLookup exchanges) exchangeName with
          | Some ex =>
              match getTickers24h ex with
              | Some fetch =>
                  match fetch symbolsSet with
                  | Fulfilled tickers => map_set cache exchangeName tickers
                  | Failed => map_set cache exchangeName []
                  end
              | None => cache
              end
          | None => cache
          end) entries cache) n = Some tickers ->
  exists ex fetch symbols,
    In (n, symbols) all
    /\ lookup (exchangeLookup exchanges) n = Some ex
    /\ getTickers24h ex = Some fetch
    /\ (fetch symbols = Fulfilled tickers
        \/ (fetch symbols = Failed /\ tickers = [])).
Proof.
  induction entries as [|[n0 set] r IH]; intros Hall cache Hc n tickers;
    cbn [fold_left]; [apply Hc|].
  apply IH; [intros e He; apply Hall; right; exact He|].
  intros n1 t1.
  destruct (lookup (exchangeLookup exchanges) n0) as [ex|] eqn:El; [|apply Hc].
  destruct (getTickers24h ex) as [fetch|] eqn:Et; [|apply Hc].
  destruct (fetch set) as [data|] eqn:Ef.
  - rewrite lookup_map_set.
    destruct (String.eqb n1 n0) eqn:E; [|apply Hc].
    apply String.eqb_eq in E. subst n1. intro Ev. injection Ev as <-.
    exists ex, fetch, set. repeat split; auto. apply Hall. left. reflexivity.
  - rewrite lookup_map_set.
    destruct (String.eqb n1 n0) eqn:E; [|apply Hc].
    apply String.eqb_eq in E. subst n1. intro Ev. injection Ev as <-.
    exists ex, fetch, set. repeat split; auto. apply Hall. left. reflexivity.
Qed.

Lemma symbolsByExchange_spec exchanges opportunities :
  (forall n s,
     filed (symbolsByExchange exchanges opportunities) n s
     <-> exists opp ex,
           In opp opportunities /\ opp_symbol opp = s
           /\ (lookup (exchangeLookup exchanges) (leg_exchange (opp_buy opp))
               = Some ex
               \/ lookup (exchangeLookup exchanges) (leg_exchange (opp_sell opp))
                  = Some ex)
           /\ name ex = n /\ getTickers24h ex <> None)
  /\ NoDup (keys (symbolsByExchange exchanges opportunities))
  /\ (forall k l, lookup (symbolsByExchange exchanges opportunities) k = Some l ->
      NoDup l).
Proof.
  destruct (symbolsByExchange_fold exchanges opportunities []) as (I1 & I2 & I3).
  cbv zeta in I1, I2, I3. fold (symbolsByExchange exchanges opportunities) in *.
  split; [|split].
  - intros n s. rewrite I1. split; [|auto].
    intros [(l & El & _)|H]; [discriminate|exact H].
  - apply I2. constructor.
  - apply I3. intros k l H. discriminate.
Qed.

Lemma tickersCache_lookup exchanges opportunities n tickers :
  lookup (tickersCache exchanges opportunities) n = Some tickers ->
  exists ex fetch symbols,
    lookup (symbolsByExchange exchanges opportunities) n = Some symbols
    /\ lookup (exchangeLookup exchanges) n = Some ex
    /\ getTickers24h ex = Some fetch
    /\ (fetch symbols = Fulfilled tickers
        \/ (fetch symbols = Failed /\ tickers = [])).
Proof.
  intro H. unfold tickersCache in H.
  destruct (tickersCache_fold exchanges
              (symbolsByExchange exchanges opportunities)
              (symbolsByExchange exchanges opportunities)
              (fun e He => He) [] ) with (n := n) (tickers := tickers)
    as (ex & fetch & symbols & Hin & El & Et & Hf).
  - intros n0 t0 E. discriminate.
  - exact H.
  - exists ex, fetch, symbols. repeat split; auto.
    apply In_lookup; [|exact Hin].
    apply (symbolsByExchange_spec exchanges opportunities).
Qed.

Lemma safeOrderBook_some ex symbol book :
  safeOrderBook ex symbol = Some book ->
  exists fetch, getOrderBook ex = Some fetch
                /\ fetch symbol = Fulfilled (Some book).
Proof.
  unfold safeOrderBook. destruct (getOrderBook ex) as [fetch|]; [|discriminate].
  destruct (fetch symbol) as [[b|]|] eqn:E; try discriminate.
  intro H. injection H as <-. eauto.
Qed.

(** What the pre-fetch holds for a leg whose volume is known. *)
Lemma cached_volume_some exchanges opportunities opp legName ex v :
  In opp opportunities ->
  (legName = leg_exchange (opp_buy opp) \/ legName = leg_exchange (opp_sell opp)) ->
  lookup (exchangeLookup exchanges) legName = Some ex ->
  cached_volume (tickersCache exchanges opportunities) (name ex) (opp_symbol opp)
  = Some v ->
  exists fetch symbols tickers ticker,
    getTickers24h ex = Some fetch
    /\ lookup (symbolsByExchange exchanges opportunities) (name ex) = Some symbols
    /\ NoDup symbols /\ In (opp_symbol opp) symbols
    /\ fetch symbols = Fulfilled tickers
    /\ lookup tickers (opp_symbol opp) = Some ticker
    /\ quoteVolume24h ticker = Some v.
Proof.
  intros Hin Hleg El Hv.
  pose proof (exchangeLookup_name _ _ _ El) as Hn.
  unfold cached_volume in Hv.
  destruct (lookup (tickersCache exchanges opportunities) (name ex))
    as [tickers|] eqn:Ec; [|discriminate].
  destruct (lookup tickers (opp_symbol opp)) as [ticker|] eqn:Et; [|discriminate].
  destruct (tickersCache_lookup _ _ _ _ Ec)
    as (ex' & fetch & symbols & Es & El' & Ef & Hf).
  rewrite Hn, El in El'. injection El' as <-.
  destruct Hf as [Hf|[_ ->]]; [|discriminate].
  destruct (symbolsByExchange_spec exchanges opportunities) as (S1 & _ & S3).
  exists fetch, symbols, tickers, ticker. repeat split; auto.
  - exact (S3 _ _ Es).
  - destruct (proj2 (S1 (name ex) (opp_symbol opp))) as (l & El2 & Hl).
    + exists opp, ex. repeat split; auto; [|congruence].
      destruct Hleg as [->| ->]; auto.
    + congruence.
Qed.

(** X11: the validator returns candidates, and alters nothing of one but
    its net diff, trade amount, real profit and validation record: symbol,
    min, max, gross diff, both legs and the quotes are those of a candidate;
    the trade amount is DEFAULT_TRADE_AMOUNT, the status is [validated] and
    no rejection reason is attached. *)
Theorem returned_opportunity_is_an_annotated_candidate
    (exchanges : list ExchangeConfig) (env : Env)
    (candidates : list ArbitrageOpportunity) (o : ArbitrageOpportunity) :
  In o (validateOpportunities exchanges env candidates) ->
  exists c,
    In c candidates
    /\ opp_symbol o = opp_symbol c
    /\ opp_min o = opp_min c /\ opp_max o = opp_max c
    /\ opp_diff o = opp_diff c
    /\ opp_buy o = opp_buy c /\ opp_sell o = opp_sell c
    /\ opp_exchanges o = opp_exchanges c
    /\ tradeAmountUsd o = Some (Fin (DEFAULT_TRADE_AMOUNT env))
    /\ status_of o = Some validated
    /\ option_map validation_reasons (opp_validation o) = Some None.
Proof.
  intro Hin.
  destruct (validateOpportunities_In _ _ _ _ Hin) as (c & log & Hc & Ev & Hv).
  destruct (validateOne_validated_record _ _ _ _ _ _ _ Ev Hv)
    as (buyEx & sellEx & buyBook & sellBook & ask & bid & buyFill & sellFill
        & _ & _ & _ & _ & _ & _ & _ & _ & _ & _ & _ & ->).
  exists c. cbn. repeat split; auto.
Qed.

Lemma returned_opportunity_is_an_annotated_candidate_witness :
  exists c,
    In c [sample_candidate]
    /\ opp_symbol sample_opportunity = opp_symbol c
    /\ opp_min sample_opportunity = opp_min c
    /\ opp_max sample_opportunity = opp_max c
    /\ opp_diff sample_opportunity = opp_diff c
    /\ opp_buy sample_opportunity = opp_buy c
    /\ opp_sell sample_opportunity = opp_sell c
    /\ opp_exchanges sample_opportunity = opp_exchanges c
    /\ tradeAmountUsd sample_opportunity
       = Some (Fin (DEFAULT_TRADE_AMOUNT default_env))
    /\ status_of sample_opportunity = Some validated
    /\ option_map validation_reasons (opp_validation sample_opportunity)
       = Some None.
Proof.
  apply (returned_opportunity_is_an_annotated_candidate
           sample_exchanges default_env [sample_candidate] sample_opportunity).
  vm_compute. left. reflexivity.
Defined.

(** X12: every opportunity the validator returns carries, for each leg, a
    24h volume that is not below MIN_24H_VOLUME, a finite best price, a
    strictly positive executable price and a slippage, computed from these
    two, that is not above MAX_SLIPPAGE_PERCENT; its transfer status is
    [ok] or [unavailable]. *)
Theorem returned_opportunity_passed_volume_and_slippage
    (exchanges : list ExchangeConfig) (env : Env)
    (candidates : list ArbitrageOpportunity) (o : ArbitrageOpportunity) :
  In o (validateOpportunities exchanges env candidates) ->
  exists v buyLeg sellLeg buyVol sellVol ask bid buyExec sellExec,
    opp_validation o = Some v
    /\ validation_buy v = Some buyLeg /\ validation_sell v = Some sellLeg
    /\ volume24hQuote buyLeg = Some buyVol
    /\ lt buyVol (Fin (MIN_24H_VOLUME env)) = false
    /\ volume24hQuote sellLeg = Some sellVol
    /\ lt sellVol (Fin (MIN_24H_VOLUME env)) = false
    /\ bestPrice buyLeg = Some (Fin ask)
    /\ bestPrice sellLeg = Some (Fin bid)
    /\ executablePrice buyLeg = Some buyExec /\ positive_finite buyExec
    /\ executablePrice sellLeg = Some sellExec /\ positive_finite sellExec
    /\ slippagePercent buyLeg = Some (buySlippageOf buyExec (Fin ask))
    /\ gt (buySlippageOf buyExec (Fin ask))
          (Fin (MAX_SLIPPAGE_PERCENT env)) = false
    /\ slippagePercent sellLeg = Some (sellSlippageOf (Fin bid) sellExec)
    /\ gt (sellSlippageOf (Fin bid) sellExec)
          (Fin (MAX_SLIPPAGE_PERCENT env)) = false
    /\ (transfer_status_of o = Some ok
        \/ transfer_status_of o = Some unavailable).
Proof.
  intro Hin.
  destruct (validateOpportunities_In _ _ _ _ Hin) as (c & log & Hc & Ev & Hv).
  destruct (validateOne_validated_record _ _ _ _ _ _ _ Ev Hv)
    as (buyEx & sellEx & buyBook & sellBook & ask & bid & buyFill & sellFill
        & _ & _ & Hup & _ & _ & _ & _ & Eb & Es & Hsl & Htr & ->).
  apply app_eq_nil in Hup. destruct Hup as [Hvol _].
  destruct (volume_reasons_nil _ _ _ _ _ Hvol) as (bv & sv & Ebv & Esv & Lb & Ls).
  destruct (slippage_reasons_nil _ _ _ Hsl) as [Gb Gs].
  pose proof (vwapBuy_positive buyBook (DEFAULT_TRADE_AMOUNT env)) as Pb.
  rewrite Eb in Pb. destruct Pb as [Pb1 Pb2].
  assert (Ps : positive_finite (fill_executablePrice sellFill)).
  { destruct (fill_baseAmount buyFill) as [| | |b] eqn:Eq; try contradiction.
    pose proof (vwapSell_positive sellBook b) as Ps.
    rewrite Es in Ps. exact (proj2 Ps). }
  cbn [opp_validation transfer_status_of validation_transfer option_map].
  eexists _, _, _, bv, sv, ask, bid, _, _.
  split; [reflexivity|]. cbn [validation_buy validation_sell].
  split; [reflexivity|]. split; [reflexivity|].
  cbn [buildLegValidationRequired volume24hQuote bestPrice executablePrice
       slippagePercent].
  repeat split; try assumption; try reflexivity.
  destruct Htr as [-> | ->]; auto.
Qed.

Lemma returned_opportunity_passed_volume_and_slippage_witness :
  exists v buyLeg sellLeg buyVol sellVol ask bid buyExec sellExec,
    opp_validation sample_opportunity = Some v
    /\ validation_buy v = Some buyLeg /\ validation_sell v = Some sellLeg
    /\ volume24hQuote buyLeg = Some buyVol
    /\ lt buyVol (Fin (MIN_24H_VOLUME default_env)) = false
    /\ volume24hQuote sellLeg = Some sellVol
    /\ lt sellVol (Fin (MIN_24H_VOLUME default_env)) = false
    /\ bestPrice buyLeg = Some (Fin ask)
    /\ bestPrice sellLeg = Some (Fin bid)
    /\ executablePrice buyLeg = Some buyExec /\ positive_finite buyExec
    /\ executablePrice sellLeg = Some sellExec /\ positive_finite sellExec
    /\ slippagePercent buyLeg = Some (buySlippageOf buyExec (Fin ask))
    /\ gt (buySlippageOf buyExec (Fin ask))
          (Fin (MAX_SLIPPAGE_PERCENT default_env)) = false
    /\ slippagePercent sellLeg = Some (sellSlippageOf (Fin bid) sellExec)
    /\ gt (sellSlippageOf (Fin bid) sellExec)
          (Fin (MAX_SLIPPAGE_PERCENT default_env)) = false
    /\ (transfer_status_of sample_opportunity = Some ok
        \/ transfer_status_of sample_opportunity = Some unavailable).
Proof.
  apply (returned_opportunity_passed_volume_and_slippage
           sample_exchanges default_env [sample_candidate] sample_opportunity).
  vm_compute. left. reflexivity.
Defined.

(** X13: each leg of a returned opportunity names a venue of the registry
    that offers both order books and 24h tickers; its order-book request
    for the symbol answered with a book, and its ticker request, issued for
    a list that contains the symbol, fulfilled with a ticker that carries a
    24h volume for the symbol.  A venue lacking either capability, or whose
    ticker request fails, is never a leg of a returned opportunity. *)
Theorem returned_legs_have_books_and_tickers
    (exchanges : list ExchangeConfig) (env : Env)
    (candidates : list ArbitrageOpportunity) (o : ArbitrageOpportunity)
    (leg : OpportunityLeg) :
  In o (validateOpportunities exchanges env candidates) ->
  leg = opp_buy o \/ leg = opp_sell o ->
  exists ex fetchBook book fetchTickers symbols tickers ticker volume,
    In ex exchanges /\ name ex = leg_exchange leg
    /\ getOrderBook ex = Some fetchBook
    /\ fetchBook (opp_symbol o) = Fulfilled (Some book)
    /\ getTickers24h ex = Some fetchTickers
    /\ lookup (symbolsByExchange exchanges candidates) (name ex) = Some symbols
    /\ In (opp_symbol o) symbols
    /\ fetchTickers symbols = Fulfilled tickers
    /\ lookup tickers (opp_symbol o) = Some ticker
    /\ quoteVolume24h ticker = Some volume.
Proof.
  intros Hin Hleg.
  destruct (validateOpportunities_In _ _ _ _ Hin) as (c & log & Hc & Ev & Hv).
  destruct (validateOne_validated_record _ _ _ _ _ _ _ Ev Hv)
    as (buyEx & sellEx & buyBook & sellBook & ask & bid & buyFill & sellFill
        & Lb & Ls & Hup & Bb & Bs & _ & _ & _ & _ & _ & _ & Eo).
  apply app_eq_nil in Hup. destruct Hup as [Hvol _].
  destruct (volume_reasons_nil _ _ _ _ _ Hvol) as (bv & sv & Ebv & Esv & _).
  assert (Hsym : opp_symbol o = opp_symbol c) by (rewrite Eo; reflexivity).
  assert (Hbuy : opp_buy o = opp_buy c) by (rewrite Eo; reflexivity).
  assert (Hsell : opp_sell o = opp_sell c) by (rewrite Eo; reflexivity).
  rewrite Hsym. clear Eo.
  destruct Hleg as [-> | ->].
  - rewrite Hbuy.
    destruct (safeOrderBook_some _ _ _ Bb) as (fb & Gb & Fb).
    destruct (cached_volume_some exchanges candidates c _ buyEx bv Hc
                (or_introl eq_refl) Lb Ebv)
      as (fetch & symbols & tickers & ticker & T1 & T2 & _ & T3 & T4 & T5 & T6).
    exists buyEx, fb, buyBook, fetch, symbols, tickers, ticker, bv.
    repeat split; auto.
    + exact (exchangeLookup_in _ _ _ Lb).
    + exact (exchangeLookup_name _ _ _ Lb).
  - rewrite Hsell.
    destruct (safeOrderBook_some _ _ _ Bs) as (fb & Gb & Fb).
    destruct (cached_volume_some exchanges candidates c _ sellEx sv Hc
                (or_intror eq_refl) Ls Esv)
      as (fetch & symbols & tickers & ticker & T1 & T2 & _ & T3 & T4 & T5 & T6).
    exists sellEx, fb, sellBook, fetch, symbols, tickers, ticker, sv.
    repeat split; auto.
    + exact (exchangeLookup_in _ _ _ Ls).
    + exact (exchangeLookup_name _ _ _ Ls).
Qed.

Lemma returned_legs_have_books_and_tickers_witness :
  exists ex fetchBook book fetchTickers symbols tickers ticker volume,
    In ex sample_exchanges
    /\ name ex = leg_exchange (opp_sell sample_opportunity)
    /\ getOrderBook ex = Some fetchBook
    /\ fetchBook (opp_symbol sample_opportunity) = Fulfilled (Some book)
    /\ getTickers24h ex = Some fetchTickers
    /\ lookup (symbolsByExchange sample_exchanges [sample_candidate]) (name ex)
       = Some symbols
    /\ In (opp_symbol sample_opportunity) symbols
    /\ fetchTickers symbols = Fulfilled tickers
    /\ lookup tickers (opp_symbol sample_opportunity) = Some ticker
    /\ quoteVolume24h ticker = Some volume.
Proof.
  apply (returned_legs_have_books_and_tickers
           sample_exchanges default_env [sample_candidate] sample_opportunity
           (opp_sell sample_opportunity)).
  - vm_compute. left. reflexivity.
  - right. reflexivity.
Defined.

Lemma exchangesNeedingCurrencies_fold (opportunities : list ArbitrageOpportunity) :
  forall set0 : list string,
  let set' :=
    fold_left
      (fun set opp =>
         set_add (set_add set (leg_exchange (opp_buy opp)))
                 (leg_exchange (opp_sell opp)))
      opportunities set0 in
  (NoDup set0 -> NoDup set')
  /\ forall n, In n set'
               <-> In n set0
                   \/ exists opp, In opp opportunities
                                  /\ (n = leg_exchange (opp_buy opp)
                                      \/ n = leg_exchange (opp_sell opp)).
Proof.
  cbv zeta. induction opportunities as [|opp r IH]; intros set0; cbn [fold_left].
  - split; [auto|]. intro n. split; [auto|].
    intros [H|(opp & [] & _)]. exact H.
  - match goal with
    | |- context [fold_left _ r ?m] => destruct (IH m) as (I1 & I2)
    end.
    split.
    + intro H. apply I1. apply set_add_NoDup, set_add_NoDup, H.
    + intro n. rewrite I2, !set_add_In. cbn [In]. split.
      * intros [[[H|H]|H]|(o & Ho & Hn)]; eauto 6.
      * intros [H|(o & [<-|Ho] & [Hn|Hn])]; eauto 6.
Qed.

(** X14: the pre-fetches are batched: 24h tickers are requested once per
    venue, for a duplicate-free list of exactly the symbols of the
    candidates that have a leg on that venue, and only from venues that
    offer them; currency metadata is requested once per venue name that a
    candidate's leg carries. *)
Theorem prefetch_is_batched_per_venue
    (exchanges : list ExchangeConfig) (candidates : list ArbitrageOpportunity) :
  NoDup (keys (symbolsByExchange exchanges candidates))
  /\ (forall venue symbols,
        lookup (symbolsByExchange exchanges candidates) venue = Some symbols ->
        NoDup symbols
        /\ forall s,
             In s symbols
             <-> exists c ex,
                   In c candidates /\ opp_symbol c = s
                   /\ (lookup (exchangeLookup exchanges)
                              (leg_exchange (opp_buy c)) = Some ex
                       \/ lookup (exchangeLookup exchanges)
                                 (leg_exchange (opp_sell c)) = Some ex)
                   /\ name ex = venue /\ getTickers24h ex <> None)
  /\ NoDup (exchangesNeedingCurrencies candidates)
  /\ (forall n,
        In n (exchangesNeedingCurrencies candidates)
        <-> exists c, In c candidates
                      /\ (n = leg_exchange (opp_buy c)
                          \/ n = leg_exchange (opp_sell c))).
Proof.
  destruct (symbolsByExchange_spec exchanges candidates) as (S1 & S2 & S3).
  destruct (exchangesNeedingCurrencies_fold candidates []) as (C1 & C2).
  cbv zeta in C1, C2. fold (exchangesNeedingCurrencies candidates) in *.
  split; [exact S2|]. split; [|split].
  - intros venue symbols El. split; [exact (S3 _ _ El)|].
    intro s. rewrite <- S1. unfold filed. rewrite El. split.
    + intro H. eauto.
    + intros (l & E & H). congruence.
  - apply C1. constructor.
  - intro n. rewrite C2. split; [|auto].
    intros [[]|H]. exact H.
Qed.

(** ** The network the transferability check settles on *)

Lemma first_common_find buyKeys (sellDeposit : list (string * CurrencyNetworkInfo)) :
  first_common buyKeys sellDeposit = find (has sellDeposit) buyKeys.
Proof.
  induction buyKeys as [|k r IH]; cbn [first_common find]; [reflexivity|].
  destruct (has sellDeposit k); [reflexivity|exact IH].
Qed.

Lemma find_app {A} (p : A -> bool) l1 l2 :
  find p (l1 ++ l2)
  = match find p l1 with Some x => Some x | None => find p l2 end.
Proof.
  induction l1 as [|a r IH]; cbn [app find]; [reflexivity|].
  destruct (p a); [reflexivity|exact IH].
Qed.

Lemma find_first {A} (p : A -> bool) l x :
  find p l = Some x
  <-> exists before after,
        l = (before ++ x :: after)%list /\ p x = true
        /\ Forall (fun y => p y = false) before.
Proof.
  induction l as [|a r IH]; cbn [find].
  - split; [discriminate|]. intros (before & after & E & _).
    destruct before; discriminate.
  - destruct (p a) eqn:Ea.
    + split.
      * intro H. injection H as <-. exists [], r. repeat split; auto.
      * intros (before & after & E & Hx & Hb).
        destruct before as [|b before'].
        -- injection E as ->. reflexivity.
        -- injection E as <- _. inversion Hb; congruence.
    + rewrite IH. split.
      * intros (before & after & -> & Hx & Hb).
        exists (a :: before), after. repeat split; auto.
      * intros (before & after & E & Hx & Hb).
        destruct before as [|b before'].
        -- injection E as -> _. congruence.
        -- injection E as <- ->. inversion Hb; subst. eauto.
Qed.

Lemma find_keys_map_set {V} (p : string -> bool) (m : list (string * V)) k v :
  find p (keys (map_set m k v)) = find p (keys m ++ [k]).
Proof.
  induction m as [|[k0 v0] r IH]; cbn [map_set keys map fst app find].
  - reflexivity.
  - destruct (String.eqb k k0) eqn:E; cbn [map fst find].
    + apply String.eqb_eq in E. subst k0.
      destruct (p k) eqn:Ek; [reflexivity|].
      fold (keys r). rewrite find_app. cbn [find]. rewrite Ek.
      destruct (find p (keys r)); reflexivity.
    + destruct (p k0); [reflexivity|]. exact IH.
Qed.

Lemma find_keys_fold {V} (p : string -> bool) (entries : list (string * V)) :
  forall m,
  find p (keys (fold_left (fun m kv => map_set m (fst kv) (snd kv)) entries m))
  = find p (keys m ++ map fst entries).
Proof.
  induction entries as [|[k v] r IH]; intros m; cbn [fold_left map fst snd].
  - rewrite app_nil_r. reflexivity.
  - rewrite IH, !find_app, find_keys_map_set, find_app. cbn [find].
    destruct (find p (keys m)); [reflexivity|].
    destruct (p k); reflexivity.
Qed.

Lemma find_keys_Map_from {V} (p : string -> bool) (entries : list (string * V)) :
  find p (keys (Map_from entries)) = find p (map fst entries).
Proof. unfold Map_from. rewrite find_keys_fold. reflexivity. Qed.

(** X15: when both venues publish the base asset with a non-empty network
    list, the network the check reports is the first withdraw-enabled
    network of the buy venue, in the venue's listing order and compared in
    upper case, that is deposit-enabled on the sell venue; no network is
    reported otherwise. *)
Theorem transfer_network_is_first_common
    (buyCurrencies sellCurrencies : Currencies) (buyEx sellEx : ExchangeConfig)
    (currency : string) (buyInfo sellInfo : CurrencyInfo)
    (buyNets sellNets : list CurrencyNetworkInfo) (net : string) :
  lookup buyCurrencies (toUpperCase currency) = Some buyInfo ->
  lookup sellCurrencies (toUpperCase currency) = Some sellInfo ->
  networks buyInfo = Some buyNets -> buyNets <> [] ->
  networks sellInfo = Some sellNets -> sellNets <> [] ->
  transfer_network
    (validateTransferabilityFromCache (Some buyCurrencies) (Some sellCurrencies)
                                      buyEx sellEx currency) = Some net
  <-> exists before after,
        withdraw_networks buyNets = (before ++ net :: after)%list
        /\ In net (deposit_networks sellNets)
        /\ Forall (fun x => ~ In x (deposit_networks sellNets)) before.
Proof.
  intros Hb Hs Hbn Hbne Hsn Hsne.
  unfold validateTransferabilityFromCache.
  rewrite Hb, Hs. unfold networks_missing, networks_of. rewrite Hbn, Hsn.
  destruct buyNets as [|bn0 bns]; [congruence|].
  destruct sellNets as [|sn0 sns]; [congruence|].
  cbn [orb].
  set (B := bn0 :: bns). set (S := sn0 :: sns).
  rewrite first_common_find.
  replace (find (has (network_map depositEnabled S))
                (keys (network_map withdrawEnabled B)))
    with (find (has (network_map depositEnabled S)) (withdraw_networks B))
    by (unfold network_map, withdraw_networks;
        rewrite find_keys_Map_from, map_map; reflexivity).
  assert (Hhas : forall x, has (network_map depositEnabled S) x = true
                           <-> In x (deposit_networks S)).
  { intro x. rewrite has_in_keys. apply keys_network_map. }
  assert (Hnot : forall x, has (network_map depositEnabled S) x = false
                           <-> ~ In x (deposit_networks S)).
  { intro x. rewrite <- Hhas.
    destruct (has (network_map depositEnabled S) x); split; congruence. }
  destruct (find _ (withdraw_networks B)) as [n|] eqn:E;
    cbn [transfer_network].
  - split.
    + intro H. injection H as <-. apply find_first in E.
      destruct E as (before & after & EW & Hx & Hbef).
      exists before, after. split; [exact EW|]. split; [apply Hhas, Hx|].
      eapply Forall_impl; [|exact Hbef]. intros a. apply Hnot.
    + intros (before & after & EW & Hx & Hbef). f_equal.
      assert (F : find (has (network_map depositEnabled S)) (withdraw_networks B)
                  = Some net).
      { apply find_first. exists before, after. split; [exact EW|].
        split; [apply Hhas, Hx|].
        eapply Forall_impl; [|exact Hbef]. intros a. apply Hnot. }
      congruence.
  - split; [discriminate|].
    intros (before & after & EW & Hx & Hbef). exfalso.
    assert (F : find (has (network_map depositEnabled S)) (withdraw_networks B)
                = Some net).
    { apply find_first. exists before, after. split; [exact EW|].
      split; [apply Hhas, Hx|].
      eapply Forall_impl; [|exact Hbef]. intros a. apply Hnot. }
    congruence.
Qed.

(** The buy venue withdraws through "trc20", "btc" and "erc20" in that
    order and the sell venue accepts deposits through "BTC" and "ERC20":
    the check reports "BTC". *)
Lemma transfer_network_is_first_common_witness :
  transfer_network
    (validateTransferabilityFromCache
       (Some [("BTC", {| code := "BTC";
                         networks := Some [sample_network "trc20" true true;
                                           sample_network "btc" true true;
                                           sample_network "erc20" true true] |})])
       (Some [("BTC", {| code := "BTC";
                         networks := Some [sample_network "ERC20" true false;
                                           sample_network "BTC" true false;
                                           sample_network "TRC20" false true] |})])
       (sample_venue "alpha" 1 None) (sample_venue "beta" 1 None) "btc")
  = Some "BTC".
Proof.
  apply (transfer_network_is_first_common
           [("BTC", {| code := "BTC";
                       networks := Some [sample_network "trc20" true true;
                                         sample_network "btc" true true;
                                         sample_network "erc20" true true] |})]
           [("BTC", {| code := "BTC";
                       networks := Some [sample_network "ERC20" true false;
                                         sample_network "BTC" true false;
                                         sample_network "TRC20" false true] |})]
           (sample_venue "alpha" 1 None) (sample_venue "beta" 1 None) "btc"
           {| code := "BTC";
              networks := Some [sample_network "trc20" true true;
                                sample_network "btc" true true;
                                sample_network "erc20" true true] |}
           {| code := "BTC";
              networks := Some [sample_network "ERC20" true false;
                                sample_network "BTC" true false;
                                sample_network "TRC20" false true] |}
           [sample_network "trc20" true true;
            sample_network "btc" true true;
            sample_network "erc20" true true]
           [sample_network "ERC20" true false;
            sample_network "BTC" true false;
            sample_network "TRC20" false true]
           "BTC").
  - reflexivity.
  - reflexivity.
  - reflexivity.
  - discriminate.
  - reflexivity.
  - discriminate.
  - exists ["TRC20"], ["ERC20"]. split; [reflexivity|]. split.
    + vm_compute. auto.
    + constructor; [|constructor]. vm_compute.
      intros [H|[H|[]]]; discriminate.
Defined.

(** ** Order books of the binance adapter *)

Lemma sort_insert_In {A} (after : A -> A -> bool) x s y :
  In y (sort_insert after x s) <-> y = x \/ In y s.
Proof.
  induction s as [|a r IH]; cbn [sort_insert].
  - cbn. intuition.
  - destruct (after x a); cbn [In]; [rewrite IH|]; intuition.
Qed.

Lemma sort_by_In {A} (after : A -> A -> bool) l y :
  In y (sort_by after l) <-> In y l.
Proof.
  unfold sort_by. induction l as [|a r IH]; cbn [fold_right In]; [tauto|].
  rewrite sort_insert_In, IH. intuition.
Qed.

Lemma sort_by_map {A B} (f : A -> B) (afterA : A -> A -> bool)
    (afterB : B -> B -> bool) l :
  (forall x y, afterB (f x) (f y) = afterA x y) ->
  sort_by afterB (map f l) = map f (sort_by afterA l).
Proof.
  intro H. unfold sort_by. induction l as [|a r IH]; cbn [map fold_right];
    [reflexivity|].
  rewrite IH. generalize (fold_right (sort_insert afterA) [] r). intro s.
  induction s as [|b s IHs]; cbn [sort_insert map]; [reflexivity|].
  rewrite H. destruct (afterA a b); cbn [map]; [rewrite IHs|]; reflexivity.
Qed.

Lemma sort_insert_ascending (afterQ : Q * Q -> Q * Q -> bool) :
  (forall x y, if afterQ x y then fst y <= fst x else fst x <= fst y) ->
  forall ql p0 x,
  ascending_from p0 ql -> 0 < fst x -> 0 < snd x -> p0 <= fst x ->
  ascending_from p0 (sort_insert afterQ x ql).
Proof.
  intros H. induction ql as [|[p a] r IH]; intros p0 [px ax] Hasc Hp Ha Hle;
    cbn [fst snd] in *; cbn [sort_insert].
  - cbn. repeat split; auto.
  - cbn [ascending_from] in Hasc. destruct Hasc as (H1 & H2 & H3 & H4).
    pose proof (H (px, ax) (p, a)) as Hc. cbn [fst] in Hc.
    destruct (afterQ (px, ax) (p, a)).
    + cbn [ascending_from]. repeat split; auto.
    + cbn [ascending_from]. repeat split; auto.
Qed.

Lemma sort_by_ascending (afterQ : Q * Q -> Q * Q -> bool) ql :
  (forall x y, if afterQ x y then fst y <= fst x else fst x <= fst y) ->
  positive_levels ql ->
  match sort_by afterQ ql with
  | [] => True
  | (p, _) :: _ => ascending_from p (sort_by afterQ ql)
  end.
Proof.
  intros H Hpos. unfold sort_by.
  induction Hpos as [|[px ax] r [Hp Ha] Hr IH]; cbn [fold_right]; [exact I|].
  cbn [fst snd] in Hp, Ha.
  destruct (fold_right (sort_insert afterQ) [] r) as [|[p a] s] eqn:E.
  - cbn. repeat split; auto. lra.
  - cbn [sort_insert]. pose proof (H (px, ax) (p, a)) as Hc. cbn [fst] in Hc.
    cbn [ascending_from] in IH. destruct IH as (I1 & I2 & I3 & I4).
    destruct (afterQ (px, ax) (p, a)).
    + cbn [ascending_from]. repeat split; auto.
      apply (sort_insert_ascending afterQ H s p (px, ax)); auto.
    + cbn [ascending_from]. repeat split; auto. lra.
Qed.

Lemma sort_insert_descending (afterQ : Q * Q -> Q * Q -> bool) :
  (forall x y, if afterQ x y then fst x <= fst y else fst y <= fst x) ->
  forall ql p0 x,
  descending_from p0 ql -> 0 < fst x -> 0 < snd x -> fst x <= p0 ->
  descending_from p0 (sort_insert afterQ x ql).
Proof.
  intros H. induction ql as [|[p a] r IH]; intros p0 [px ax] Hdesc Hp Ha Hle;
    cbn [fst snd] in *; cbn [sort_insert].
  - cbn. repeat split; auto.
  - cbn [descending_from] in Hdesc. destruct Hdesc as (H1 & H2 & H3 & H4).
    pose proof (H (px, ax) (p, a)) as Hc. cbn [fst] in Hc.
    destruct (afterQ (px, ax) (p, a)).
    + cbn [descending_from]. repeat split; auto.
    + cbn [descending_from]. repeat split; auto.
Qed.

Lemma sort_by_descending (afterQ : Q * Q -> Q * Q -> bool) ql :
  (forall x y, if afterQ x y then fst x <= fst y else fst y <= fst x) ->
  positive_levels ql ->
  match sort_by afterQ ql with
  | [] => True
  | (p, _) :: _ => descending_from p (sort_by afterQ ql)
  end.
Proof.
  intros H Hpos. unfold sort_by.
  induction Hpos as [|[px ax] r [Hp Ha] Hr IH]; cbn [fold_right]; [exact I|].
  cbn [fst snd] in Hp, Ha.
  destruct (fold_right (sort_insert afterQ) [] r) as [|[p a] s] eqn:E.
  - cbn. repeat split; auto. lra.
  - cbn [sort_insert]. pose proof (H (px, ax) (p, a)) as Hc. cbn [fst] in Hc.
    cbn [descending_from] in IH. destruct IH as (I1 & I2 & I3 & I4).
    destruct (afterQ (px, ax) (p, a)).
    + cbn [descending_from]. repeat split; auto.
      apply (sort_insert_descending afterQ H s p (px, ax)); auto.
    + cbn [descending_from]. repeat split; auto. lra.
Qed.

Lemma positive_finite_levels (l : list OrderBookLevel) :
  Forall (fun lv => positive_finite (fst lv) /\ positive_finite (snd lv)) l ->
  exists ql, l = map (fun pa : Q * Q => (Fin (fst pa), Fin (snd pa))) ql
             /\ positive_levels ql.
Proof.
  induction 1 as [|[p a] r [Hp Ha] Hr (ql & -> & Hq)].
  - exists []. split; [reflexivity|constructor].
  - cbn [fst snd] in Hp, Ha.
    destruct p as [| | |p]; try contradiction.
    destruct a as [| | |a]; try contradiction.
    exists ((p, a) :: ql). split; [reflexivity|].
    constructor; [split; assumption|exact Hq].
Qed.

Lemma usable_levels_of_positive ql :
  positive_levels ql ->
  usable_levels (map (fun pa : Q * Q => (Fin (fst pa), Fin (snd pa))) ql) = ql.
Proof.
  induction 1 as [|[p a] r [Hp Ha] Hr IH]; [reflexivity|].
  cbn [fst snd] in Hp, Ha. unfold usable_levels in *.
  cbn [map usable_level fst snd].
  rewrite (proj2 (Qle_bool_false _ _) Hp), (proj2 (Qle_bool_false _ _) Ha).
  cbn [orb filter_some]. rewrite IH. reflexivity.
Qed.

Lemma book_side_positive Number raw after :
  Forall (fun lv => positive_finite (fst lv) /\ positive_finite (snd lv))
         (book_side Number raw after).
Proof.
  unfold book_side. apply Forall_forall. intros [p a] Hin.
  apply sort_by_In in Hin. apply filter_In in Hin. destruct Hin as [_ Hok].
  cbn [fst snd].
  destruct p as [| | |p]; try discriminate;
  destruct a as [| | |a]; try discriminate.
  cbn in Hok. apply andb_prop in Hok. destruct Hok as [Hp Ha].
  apply Qltb_true in Hp. apply Qltb_true in Ha. split; assumption.
Qed.

(** X16: the order book the binance adapter returns is never [null]; each
    side holds exactly the payload levels that parse to finite, strictly
    positive price and amount; asks come sorted by ascending price and bids
    by descending price. *)
Theorem binance_order_book_is_sorted_and_positive
    (Number : string -> num) (api : BinanceApi) (symbol : string)
    (answer : option OrderBook) :
  binance_getOrderBook Number api symbol = Fulfilled answer ->
  exists book raw,
    answer = Some book
    /\ api_depth api symbol = Fulfilled raw
    /\ asks_well_formed (asks book)
    /\ bids_well_formed (bids book)
    /\ (forall p a,
          In (p, a) (asks book)
          <-> positive_finite p /\ positive_finite a
              /\ exists tp ta, In (tp, ta) (array_or_empty (depth_asks raw))
                               /\ p = Number tp /\ a = Number ta)
    /\ (forall p a,
          In (p, a) (bids book)
          <-> positive_finite p /\ positive_finite a
              /\ exists tp ta, In (tp, ta) (array_or_empty (depth_bids raw))
                               /\ p = Number tp /\ a = Number ta).
Proof.
  unfold binance_getOrderBook.
  destruct (api_depth api symbol) as [raw|]; [|discriminate].
  intro E. injection E as <-. eexists _, raw.
  split; [reflexivity|]. split; [reflexivity|]. cbn [asks bids].
  assert (Hmem : forall side after p a,
    In (p, a) (book_side Number side after)
    <-> positive_finite p /\ positive_finite a
        /\ exists tp ta, In (tp, ta) (array_or_empty side)
                         /\ p = Number tp /\ a = Number ta).
  { intros side after p a. unfold book_side.
    rewrite sort_by_In, filter_In, in_map_iff. split.
    - intros [([tp ta] & E & Hin) Hok]. injection E as <- <-.
      destruct (Number tp) as [| | |p] eqn:Ep; try discriminate;
      destruct (Number ta) as [| | |a] eqn:Ea; try discriminate.
      cbn in Hok. apply andb_prop in Hok. destruct Hok as [Hp Ha].
      apply Qltb_true in Hp. apply Qltb_true in Ha.
      split; [exact Hp|]. split; [exact Ha|]. exists tp, ta. auto.
    - intros (Hp & Ha & tp & ta & Hin & -> & ->). split.
      + exists (tp, ta). auto.
      + destruct (Number tp) as [| | |p]; try contradiction.
        destruct (Number ta) as [| | |a]; try contradiction.
        cbn in Hp, Ha |- *.
        rewrite (proj2 (Qltb_true _ _) Hp), (proj2 (Qltb_true _ _) Ha).
        reflexivity. }
  split; [|split; [|split; apply Hmem]].
  - split; [apply book_side_positive|].
    unfold book_side.
    match goal with
    | |- context [sort_by ?after (filter ?ok ?l)] =>
        assert (Hpos : Forall (fun lv => positive_finite (fst lv)
                                          /\ positive_finite (snd lv))
                              (filter ok l))
    end.
    { apply Forall_forall. intros [p a] Hin. apply filter_In in Hin.
      destruct Hin as [_ Hok]. cbn [fst snd].
      destruct p as [| | |p]; try discriminate;
      destruct a as [| | |a]; try discriminate.
      cbn in Hok. apply andb_prop in Hok. destruct Hok as [Hp Ha].
      apply Qltb_true in Hp. apply Qltb_true in Ha. split; assumption. }
    destruct (positive_finite_levels _ Hpos) as (ql & -> & Hq).
    rewrite (sort_by_map (fun pa : Q * Q => (Fin (fst pa), Fin (snd pa)))
               (fun x y => Qltb 0 (fst x + - fst y))) by reflexivity.
    assert (Hs : positive_levels
                   (sort_by (fun x y : Q * Q => Qltb 0 (fst x + - fst y)) ql)).
    { apply Forall_forall. intros x Hx. apply sort_by_In in Hx.
      unfold positive_levels in Hq. rewrite Forall_forall in Hq. auto. }
    rewrite (usable_levels_of_positive _ Hs).
    apply sort_by_ascending; [|exact Hq].
    intros x y. destruct (Qltb 0 (fst x + - fst y)) eqn:E.
    + apply Qltb_true in E. lra.
    + apply Qltb_false in E. lra.
  - split; [apply book_side_positive|].
    unfold book_side.
    match goal with
    | |- context [sort_by ?after (filter ?ok ?l)] =>
        assert (Hpos : Forall (fun lv => positive_finite (fst lv)
                                          /\ positive_finite (snd lv))
                              (filter ok l))
    end.
    { apply Forall_forall. intros [p a] Hin. apply filter_In in Hin.
      destruct Hin as [_ Hok]. cbn [fst snd].
      destruct p as [| | |p]; try discriminate;
      destruct a as [| | |a]; try discriminate.
      cbn in Hok. apply andb_prop in Hok. destruct Hok as [Hp Ha].
      apply Qltb_true in Hp. apply Qltb_true in Ha. split; assumption. }
    destruct (positive_finite_levels _ Hpos) as (ql & -> & Hq).
    rewrite (sort_by_map (fun pa : Q * Q => (Fin (fst pa), Fin (snd pa)))
               (fun x y => Qltb 0 (fst y + - fst x))) by reflexivity.
    assert (Hs : positive_levels
                   (sort_by (fun x y : Q * Q => Qltb 0 (fst y + - fst x)) ql)).
    { apply Forall_forall. intros x Hx. apply sort_by_In in Hx.
      unfold positive_levels in Hq. rewrite Forall_forall in Hq. auto. }
    rewrite (usable_levels_of_positive _ Hs).
    apply sort_by_descending; [|exact Hq].
    intros x y. destruct (Qltb 0 (fst y + - fst x)) eqn:E.
    + apply Qltb_true in E. lra.
    + apply Qltb_false in E. lra.
Qed.

Lemma binance_order_book_is_sorted_and_positive_witness :
  exists book raw,
    Some {| bids := [(Fin (12 # 10), Fin 1); (Fin 1, Fin 1)];
            asks := [(Fin 1, Fin (12 # 10)); (Fin (12 # 10), Fin 1)] |}
    = Some book
    /\ Fulfilled {| depth_bids := Some [("1", "1"); ("1.2", "1"); ("abc", "1")];
                    depth_asks := Some [("1.2", "1"); ("1", "1.2")] |}
       = Fulfilled raw
    /\ asks_well_formed (asks book)
    /\ bids_well_formed (bids book)
    /\ (forall p a,
          In (p, a) (asks book)
          <-> positive_finite p /\ positive_finite a
              /\ exists tp ta, In (tp, ta) (array_or_empty (depth_asks raw))
                               /\ p = sample_Number tp /\ a = sample_Number ta)
    /\ (forall p a,
          In (p, a) (bids book)
          <-> positive_finite p /\ positive_finite a
              /\ exists tp ta, In (tp, ta) (array_or_empty (depth_bids raw))
                               /\ p = sample_Number tp /\ a = sample_Number ta).
Proof.
  apply (binance_order_book_is_sorted_and_positive sample_Number
           {| api_exchangeInfo := Failed;
              api_tickerPrice := Failed;
              api_ticker24hr := Failed;
              api_depth := fun _ =>
                Fulfilled
                  {| depth_bids := Some [("1", "1"); ("1.2", "1"); ("abc", "1")];
                     depth_asks := Some [("1.2", "1"); ("1", "1.2")] |} |}
           "XUSDT").
  vm_compute. reflexivity.
Defined.

(** ** Symbols of the binance-style adapters *)

Lemma toUpperCase_app a b :
  toUpperCase (a ++ b) = toUpperCase a ++ toUpperCase b.
Proof.
  induction a as [|c r IH]; cbn [append toUpperCase]; [reflexivity|].
  rewrite IH. reflexivity.
Qed.

Lemma upper_ascii_idem c : upper_ascii (upper_ascii c) = upper_ascii c.
Proof.
  destruct c as [[] [] [] [] [] [] [] []]; reflexivity.
Qed.

Lemma toUpperCase_idem s : toUpperCase (toUpperCase s) = toUpperCase s.
Proof.
  induction s as [|c r IH]; cbn [toUpperCase]; [reflexivity|].
  rewrite upper_ascii_idem, IH. reflexivity.
Qed.

Lemma length_app a b :
  String.length (a ++ b) = (String.length a + String.length b)%nat.
Proof.
  induction a as [|c r IH]; cbn [append String.length]; [reflexivity|].
  rewrite IH. reflexivity.
Qed.

Lemma substring_all b : substring 0 (String.length b) b = b.
Proof.
  induction b as [|c r IH]; cbn [String.length substring]; [reflexivity|].
  rewrite IH. reflexivity.
Qed.

Lemma substring_suffix a b :
  substring (String.length a) (String.length b) (a ++ b) = b.
Proof.
  induction a as [|c r IH]; cbn [append String.length].
  - apply substring_all.
  - cbn [substring]. exact IH.
Qed.

Lemma substring_prefix a b : substring 0 (String.length a) (a ++ b) = a.
Proof.
  induction a as [|c r IH]; cbn [append String.length substring].
  - destruct b; reflexivity.
  - rewrite IH. reflexivity.
Qed.

Lemma endsWith_app a b : endsWith (a ++ b) b = true.
Proof.
  unfold endsWith. rewrite length_app.
  replace (String.length a + String.length b - String.length b)%nat
    with (String.length a) by lia.
  rewrite substring_suffix, String.eqb_refl.
  rewrite (proj2 (Nat.leb_le _ _)) by lia. reflexivity.
Qed.

Lemma slice_drop_last_app a b : slice_drop_last (String.length b) (a ++ b) = a.
Proof.
  unfold slice_drop_last. rewrite length_app.
  replace (String.length a + String.length b - String.length b)%nat
    with (String.length a) by lia.
  apply substring_prefix.
Qed.

Lemma baseFromSymbolUsdt_normalizeSymbol base :
  baseFromSymbolUsdt (normalizeSymbol base USDT) = toUpperCase base.
Proof.
  unfold normalizeSymbol, baseFromSymbolUsdt, USDT.
  rewrite toUpperCase_app.
  change (toUpperCase "USDT") with "USDT".
  rewrite endsWith_app. apply (slice_drop_last_app (toUpperCase base) "USDT").
Qed.

Lemma pairs_of_symbols_spec status symbols p :
  In p (pairs_of_symbols status symbols) ->
  pair_quote p = USDT
  /\ pair_symbol p = normalizeSymbol (pair_base p) USDT
  /\ exists symbol, In symbol symbols /\ bs_status symbol = status
                    /\ bs_baseAsset symbol = pair_base p.
Proof.
  unfold pairs_of_symbols. intro H. apply in_map_iff in H.
  destruct H as (symbol & <- & Hin). apply filter_In in Hin.
  destruct Hin as [Hin Hok]. apply andb_prop in Hok. destruct Hok as [Hs Hq].
  apply String.eqb_eq in Hs. apply String.eqb_eq in Hq.
  cbn [pair_quote pair_symbol pair_base]. rewrite Hq.
  repeat split. exists symbol. auto.
Qed.

(** X17: every pair the binance, binanceus and mexc adapters report is
    quoted in USDT and carries the symbol [BASE ++ "USDT"] in upper case,
    and the validator's [baseFromSymbolUsdt] recovers from that symbol the
    upper-cased base asset, which is the currency code the transfer check
    looks up. *)
Theorem adapter_pairs_round_trip_through_symbol
    (Number : string -> num) (feeOverrides : option (list (string * ExchangeFees)))
    (api : BinanceApi) (ex : ExchangeConfig) (pairs : list Pair) (p : Pair) :
  In ex [binance Number feeOverrides api; binanceUs Number feeOverrides api;
         mexc Number feeOverrides api] ->
  getPairs ex = Fulfilled pairs ->
  In p pairs ->
  pair_quote p = "USDT"
  /\ pair_symbol p = toUpperCase (pair_base p) ++ "USDT"
  /\ baseFromSymbolUsdt (pair_symbol p) = toUpperCase (pair_base p)
  /\ toUpperCase (baseFromSymbolUsdt (pair_symbol p)) = toUpperCase (pair_base p).
Proof.
  intros Hex Hg Hp.
  assert (H : exists status symbols, In p (pairs_of_symbols status symbols)).
  { destruct Hex as [<-|[<-|[<-|[]]]]; cbn [getPairs binance binanceUs mexc] in Hg.
    - unfold binance_getPairs in Hg.
      destruct (api_exchangeInfo api); [|discriminate].
      injection Hg as <-. eauto.
    - unfold binance_getPairs in Hg.
      destruct (api_exchangeInfo api).
      + injection Hg as <-. eauto.
      + injection Hg as <-. destruct Hp.
    - destruct (api_exchangeInfo api); [|discriminate].
      injection Hg as <-. eauto. }
  destruct H as (status & symbols & Hin).
  destruct (pairs_of_symbols_spec _ _ _ Hin) as (Hq & Hs & _).
  split; [exact Hq|]. rewrite Hs.
  rewrite baseFromSymbolUsdt_normalizeSymbol, toUpperCase_idem.
  repeat split. unfold normalizeSymbol, USDT. rewrite toUpperCase_app. reflexivity.
Qed.

Lemma adapter_pairs_round_trip_through_symbol_witness :
  "USDT" = "USDT"
  /\ "XUSDT" = toUpperCase "x" ++ "USDT"
  /\ baseFromSymbolUsdt "XUSDT" = toUpperCase "x"
  /\ toUpperCase (baseFromSymbolUsdt "XUSDT") = toUpperCase "x".
Proof.
  apply (adapter_pairs_round_trip_through_symbol sample_Number None
           {| api_exchangeInfo :=
                Fulfilled (Some [{| bs_status := "ENABLED";
                                    bs_quoteAsset := "USDT";
                                    bs_baseAsset := "x" |}]);
              api_tickerPrice := Failed;
              api_ticker24hr := Failed;
              api_depth := fun _ => Failed |}
           (mexc sample_Number None
              {| api_exchangeInfo :=
                   Fulfilled (Some [{| bs_status := "ENABLED";
                                       bs_quoteAsset := "USDT";
                                       bs_baseAsset := "x" |}]);
                 api_tickerPrice := Failed;
                 api_ticker24hr := Failed;
                 api_depth := fun _ => Failed |})
           [{| pair_base := "x"; pair_quote := "USDT"; pair_symbol := "XUSDT" |}]
           {| pair_base := "x"; pair_quote := "USDT"; pair_symbol := "XUSDT" |}).
  - right. right. left. reflexivity.
  - reflexivity.
  - left. reflexivity.
Defined.

(** ** Prices of the binance-style adapters *)

Lemma Map_from_NoDup {V} (entries : list (string * V)) :
  NoDup (keys (Map_from entries)).
Proof.
  unfold Map_from.
  assert (G : forall m : list (string * V), NoDup (keys m) ->
              NoDup (keys (fold_left (fun m kv => map_set m (fst kv) (snd kv))
                                     entries m))).
  { induction entries as [|[k v] r IH]; intros m Hm; cbn [fold_left];
      [exact Hm|].
    apply IH. apply map_set_NoDup. exact Hm. }
  apply G. constructor.
Qed.

Lemma Map_from_In {V} (entries : list (string * V)) k v :
  In (k, v) (Map_from entries) -> In (k, v) entries.
Proof.
  intro H. apply (In_lookup _ _ _ (Map_from_NoDup entries)) in H.
  unfold Map_from in H.
  apply (lookup_fold_map_set_keyed (fun k v => In (k, v) entries) entries [])
    in H; [exact H|intros k0 v0 E; discriminate|].
  apply Forall_forall. intros [k0 v0] Hin. exact Hin.
Qed.

(** X18: the price record a binance-style adapter returns has one entry per
    symbol, only for symbols that were requested, each parsed from an entry
    of the payload; the mexc adapter moreover keeps finite prices only. *)
Theorem adapter_prices_answer_the_request
    (Number : string -> num) (feeOverrides : option (list (string * ExchangeFees)))
    (api : BinanceApi) (ex : ExchangeConfig) (requested : list string)
    (prices : list (string * num)) :
  In ex [binance Number feeOverrides api; binanceUs Number feeOverrides api;
         mexc Number feeOverrides api] ->
  getPrices ex requested = Fulfilled prices ->
  NoDup (keys prices)
  /\ (forall symbol price,
        In (symbol, price) prices ->
        In symbol requested
        /\ exists payload entry,
             api_tickerPrice api = Fulfilled payload
             /\ In entry (array_or_empty payload)
             /\ bp_symbol entry = symbol
             /\ price = Number (bp_price entry))
  /\ (name ex = "mexc" ->
      Forall (fun e => isFinite (snd e) = true) prices).
Proof.
  intros Hex Hg.
  assert (Hb : forall data res,
             api_tickerPrice api = Fulfilled data ->
             res = binance_prices Number data requested ->
             NoDup (keys res)
             /\ forall symbol price,
                  In (symbol, price) res ->
                  In symbol requested
                  /\ exists payload entry,
                       api_tickerPrice api = Fulfilled payload
                       /\ In entry (array_or_empty payload)
                       /\ bp_symbol entry = symbol
                       /\ price = Number (bp_price entry)).
  { intros data res Ed ->. unfold binance_prices.
    split; [apply Map_from_NoDup|].
    intros symbol price Hin. apply Map_from_In in Hin.
    apply in_map_iff in Hin. destruct Hin as (entry & E & Hin).
    injection E as <- <-. apply filter_In in Hin. destruct Hin as [Hin Hok].
    apply includes_In in Hok. split; [exact Hok|].
    exists data, entry. auto. }
  destruct Hex as [<-|[<-|[<-|[]]]];
    cbn [getPrices binance binanceUs mexc name] in *.
  - unfold binance_getPrices in Hg.
    destruct (api_tickerPrice api) as [data|] eqn:Ed; [|discriminate].
    injection Hg as <-.
    destruct (Hb data _ eq_refl eq_refl) as [H1 H2].
    split; [exact H1|]. split; [exact H2|discriminate].
  - unfold binance_getPrices in Hg.
    destruct (api_tickerPrice api) as [data|] eqn:Ed.
    + injection Hg as <-.
      destruct (Hb data _ eq_refl eq_refl) as [H1 H2].
      split; [exact H1|]. split; [exact H2|discriminate].
    + injection Hg as <-. split; [constructor|].
      split; [intros s p []|discriminate].
  - unfold mexc_getPrices in Hg.
    destruct (api_tickerPrice api) as [data|] eqn:Ed; [|discriminate].
    injection Hg as <-. split; [apply Map_from_NoDup|]. split.
    + intros symbol price Hin. apply Map_from_In in Hin.
      apply filter_In in Hin. destruct Hin as [Hin Hok].
      apply andb_prop in Hok. destruct Hok as [Hinc _].
      apply includes_In in Hinc. split; [exact Hinc|].
      apply in_map_iff in Hin. destruct Hin as (entry & E & Hin).
      injection E as <- <-. exists data, entry. auto.
    + intros _. apply Forall_forall. intros [symbol price] Hin.
      apply Map_from_In in Hin. apply filter_In in Hin.
      destruct Hin as [_ Hok]. apply andb_prop in Hok. exact (proj2 Hok).
Qed.

Lemma adapter_prices_answer_the_request_witness :
  NoDup (keys [("XUSDT", Fin (12 # 10))])
  /\ (forall symbol price,
        In (symbol, price) [("XUSDT", Fin (12 # 10))] ->
        In symbol ["XUSDT"]
        /\ exists payload entry,
             api_tickerPrice (sample_api "ENABLED" "1.2") = Fulfilled payload
             /\ In entry (array_or_empty payload)
             /\ bp_symbol entry = symbol
             /\ price = sample_Number (bp_price entry))
  /\ (name (mexc sample_Number None (sample_api "ENABLED" "1.2")) = "mexc" ->
      Forall (fun e => isFinite (snd e) = true) [("XUSDT", Fin (12 # 10))]).
Proof.
  apply (adapter_prices_answer_the_request sample_Number None
           (sample_api "ENABLED" "1.2")
           (mexc sample_Number None (sample_api "ENABLED" "1.2"))
           ["XUSDT"] [("XUSDT", Fin (12 # 10))]).
  - right. right. left. reflexivity.
  - vm_compute. reflexivity.
Defined.

(** ** Fees of the registry *)

(** X19: the fees an adapter is registered with are valid whenever the
    defaults and every entry of the override table are: [resolveFees]
    always defines the transfer fee, takes each figure from the override of
    the venue when there is one, and otherwise from the defaults, with a
    transfer fee of 0 when neither gives one. *)
Theorem resolved_fees_are_valid
    (feeOverrides : option (list (string * ExchangeFees)))
    (venue : string) (defaults : ExchangeFees) :
  (forall table, feeOverrides = Some table ->
                 Forall (fun e => valid_fees (snd e)) table) ->
  valid_fees defaults ->
  valid_fees (resolveFees feeOverrides venue defaults)
  /\ transferFeePercent (resolveFees feeOverrides venue defaults) <> None
  /\ ((forall table, feeOverrides = Some table -> lookup table venue = None) ->
      takerFeePercent (resolveFees feeOverrides venue defaults)
      = takerFeePercent defaults
      /\ transferFeePercent (resolveFees feeOverrides venue defaults)
         = Some match transferFeePercent defaults with
                | Some t => t
                | None => Fin 0
                end).
Proof.
  intros Hov Hdef. unfold resolveFees.
  cbn [takerFeePercent transferFeePercent].
  split; [|split; [discriminate|]].
  - destruct feeOverrides as [table|].
    + destruct (lookup table venue) as [o|] eqn:El.
      * pose proof (lookup_Forall valid_fees table venue o (Hov _ eq_refl) El)
          as [Ht Hx].
        split; cbn [takerFeePercent transferFeePercent]; [exact Ht|].
        destruct (transferFeePercent o) as [x|]; [exact Hx|].
        destruct Hdef as [_ Hd].
        destruct (transferFeePercent defaults) as [d|]; [exact Hd|].
        exists 0%Q. split; [reflexivity|]. apply Qle_refl.
      * destruct Hdef as [Ht Hd].
        split; cbn [takerFeePercent transferFeePercent]; [exact Ht|].
        destruct (transferFeePercent defaults) as [d|]; [exact Hd|].
        exists 0%Q. split; [reflexivity|]. apply Qle_refl.
    + destruct Hdef as [Ht Hd].
      split; cbn [takerFeePercent transferFeePercent]; [exact Ht|].
      destruct (transferFeePercent defaults) as [d|]; [exact Hd|].
      exists 0%Q. split; [reflexivity|]. apply Qle_refl.
  - intro Hnone. destruct feeOverrides as [table|]; [|split; reflexivity].
    rewrite (Hnone table eq_refl). split; reflexivity.
Qed.

Lemma resolved_fees_are_valid_witness :
  valid_fees (resolveFees None "binance" defaultFees)
  /\ transferFeePercent (resolveFees None "binance" defaultFees) <> None
  /\ ((forall table, @None (list (string * ExchangeFees)) = Some table ->
                     lookup table "binance" = None) ->
      takerFeePercent (resolveFees None "binance" defaultFees)
      = takerFeePercent defaultFees
      /\ transferFeePercent (resolveFees None "binance" defaultFees)
         = Some match transferFeePercent defaultFees with
                | Some t => t
                | None => Fin 0
                end).
Proof.
  apply (resolved_fees_are_valid None "binance" defaultFees).
  - intros table E. discriminate.
  - split; [|exact I]. exists (1 # 10). split; [reflexivity|discriminate].
Defined.

(** ** Edge cases of the fill simulation *)

(** X20: both fill functions ignore the levels their guard skips: removing
    from the book every level whose price or amount is not finite or not
    positive changes no result, whatever the amount. *)
Theorem fills_ignore_skipped_levels (book : OrderBook) (amount : num) :
  vwapBuyForQuoteAmount book amount
  = vwapBuyForQuoteAmount
      {| bids := bids book; asks := filter keep_level (asks book) |} amount
  /\ vwapSellForBaseAmount book amount
     = vwapSellForBaseAmount
         {| bids := filter keep_level (bids book); asks := asks book |} amount.
Proof.
  unfold vwapBuyForQuoteAmount, vwapSellForBaseAmount. cbn [asks bids].
  rewrite <- buy_loop_filter, <- sell_loop_filter. split; reflexivity.
Qed.

Lemma filter_keep_nil levels :
  Forall (fun l => skip_level (fst l) (snd l) = true) levels ->
  filter keep_level levels = [].
Proof.
  induction 1 as [|l r Hl Hr IH]; [reflexivity|].
  cbn [filter]. unfold keep_level at 1. rewrite Hl. exact IH.
Qed.

(** X21: a fill needs a book and a positive amount: a finite amount that is
    zero or negative is never filled, and a side on which every level is
    skipped (an empty side in particular) fills no amount at all. *)
Theorem fills_need_levels_and_a_positive_amount (book : OrderBook) (q : Q) :
  q <= 0 ->
  vwapBuyForQuoteAmount book (Fin q) = None
  /\ vwapSellForBaseAmount book (Fin q) = None
  /\ (forall b amount,
        Forall (fun l => skip_level (fst l) (snd l) = true) (asks b) ->
        vwapBuyForQuoteAmount b amount = None)
  /\ (forall b amount,
        Forall (fun l => skip_level (fst l) (snd l) = true) (bids b) ->
        vwapSellForBaseAmount b amount = None).
Proof.
  intro Hq. split; [|split; [|split]].
  - destruct (vwapBuyForQuoteAmount book (Fin q)) as [r|] eqn:E; [|reflexivity].
    destruct (vwapBuy_some _ _ _ E) as (s & b & _ & _ & _ & H & _). lra.
  - destruct (vwapSellForBaseAmount book (Fin q)) as [r|] eqn:E; [|reflexivity].
    destruct (vwapSell_some _ _ _ E) as (s & b & _ & _ & _ & H & _). lra.
  - intros b amount H. unfold vwapBuyForQuoteAmount.
    rewrite buy_loop_filter, (filter_keep_nil _ H). reflexivity.
  - intros b amount H. unfold vwapSellForBaseAmount.
    rewrite sell_loop_filter, (filter_keep_nil _ H). reflexivity.
Qed.

Lemma fills_need_levels_and_a_positive_amount_witness :
  vwapBuyForQuoteAmount {| bids := [(Fin 1, Fin 5)]; asks := [(Fin 1, Fin 5)] |}
                        (Fin 0) = None
  /\ vwapSellForBaseAmount {| bids := [(Fin 1, Fin 5)]; asks := [(Fin 1, Fin 5)] |}
                           (Fin 0) = None
  /\ (forall b amount,
        Forall (fun l => skip_level (fst l) (snd l) = true) (asks b) ->
        vwapBuyForQuoteAmount b amount = None)
  /\ (forall b amount,
        Forall (fun l => skip_level (fst l) (snd l) = true) (bids b) ->
        vwapSellForBaseAmount b amount = None).
Proof.
  apply (fills_need_levels_and_a_positive_amount
           {| bids := [(Fin 1, Fin 5)]; asks := [(Fin 1, Fin 5)] |} 0).
  discriminate.
Defined.

(** ** Venue symbol formats *)

Lemma split_on_free sep s : free_of sep s -> split_on sep s = [s].
Proof.
  induction s as [|c r IH]; cbn [free_of split_on]; [reflexivity|].
  intros [Hc Hr]. rewrite (proj2 (Ascii.eqb_neq _ _) Hc), (IH Hr). reflexivity.
Qed.

Lemma split_on_app sep a b :
  free_of sep a ->
  split_on sep (a ++ String sep b) = a :: split_on sep b.
Proof.
  induction a as [|c r IH]; cbn [free_of append split_on].
  - intros _. rewrite Ascii.eqb_refl. reflexivity.
  - intros [Hc Hr]. rewrite (proj2 (Ascii.eqb_neq _ _) Hc), (IH Hr). reflexivity.
Qed.

Lemma remove_first_app c a b :
  free_of c a -> remove_first c (a ++ String c b) = a ++ b.
Proof.
  induction a as [|d r IH]; cbn [free_of append remove_first].
  - intros _. rewrite Ascii.eqb_refl. reflexivity.
  - intros [Hd Hr]. rewrite (proj2 (Ascii.eqb_neq _ _) Hd), (IH Hr). reflexivity.
Qed.

(** X22: the two kucoin symbol conversions are inverse to each other on the
    symbols the scan uses: for a non-empty upper-case base without a dash,
    the order-book request derived from [BASE ++ "USDT"] names the market
    [BASE ++ "-USDT"], and a ticker of that market is filed under
    [BASE ++ "USDT"] again.  A symbol that does not end in USDT, or is just
    "USDT", has no kucoin market. *)
Theorem kucoin_symbol_round_trip (base : string) :
  base <> "" -> free_of "-" base -> toUpperCase base = base ->
  kucoinSymbolFromNormalized (base ++ "USDT") = Some (base ++ "-USDT")
  /\ normalizeSymbolFromKucoin (base ++ "-USDT") = Some (base ++ "USDT")
  /\ kucoinSymbolFromNormalized "USDT" = None
  /\ (forall symbol, endsWith symbol "USDT" = false ->
                     kucoinSymbolFromNormalized symbol = None).
Proof.
  intros Hne Hfree Hup. split; [|split; [|split]].
  - unfold kucoinSymbolFromNormalized, USDT.
    rewrite endsWith_app. cbn [negb].
    rewrite (slice_drop_last_app base "USDT").
    destruct base; [congruence|reflexivity].
  - unfold normalizeSymbolFromKucoin.
    change (base ++ "-USDT") with (base ++ String "-" "USDT").
    rewrite (split_on_app "-" base "USDT" Hfree).
    change (split_on "-" "USDT") with ["USDT"].
    cbn [nth_error]. destruct base as [|c r]; [congruence|].
    cbn [blank orb]. unfold normalizeSymbol.
    rewrite toUpperCase_app, Hup. reflexivity.
  - reflexivity.
  - intros symbol H. unfold kucoinSymbolFromNormalized, USDT. rewrite H.
    reflexivity.
Qed.

Lemma kucoin_symbol_round_trip_witness :
  kucoinSymbolFromNormalized ("BTC" ++ "USDT") = Some ("BTC" ++ "-USDT")
  /\ normalizeSymbolFromKucoin ("BTC" ++ "-USDT") = Some ("BTC" ++ "USDT")
  /\ kucoinSymbolFromNormalized "USDT" = None
  /\ (forall symbol, endsWith symbol "USDT" = false ->
                     kucoinSymbolFromNormalized symbol = None).
Proof.
  apply (kucoin_symbol_round_trip "BTC").
  - discriminate.
  - cbn. repeat split; discriminate.
  - reflexivity.
Defined.

(** X23: the okx adapter requests the book of [BASE ++ "USDT"] under the
    instrument [BASE ++ "-USDT"], and files a ticker of that instrument
    under [BASE ++ "USDT"] again when the base holds no dash; a symbol that
    does not end in USDT is requested as it is. *)
Theorem okx_symbol_round_trip (base : string) :
  free_of "-" base ->
  okxInstId (base ++ "USDT") = base ++ "-USDT"
  /\ okxSymbolOfInstId (okxInstId (base ++ "USDT")) = base ++ "USDT"
  /\ (forall symbol, endsWith symbol "USDT" = false -> okxInstId symbol = symbol).
Proof.
  intro Hfree.
  assert (E : okxInstId (base ++ "USDT") = base ++ "-USDT").
  { unfold okxInstId, USDT. rewrite endsWith_app. cbn [negb].
    rewrite (slice_drop_last_app base "USDT"). reflexivity. }
  split; [exact E|]. split.
  - rewrite E. unfold okxSymbolOfInstId.
    change (base ++ "-USDT") with (base ++ String "-" "USDT").
    apply remove_first_app. exact Hfree.
  - intros symbol H. unfold okxInstId, USDT. rewrite H. reflexivity.
Qed.

Lemma okx_symbol_round_trip_witness :
  okxInstId ("BTC" ++ "USDT") = "BTC" ++ "-USDT"
  /\ okxSymbolOfInstId (okxInstId ("BTC" ++ "USDT")) = "BTC" ++ "USDT"
  /\ (forall symbol, endsWith symbol "USDT" = false -> okxInstId symbol = symbol).
Proof.
  apply (okx_symbol_round_trip "BTC").
  cbn. repeat split; discriminate.
Defined.

(** ** The venue registry *)

Lemma lookup_fold_last {V} (entries : list (string * V)) :
  forall m k,
  lookup (fold_left (fun m kv => map_set m (fst kv) (snd kv)) entries m) k
  = match find (fun e => String.eqb k (fst e)) (rev entries) with
    | Some e => Some (snd e)
    | None => lookup m k
    end.
Proof.
  induction entries as [|[k0 v0] r IH]; intros m k; cbn [fold_left rev find].
  - reflexivity.
  - rewrite IH, find_app. cbn [fst snd find].
    destruct (find (fun e => String.eqb k (fst e)) (rev r)); [reflexivity|].
    rewrite lookup_map_set. destruct (String.eqb k k0); reflexivity.
Qed.

(** X24: looking a venue up by name finds the venue registered under that
    name, the last one if several share it, and nothing when none does. *)
Theorem exchange_lookup_finds_last_registered
    (exchanges : list ExchangeConfig) (venue : string) :
  lookup (exchangeLookup exchanges) venue
  = find (fun ex => String.eqb venue (name ex)) (rev exchanges)
  /\ (lookup (exchangeLookup exchanges) venue = None
      <-> forall ex, In ex exchanges -> name ex <> venue).
Proof.
  assert (E : lookup (exchangeLookup exchanges) venue
              = find (fun ex => String.eqb venue (name ex)) (rev exchanges)).
  { unfold exchangeLookup, Map_from. rewrite lookup_fold_last.
    rewrite <- map_rev. generalize (rev exchanges). intro l.
    induction l as [|ex r IH]; cbn [map find fst snd]; [reflexivity|].
    destruct (String.eqb venue (name ex)); [reflexivity|exact IH]. }
  split; [exact E|]. rewrite E. split.
  - intros Hnone ex Hin Hn.
    assert (Hr : In ex (rev exchanges)) by (apply in_rev in Hin; exact Hin).
    pose proof (find_none _ _ Hnone ex Hr) as F. cbv beta in F.
    rewrite Hn, String.eqb_refl in F. discriminate.
  - intro Hall.
    destruct (find _ (rev exchanges)) as [ex|] eqn:F; [|reflexivity].
    apply find_some in F. destruct F as [Hin Heq].
    apply String.eqb_eq in Heq. apply in_rev in Hin.
    exfalso. exact (Hall ex Hin (eq_sym Heq)).
Qed.
